(** * argus: repository CRUD contract, claims extraction and request handling

    A shallow embedding of the Go sources of [ruziba3vich/argus]:
    - [internal/pkg/helper]   : [ValidatePhoneNumber]
    - [internal/pkg/token]    : [ParseJwtToken]
    - [api/middleware]        : [AuthContext]
    - [internal/service]      : the seven entity repositories
    - [internal/https/v1]     : [userRoutes.updateUser]

    Go strings are byte strings; they are modelled by [string] (a list of
    [ascii], one per byte).  Go maps are modelled by [gmap]. *)

From Stdlib Require Import ZArith Ascii String List Sorted Permutation Lia.
From stdpp Require Import base option list gmap strings pretty.

Local Open Scope string_scope.
Local Open Scope Z_scope.

(** ** Byte strings *)

Module Str.

(** [s[n:]] for [n <= len(s)]. *)
Fixpoint drop (n : nat) (s : string) : string :=
  match n, s with
  | O, _ => s
  | S n', String _ s' => drop n' s'
  | S _, EmptyString => EmptyString
  end.

(** [s[:n]] for [n <= len(s)]. *)
Fixpoint take (n : nat) (s : string) : string :=
  match n, s with
  | O, _ => EmptyString
  | S n', String c s' => String c (take n' s')
  | S _, EmptyString => EmptyString
  end.

Fixpoint has_prefix (p s : string) : bool :=
  match p, s with
  | EmptyString, _ => true
  | String a p', String b s' => if Ascii.eqb a b then has_prefix p' s' else false
  | String _ _, EmptyString => false
  end.

(** [strings.Contains(s, sub)]. *)
Fixpoint Contains (s sub : string) : bool :=
  if has_prefix sub s then true
  else match s with
       | EmptyString => false
       | String _ s' => Contains s' sub
       end.

Definition byte (c : ascii) : Z := Z.of_N (N_of_ascii c).

Fixpoint Forallb (f : ascii -> bool) (s : string) : bool :=
  match s with
  | EmptyString => true
  | String c s' => f c && Forallb f s'
  end.

End Str.

(** ** [strconv.Atoi] (Go standard library, 64-bit [int]) *)

Module strconv.

(** The loop body [ch -= '0'; if ch > 9 { syntax error }] on a byte:
    the subtraction wraps around modulo 256. *)
Definition digit (c : ascii) : option Z :=
  let ch := (Str.byte c - 48) mod 256 in
  if 9 <? ch then None else Some ch.

Fixpoint digits (s : string) (n : Z) : option Z :=
  match s with
  | EmptyString => Some n
  | String c s' =>
      match digit c with
      | None => None
      | Some d => digits s' (n * 10 + d)
      end
  end.

Definition is_sign (c : ascii) : bool :=
  Ascii.eqb c "-"%char || Ascii.eqb c "+"%char.

(** The fast path of [Atoi], taken when [0 < len(s) < 19]. *)
Definition Atoi_fast (s : string) : option Z :=
  match s with
  | EmptyString => None
  | String c0 rest =>
      let body := if is_sign c0 then rest else s in
      match body with
      | EmptyString => None
      | _ =>
          match digits body 0 with
          | None => None
          | Some n => Some (if Ascii.eqb c0 "-"%char then - n else n)
          end
      end
  end.

(** [ParseInt(s, 10, 64)]: sign, decimal digits, then the range check
    of a signed 64-bit integer ([ErrRange] is an error as well). *)
Definition ParseInt (s : string) : option Z :=
  match s with
  | EmptyString => None
  | String c0 rest =>
      let body := if is_sign c0 then rest else s in
      match body with
      | EmptyString => None
      | _ =>
          match digits body 0 with
          | None => None
          | Some n =>
              if Ascii.eqb c0 "-"%char
              then (if n <=? 2 ^ 63 then Some (- n) else None)
              else (if n <? 2 ^ 63 then Some n else None)
          end
      end
  end.

Definition Atoi (s : string) : option Z :=
  let sLen := String.length s in
  if (0 <? sLen)%nat && (sLen <? 19)%nat then Atoi_fast s else ParseInt s.

End strconv.

(** ** [helper.ValidatePhoneNumber] *)

Definition ValidatePhoneNumber (phoneNumber : string) : bool :=
  if negb (String.length phoneNumber =? 13)%nat then false
  else if negb (String.eqb (Str.take 4 phoneNumber) "+998") then false
  else match strconv.Atoi (Str.drop 4 phoneNumber) with
       | None => false
       | Some _ => true
       end.

(** The reading of "parses as a decimal integer with an optional leading
    sign": an optional [+] or [-] followed by at least one ASCII digit. *)
Definition is_digit (c : ascii) : bool :=
  (48 <=? Str.byte c) && (Str.byte c <=? 57).

Definition signed_decimal (s : string) : Prop :=
  exists body : string,
    (s = body \/ s = String "+" body \/ s = String "-" body) /\
    body <> EmptyString /\ Str.Forallb is_digit body = true.

(** ** [jwt-go]: the validation error of the token library

    The bit flags of [jwt.ValidationError.Errors], as the library declares
    them ([1 << iota]). *)

Module jwt.

Definition ValidationErrorMalformed : Z := Z.shiftl 1 0.
Definition ValidationErrorUnverifiable : Z := Z.shiftl 1 1.
Definition ValidationErrorSignatureInvalid : Z := Z.shiftl 1 2.
Definition ValidationErrorAudience : Z := Z.shiftl 1 3.
Definition ValidationErrorExpired : Z := Z.shiftl 1 4.
Definition ValidationErrorIssuedAt : Z := Z.shiftl 1 5.
Definition ValidationErrorIssuer : Z := Z.shiftl 1 6.
Definition ValidationErrorNotValidYet : Z := Z.shiftl 1 7.
Definition ValidationErrorId : Z := Z.shiftl 1 8.
Definition ValidationErrorClaimsInvalid : Z := Z.shiftl 1 9.

(** The error returned by [jwt.Parse]: a [*ValidationError] carrying its
    [Errors] bit mask (a [uint32]), or any other error value. *)
Inductive error :=
| ValidationError (Errors : Z)
| OtherError (msg : string).

(** A claim value of [jwt.MapClaims] ([map[string]interface{}]). *)
Inductive value :=
| String_ (s : string)
| Number (n : Z)
| Bool (b : bool)
| Null.

Definition MapClaims := gmap string value.

End jwt.

(** ** [token.ParseJwtToken] *)

Module token.

Inductive error :=
| ErrValidationErrorMalformed
| ErrTokenExpiredOrNotValidYet
| ErrCouldntHandle (inner : jwt.error).

Section Parse.

(** [jwt.Parse tokenStr keyFunc] with the key function of
    [ParseJwtToken] (HMAC signing methods only, key [jwtsecret]): the
    decoded claims, or the library's error. *)
Variable jwt_Parse : string -> string -> jwt.MapClaims + jwt.error.

Definition ParseJwtToken (tokenStr jwtsecret : string)
  : option jwt.MapClaims * option error :=
  match jwt_Parse tokenStr jwtsecret with
  | inr err =>
      match err with
      | jwt.ValidationError Errors =>
          if negb (Z.land Errors jwt.ValidationErrorMalformed =? 0)
          then (None, Some ErrValidationErrorMalformed)
          else if negb (Z.land Errors
                          (Z.lor jwt.ValidationErrorExpired
                                 jwt.ValidationErrorNotValidYet) =? 0)
          then (None, Some ErrTokenExpiredOrNotValidYet)
          else (None, Some (ErrCouldntHandle err))
      | jwt.OtherError _ => (None, Some (ErrCouldntHandle err))
      end
  | inl mapClaims => (Some mapClaims, None)
  end.

End Parse.

End token.

(** ** [middleware.AuthContext] *)

Module gin.

(** The part of [*gin.Context] the middleware reads and writes: the URL
    query, the request headers (canonical names), the [Keys] store of
    [c.Set], and whether [c.Abort] was called. *)
Record Context := mkContext {
  query : gmap string string;
  header : gmap string string;
  Keys : gmap string (gmap string string);
  aborted : bool
}.

Definition Query (c : Context) (key : string) : string :=
  default "" (query c !! key).

Definition GetHeader (c : Context) (key : string) : string :=
  default "" (header c !! key).

Definition Set_ (c : Context) (key : string) (v : gmap string string) : Context :=
  mkContext (query c) (header c) (<[key := v]> (Keys c)) (aborted c).

End gin.

Module middleware.

Section AuthContext.

Variable jwt_Parse : string -> string -> jwt.MapClaims + jwt.error.
(** The context key under which the claims are stored (a constant of
    the middleware package). *)
Variable RequestIDHeader : string.
(** [c.Next()]: the rest of the handler chain. *)
Variable Next : gin.Context -> gin.Context.

(** Extract token from query or headers. *)
Definition extractToken (c : gin.Context) : string :=
  let token := gin.Query c "token" in
  if (String.length token =? 0)%nat then
    let authHeader := gin.GetHeader c "Authorization" in
    if (7 <? String.length authHeader)%nat then
      if Str.Contains authHeader "Bearer " then Str.drop 7 authHeader
      else authHeader
    else token
  else token.

(** [for key, value := range claims { if valStr, ok := value.(string) ... }] *)
Definition stringClaims (claims : jwt.MapClaims) : gmap string string :=
  omap (fun v => match v with jwt.String_ s => Some s | _ => None end) claims.

Definition AuthContext (jwtSecret : string) (c : gin.Context) : gin.Context :=
  let token := extractToken c in
  if String.eqb token "" then Next c
  else
    match token.ParseJwtToken jwt_Parse token jwtSecret with
    | (_, Some err) => Next c
    | (claims, None) =>
        let claims := default ∅ claims in
        if negb (size claims =? 0)%nat
        then Next (gin.Set_ c RequestIDHeader (stringClaims claims))
        else Next c
    end.

End AuthContext.

End middleware.

(** Flag [f] is set in the bit mask [Errors]: [Errors & f != 0]. *)
Definition has_flag (Errors f : Z) : bool := negb (Z.land Errors f =? 0).

(** ** The relational store

    The store is an external collaborator; this is the model of it the
    repositories are run against. *)

Module sql.

(** A column value.  [Float] holds a [float64] by its bit pattern,
    [Time] a timestamp as a number of time units. *)
Inductive value :=
| Null
| Int (n : Z)
| Float (bits : Z)
| Text (s : string)
| Time (t : Z)
| Bool (b : bool).

#[global] Instance value_eq_dec : EqDecision value.
Proof. solve_decision. Defined.

Abbreviation row := (gmap string value).

Definition col (r : row) (c : string) : value := default Null (r !! c).

(** The order of values used by [ORDER BY]: values of one type by their
    content, [Null] after every other value.  ([Float]s are compared by
    bit pattern; no repository orders by such a column.) *)
Definition tag (v : value) : Z :=
  match v with
  | Int _ => 0 | Float _ => 1 | Text _ => 2 | Time _ => 3 | Bool _ => 4
  | Null => 5
  end.

Definition compare (a b : value) : comparison :=
  match a, b with
  | Int x, Int y => x ?= y
  | Float x, Float y => x ?= y
  | Text x, Text y => String.compare x y
  | Time x, Time y => x ?= y
  | Bool x, Bool y => Z.b2z x ?= Z.b2z y
  | _, _ => tag a ?= tag b
  end.

Inductive direction := ASC | DESC.

(** What the store decides by itself: whether a column value equals a
    text parameter (after the store's coercion of the parameter to the
    column's type) and whether it matches an [ILIKE] pattern. *)
Record Operators := mkOperators {
  text_eq : value -> string -> bool;
  ilike : value -> string -> bool
}.

End sql.

(** ** [squirrel]: the statement builder *)

Module squirrel.

Inductive arg :=
| ArgText (s : string)
| ArgInt (n : Z).

(** [squirrel.ILike{column: pattern}] *)
Record ILike := mkILike { column : string; pattern : string }.

(** The predicates the repositories pass to [Where]:
    [squirrel.Eq{column: a}] and [squirrel.Or{ILike, ...}]. *)
Inductive Sqlizer :=
| Eq (column : string) (a : arg)
| Or (parts : list ILike).

Record SelectBuilder := mkSelect {
  Columns : list string;
  From : string;
  WhereParts : list Sqlizer;
  OrderBys : list (string * sql.direction);
  Limit : option nat;
  Offset : option nat
}.

Definition Select (columns : list string) : SelectBuilder :=
  mkSelect columns "" [] [] None None.

Definition from (b : SelectBuilder) (t : string) : SelectBuilder :=
  mkSelect (Columns b) t (WhereParts b) (OrderBys b) (Limit b) (Offset b).

Definition Where (b : SelectBuilder) (p : Sqlizer) : SelectBuilder :=
  mkSelect (Columns b) (From b) (WhereParts b ++ [p]) (OrderBys b) (Limit b) (Offset b).

Definition OrderBy (b : SelectBuilder) (o : list (string * sql.direction)) : SelectBuilder :=
  mkSelect (Columns b) (From b) (WhereParts b) (OrderBys b ++ o) (Limit b) (Offset b).

Definition limit (b : SelectBuilder) (n : nat) : SelectBuilder :=
  mkSelect (Columns b) (From b) (WhereParts b) (OrderBys b) (Some n) (Offset b).

Definition offset (b : SelectBuilder) (n : nat) : SelectBuilder :=
  mkSelect (Columns b) (From b) (WhereParts b) (OrderBys b) (Limit b) (Some n).

(** [Update(table).SetMap(clauses).Where(Equal("id", id))] *)
Record UpdateBuilder := mkUpdate {
  Table : string;
  SetMap : gmap string sql.value;
  UpdateWhere : list Sqlizer
}.

Inductive Statement :=
| StSelect (b : SelectBuilder)
| StUpdate (b : UpdateBuilder).

End squirrel.

(** ** [postgres.Postgres]: the connection pool and what it talks to *)

Module postgres.

(** [tables] is the content of the database; [faults] says, for each
    coming round trip to the store, whether it fails and with which
    error text ([[]] : no failure); [executed] records the statements
    sent so far. *)
Record Postgres := mkPostgres {
  tables : gmap string (list sql.row);
  faults : list (option string);
  executed : list squirrel.Statement
}.

Definition table (db : Postgres) (name : string) : list sql.row :=
  default [] (tables db !! name).

Definition roundTrip (db : Postgres) : option string * Postgres :=
  match faults db with
  | [] => (None, db)
  | f :: fs => (f, mkPostgres (tables db) fs (executed db))
  end.

Definition send (db : Postgres) (st : squirrel.Statement) : Postgres :=
  mkPostgres (tables db) (faults db) (executed db ++ [st]).

Definition setTable (db : Postgres) (name : string) (t : list sql.row) : Postgres :=
  mkPostgres (<[name := t]> (tables db)) (faults db) (executed db).

Section Execution.

Variable ops : sql.Operators.

Definition evalPart (r : sql.row) (p : squirrel.Sqlizer) : bool :=
  match p with
  | squirrel.Eq c (squirrel.ArgText s) => sql.text_eq ops (sql.col r c) s
  | squirrel.Eq c (squirrel.ArgInt n) => bool_decide (r !! c = Some (sql.Int n))
  | squirrel.Or parts =>
      existsb (fun l => sql.ilike ops (sql.col r (squirrel.column l))
                          (squirrel.pattern l)) parts
  end.

Definition evalWhere (ws : list squirrel.Sqlizer) (r : sql.row) : bool :=
  forallb (evalPart r) ws.

(** [ORDER BY]: rows compared column after column. *)
Fixpoint rowCompare (o : list (string * sql.direction)) (r1 r2 : sql.row)
  : comparison :=
  match o with
  | [] => Datatypes.Eq
  | (c, d) :: o' =>
      match sql.compare (sql.col r1 c) (sql.col r2 c) with
      | Datatypes.Eq => rowCompare o' r1 r2
      | cmp => match d with sql.ASC => cmp | sql.DESC => CompOpp cmp end
      end
  end.

Definition precedes (o : list (string * sql.direction)) (r1 r2 : sql.row) : bool :=
  match rowCompare o r1 r2 with Gt => false | _ => true end.

Fixpoint insertRow (o : list (string * sql.direction)) (r : sql.row)
    (l : list sql.row) : list sql.row :=
  match l with
  | [] => [r]
  | x :: l' => if precedes o r x then r :: l else x :: insertRow o r l'
  end.

(** The order in which the model of the store returns rows: one that
    respects [ORDER BY], in which rows that compare equal keep their
    table order.  The store itself leaves the order of such rows open
    (see [answers]). *)
Definition orderRows (o : list (string * sql.direction)) (l : list sql.row)
  : list sql.row :=
  foldr (insertRow o) [] l.

Definition project (columns : list string) (r : sql.row) : sql.row :=
  filter (fun kv => kv.1 ∈ columns) r.

Definition matching (q : squirrel.SelectBuilder) (t : list sql.row) : list sql.row :=
  List.filter (evalWhere (squirrel.WhereParts q)) t.

Definition window (q : squirrel.SelectBuilder) (l : list sql.row) : list sql.row :=
  let l := match squirrel.Offset q with Some n => drop n l | None => l end in
  match squirrel.Limit q with Some n => take n l | None => l end.

Definition runSelect (q : squirrel.SelectBuilder) (t : list sql.row) : list sql.row :=
  map (project (squirrel.Columns q))
      (window q (orderRows (squirrel.OrderBys q) (matching q t))).

(** What the store promises for a [SELECT]: the matching rows in some
    order that respects [ORDER BY], cut by [OFFSET] and [LIMIT].  Rows
    that compare equal may come in any order, and not in the same one
    from one statement to the next; [runSelect] is one such answer. *)
Definition answers (q : squirrel.SelectBuilder) (t rows : list sql.row) : Prop :=
  exists l : list sql.row,
    (Permutation l (matching q t) /\
     Sorted (fun a b => precedes (squirrel.OrderBys q) a b = true) l /\
     rows = map (project (squirrel.Columns q)) (window q l))%type.

(** [db.Query(ctx, sql, args...)] followed by the [rows.Next] loop. *)
Definition Query (db : Postgres) (q : squirrel.SelectBuilder)
  : (string + list sql.row) * Postgres :=
  let '(f, db) := roundTrip (send db (squirrel.StSelect q)) in
  match f with
  | Some e => (inl e, db)
  | None => (inr (runSelect q (table db (squirrel.From q))), db)
  end.

(** [db.QueryRow(ctx, sql, args...).Scan(...)]: the first row, or
    [pgx.ErrNoRows]. *)
Definition QueryRow (db : Postgres) (q : squirrel.SelectBuilder)
  : (string + sql.row) * Postgres :=
  let '(f, db) := roundTrip (send db (squirrel.StSelect q)) in
  match f with
  | Some e => (inl e, db)
  | None =>
      match runSelect q (table db (squirrel.From q)) with
      | [] => (inl "no rows in result set", db)
      | r :: _ => (inr r, db)
      end
  end.

(** [QueryRow] of a [SELECT COUNT( * )] statement, scanned into a
    [uint64]. *)
Definition QueryRowCount (db : Postgres) (q : squirrel.SelectBuilder)
  : (string + nat) * Postgres :=
  let '(f, db) := roundTrip (send db (squirrel.StSelect q)) in
  match f with
  | Some e => (inl e, db)
  | None => (inr (length (matching q (table db (squirrel.From q)))), db)
  end.

(** The rows an [UPDATE ... WHERE id = $n] touches. *)
Definition hasID (id : Z) (r : sql.row) : bool :=
  bool_decide (r !! "id" = Some (sql.Int id)).

Definition applySet (clauses : gmap string sql.value) (id : Z) (r : sql.row)
  : sql.row :=
  if hasID id r then clauses ∪ r else r.

End Execution.

End postgres.

(** ** [service]: the entity repositories *)

Module service.

Import postgres.

(** [if req.F != nil { clauses[column] = *req.F }] *)
Definition setIf {A : Type} (column : string) (inj : A -> sql.value)
    (field : option A) (clauses : gmap string sql.value) : gmap string sql.value :=
  match field with
  | Some x => <[column := inj x]> clauses
  | None => clauses
  end.

(** The common tail of every [Update] method: build the statement
    [UPDATE tableName SET clauses WHERE id = $n], run it in a
    transaction, fail when no row was affected, commit.  The deferred
    [tx.Rollback] leaves the tables as they were on every error path. *)
Definition execUpdate (db : Postgres) (tableName : string)
    (clauses : gmap string sql.value) (id : Z) (notFound : string)
  : option string * Postgres :=
  let stmt := squirrel.StUpdate
                (squirrel.mkUpdate tableName clauses
                   [squirrel.Eq "id" (squirrel.ArgInt id)]) in
  let '(f, db) := roundTrip db in
  match f with
  | Some e => (Some ("transaction start failed: " +:+ e), db)
  | None =>
      let '(f, db) := roundTrip (send db stmt) in
      match f with
      | Some e => (Some e, db)
      | None =>
          let t := table db tableName in
          if (length (List.filter (hasID id) t) =? 0)%nat
          then (Some (notFound +:+ pretty id), db)
          else
            let '(f, db) := roundTrip db in
            match f with
            | Some e => (Some ("commit failed: " +:+ e), db)
            | None => (None, setTable db tableName (map (applySet clauses id) t))
            end
      end
  end.

(** What distinguishes the [Get] and [List] methods of the seven
    repositories: the table, the selected columns, the columns searched
    and the order of a listing.  The [ToSql] calls of the methods cannot
    fail on the statements built here (a table, columns and, for an
    update, at least the [updated_at] clause are always given); that
    error return is left out.  Six repositories scan a row into pointers
    to the fields of the entity, whose types are those of the columns:
    their [Get] and [List] are the generic ones of this module.
    [notificationRepo] passes the fields themselves to [Scan]; its [Get]
    and [List] are in its own module. *)
Record Repo := mkRepo {
  tableName : string;
  getColumns : list string;
  listColumns : list string;
  searchColumns : list string;
  listOrder : list (string * sql.direction)
}.

(** [for key, value := range params { ... squirrel.Eq{key: value} }]
    (Go leaves the iteration order open; the parts are conjoined). *)
Definition filters (params : gmap string string) : list squirrel.Sqlizer :=
  map (fun kv => squirrel.Eq kv.1 (squirrel.ArgText kv.2)) (map_to_list params).

Definition searchClause (R : Repo) (search : string) : squirrel.Sqlizer :=
  squirrel.Or
    (map (fun c => squirrel.mkILike c ("%" +:+ search +:+ "%")) (searchColumns R)).

Definition getBuilder (R : Repo) (params : gmap string string)
  : squirrel.SelectBuilder :=
  foldl squirrel.Where
    (squirrel.from (squirrel.Select (getColumns R)) (tableName R))
    (filters params).

Definition listBuilders (R : Repo) (limit offset : nat)
    (filter : gmap string string) (search : string)
  : squirrel.SelectBuilder * squirrel.SelectBuilder :=
  let baseBuilder := squirrel.from (squirrel.Select (listColumns R)) (tableName R) in
  let countBuilder := squirrel.from (squirrel.Select ["COUNT(*)"]) (tableName R) in
  let '(baseBuilder, countBuilder) :=
    foldl (fun bc p => (squirrel.Where bc.1 p, squirrel.Where bc.2 p))
          (baseBuilder, countBuilder) (filters filter) in
  let '(baseBuilder, countBuilder) :=
    if negb (String.eqb search "")
    then (squirrel.Where baseBuilder (searchClause R search),
          squirrel.Where countBuilder (searchClause R search))
    else (baseBuilder, countBuilder) in
  let baseBuilder :=
    squirrel.offset
      (squirrel.limit (squirrel.OrderBy baseBuilder (listOrder R)) limit) offset in
  (baseBuilder, countBuilder).

Section Queries.

Variable ops : sql.Operators.

Definition Get (R : Repo) (db : Postgres) (params : gmap string string)
  : (string + sql.row) * Postgres :=
  if (size params =? 0)%nat
  then (inl "at least one filter parameter is required", db)
  else QueryRow ops db (getBuilder R params).

Definition List (R : Repo) (db : Postgres) (limit offset : nat)
    (filter : gmap string string) (search : string)
  : (string + (list sql.row * nat)) * Postgres :=
  let '(baseBuilder, countBuilder) := listBuilders R limit offset filter search in
  match Query ops db baseBuilder with
  | (inl e, db) => (inl ("query error: " +:+ e), db)
  | (inr items, db) =>
      match QueryRowCount ops db countBuilder with
      | (inl e, db) => (inl ("count query error: " +:+ e), db)
      | (inr totalCount, db) => (inr (items, totalCount), db)
      end
  end.

End Queries.

Module userRepo.

Definition repo : Repo :=
  mkRepo "users"
    ["id"; "first_name"; "last_name"; "role"; "email"; "phone";
     "photo_url"; "bio"; "hashed_password"; "hashed_refresh_token";
     "created_at"; "updated_at"]
    ["id"; "first_name"; "last_name"; "role"; "email"; "phone";
     "photo_url"; "bio"; "created_at"; "updated_at"]
    ["first_name"; "last_name"; "email"; "phone"]
    [("created_at", sql.DESC)].

Record UpdateUserRequest := mkRequest {
  ID : Z;
  FirstName : option string;
  LastName : option string;
  Role : option string;
  Email : option string;
  Phone : option string;
  PhotoURL : option string;
  Bio : option string;
  HashedPassword : option string;
  HashedRefreshToken : option string
}.

Definition clauses (now : Z) (req : UpdateUserRequest) : gmap string sql.value :=
  let clauses : gmap string sql.value := {["updated_at" := sql.Time now]} in
  let clauses := setIf "first_name" sql.Text (FirstName req) clauses in
  let clauses := setIf "last_name" sql.Text (LastName req) clauses in
  let clauses := setIf "role" sql.Text (Role req) clauses in
  let clauses := setIf "email" sql.Text (Email req) clauses in
  let clauses := setIf "phone" sql.Text (Phone req) clauses in
  let clauses := setIf "photo_url" sql.Text (PhotoURL req) clauses in
  let clauses := setIf "bio" sql.Text (Bio req) clauses in
  let clauses := setIf "hashed_password" sql.Text (HashedPassword req) clauses in
  setIf "hashed_refresh_token" sql.Text (HashedRefreshToken req) clauses.

(** The phone check sits between the [email] and the [phone] clause in
    the source; building the clauses has no effect, so it is done
    first here. *)
Definition Update (now : Z) (db : Postgres) (req : option UpdateUserRequest)
  : option string * Postgres :=
  match req with
  | None => (Some "user update request cannot be nil", db)
  | Some req =>
      if ID req =? 0 then (Some "user ID is required for update", db)
      else if match Phone req with
              | Some phone => negb (ValidatePhoneNumber phone)
              | None => false
              end
      then (Some "invalid phone number format", db)
      else
        let clauses := clauses now req in
        if (size clauses <=? 1)%nat then (Some "no fields to update", db)
        else execUpdate db (tableName repo) clauses (ID req) "no user found with ID "
  end.

End userRepo.

Module bonusesRepo.

Definition repo : Repo :=
  mkRepo "bonuses"
    ["id"; "superadminid"; "user_id"; "amount"; "currency"; "reason";
     "created_at"; "updated_at"]
    ["id"; "superadminid"; "user_id"; "amount"; "currency"; "reason";
     "created_at"; "updated_at"]
    ["reason"]
    [("created_at", sql.DESC)].

Record UpdateBonusRequest := mkRequest {
  ID : Z;
  SuperAdminID : option Z;
  UserID : option Z;
  Amount : option Z;
  Currency : option string;
  Reason : option string
}.

Definition clauses (now : Z) (req : UpdateBonusRequest) : gmap string sql.value :=
  let clauses : gmap string sql.value := {["updated_at" := sql.Time now]} in
  let clauses := setIf "superadminid" sql.Int (SuperAdminID req) clauses in
  let clauses := setIf "user_id" sql.Int (UserID req) clauses in
  let clauses := setIf "amount" sql.Float (Amount req) clauses in
  let clauses := setIf "currency" sql.Text (Currency req) clauses in
  setIf "reason" sql.Text (Reason req) clauses.

Definition Update (now : Z) (db : Postgres) (req : option UpdateBonusRequest)
  : option string * Postgres :=
  match req with
  | None => (Some "bonus update request cannot be nil", db)
  | Some req =>
      if ID req =? 0 then (Some "bonus ID is required for update", db)
      else
        let clauses := clauses now req in
        if (size clauses <=? 1)%nat then (Some "no fields to update", db)
        else execUpdate db (tableName repo) clauses (ID req) "no bonus found with ID "
  end.

End bonusesRepo.

Module taskRepo.

Definition repo : Repo :=
  mkRepo "tasks"
    ["id"; "assignedto"; "admin_id"; "title"; "description"; "status";
     "priority"; "duedate"; "created_at"; "updated_at"]
    ["id"; "assignedto"; "admin_id"; "title"; "description"; "status";
     "priority"; "duedate"; "created_at"; "updated_at"]
    ["title"; "description"; "status"; "priority"]
    [("created_at", sql.DESC)].

Record UpdateTaskRequest := mkRequest {
  ID : Z;
  AssignedTo : option Z;
  AdminID : option Z;
  Title : option string;
  Description : option string;
  Status : option string;
  Priority : option string;
  DueDate : option Z
}.

Definition clauses (now : Z) (req : UpdateTaskRequest) : gmap string sql.value :=
  let clauses : gmap string sql.value := {["updated_at" := sql.Time now]} in
  let clauses := setIf "assignedto" sql.Int (AssignedTo req) clauses in
  let clauses := setIf "admin_id" sql.Int (AdminID req) clauses in
  let clauses := setIf "title" sql.Text (Title req) clauses in
  let clauses := setIf "description" sql.Text (Description req) clauses in
  let clauses := setIf "status" sql.Text (Status req) clauses in
  let clauses := setIf "priority" sql.Text (Priority req) clauses in
  setIf "duedate" sql.Time (DueDate req) clauses.

Definition Update (now : Z) (db : Postgres) (req : option UpdateTaskRequest)
  : option string * Postgres :=
  match req with
  | None => (Some "task update request cannot be nil", db)
  | Some req =>
      if ID req =? 0 then (Some "task ID is required for update", db)
      else
        let clauses := clauses now req in
        if (size clauses <? 2)%nat then (Some "no fields to update", db)
        else execUpdate db (tableName repo) clauses (ID req) "no task found with ID "
  end.

End taskRepo.

Module attendanceRepo.

Definition repo : Repo :=
  mkRepo "attendances"
    ["id"; "user_id"; "date"; "intime"; "outtime"; "status";
     "created_at"; "updated_at"]
    ["id"; "user_id"; "date"; "intime"; "outtime"; "status";
     "created_at"; "updated_at"]
    ["status"]
    [("date", sql.DESC); ("intime", sql.DESC)].

(** The fields [Update] reads ([entity.UpdateAttendanceRequest]). *)
Record UpdateAttendanceRequest := mkRequest {
  ID : Z;
  UserID : option Z;
  Date : option Z;
  InTime : option Z;
  OutTime : option Z;
  Status : option string
}.

Definition clauses (now : Z) (req : UpdateAttendanceRequest)
  : gmap string sql.value :=
  let clauses : gmap string sql.value := {["updated_at" := sql.Time now]} in
  let clauses := setIf "user_id" sql.Int (UserID req) clauses in
  let clauses := setIf "date" sql.Time (Date req) clauses in
  let clauses := setIf "intime" sql.Time (InTime req) clauses in
  let clauses :=
    match OutTime req with
    | Some t => <["outtime" := sql.Time t]> clauses
    | None => <["outtime" := sql.Null]> clauses
    end in
  setIf "status" sql.Text (Status req) clauses.

(** [clauses["outtime"] == nil] *)
Definition outtimeIsNil (clauses : gmap string sql.value) : bool :=
  match clauses !! "outtime" with
  | None | Some sql.Null => true
  | Some _ => false
  end.

Definition Update (now : Z) (db : Postgres) (req : option UpdateAttendanceRequest)
  : option string * Postgres :=
  match req with
  | None => (Some "attendance update request cannot be nil", db)
  | Some req =>
      if ID req =? 0 then (Some "attendance ID is required for update", db)
      else
        let clauses := clauses now req in
        if (size clauses <? 2)%nat
           && (bool_decide (OutTime req = None) && outtimeIsNil clauses)
        then (Some "no fields to update", db)
        else execUpdate db (tableName repo) clauses (ID req)
               "no attendance record found with ID "
  end.

End attendanceRepo.

Module salaryRepo.

Definition repo : Repo :=
  mkRepo "salaries"
    ["id"; "amount"; "user_id"; "admin_id"; "updateradminid"; "pay_date";
     "currency"; "status"; "created_at"; "updated_at"]
    ["id"; "amount"; "user_id"; "admin_id"; "updateradminid"; "pay_date";
     "currency"; "status"; "created_at"; "updated_at"]
    ["currency"; "status"]
    [("created_at", sql.DESC)].

Record UpdateSalaryRequest := mkRequest {
  ID : Z;
  Amount : option Z;
  UserID : option Z;
  AdminID : option Z;
  UpdaterAdminID : option Z;
  PayDate : option Z;
  Currency : option string;
  Status : option string
}.

Definition clauses (now : Z) (req : UpdateSalaryRequest) : gmap string sql.value :=
  let clauses : gmap string sql.value := {["updated_at" := sql.Time now]} in
  let clauses := setIf "amount" sql.Float (Amount req) clauses in
  let clauses := setIf "user_id" sql.Int (UserID req) clauses in
  let clauses := setIf "admin_id" sql.Int (AdminID req) clauses in
  let clauses := setIf "updateradminid" sql.Int (UpdaterAdminID req) clauses in
  let clauses := setIf "pay_date" sql.Time (PayDate req) clauses in
  let clauses := setIf "currency" sql.Text (Currency req) clauses in
  setIf "status" sql.Text (Status req) clauses.

Definition Update (now : Z) (db : Postgres) (req : option UpdateSalaryRequest)
  : option string * Postgres :=
  match req with
  | None => (Some "salary update request cannot be nil", db)
  | Some req =>
      if ID req =? 0 then (Some "salary ID is required for update", db)
      else
        let clauses := clauses now req in
        if (size clauses <? 2)%nat then (Some "no fields to update", db)
        else execUpdate db (tableName repo) clauses (ID req) "no salary found with ID "
  end.

End salaryRepo.

Module fileRepo.

Definition repo : Repo :=
  mkRepo "files"
    ["id"; "name"; "taskid"; "created_at"; "updated_at"]
    ["id"; "name"; "taskid"; "created_at"; "updated_at"]
    ["name"]
    [("created_at", sql.DESC)].

Record UpdateFileRequest := mkRequest {
  ID : Z;
  Name : option string;
  TaskID : option Z
}.

Definition clauses (now : Z) (req : UpdateFileRequest) : gmap string sql.value :=
  let clauses : gmap string sql.value := {["updated_at" := sql.Time now]} in
  let clauses := setIf "name" sql.Text (Name req) clauses in
  setIf "taskid" sql.Int (TaskID req) clauses.

Definition Update (now : Z) (db : Postgres) (req : option UpdateFileRequest)
  : option string * Postgres :=
  match req with
  | None => (Some "file update request cannot be nil", db)
  | Some req =>
      if ID req =? 0 then (Some "file ID is required for update", db)
      else
        let clauses := clauses now req in
        if (size clauses <=? 1)%nat then (Some "no fields to update", db)
        else execUpdate db (tableName repo) clauses (ID req) "no file found with ID "
  end.

End fileRepo.

Module notificationRepo.

Definition repo : Repo :=
  mkRepo "notifications"
    ["id"; "user_id"; "message"; "type"; "read"; "created_at"; "updated_at"]
    ["id"; "user_id"; "message"; "type"; "read"; "created_at"; "updated_at"]
    ["message"; "type"]
    [("created_at", sql.DESC)].

Record UpdateNotificationRequest := mkRequest {
  ID : Z;
  Message : option string;
  Type_ : option string;
  Read : option bool
}.

Definition clauses (now : Z) (req : UpdateNotificationRequest)
  : gmap string sql.value :=
  let clauses : gmap string sql.value := {["updated_at" := sql.Time now]} in
  let clauses := setIf "message" sql.Text (Message req) clauses in
  let clauses := setIf "type" sql.Text (Type_ req) clauses in
  setIf "read" sql.Bool (Read req) clauses.

Definition Update (now : Z) (db : Postgres) (req : option UpdateNotificationRequest)
  : option string * Postgres :=
  match req with
  | None => (Some "notification update request cannot be nil", db)
  | Some req =>
      if ID req =? 0 then (Some "notification ID is required for update", db)
      else
        let clauses := clauses now req in
        if (size clauses <? 2)%nat then (Some "no fields to update", db)
        else execUpdate db (tableName repo) clauses (ID req)
               "no notification found with ID "
  end.

Section Queries.

Variable ops : sql.Operators.

(** The text of the error [Scan] returns for a destination that is not
    a pointer (pgx finds no way to scan a column into it). *)
Variable scanError : string.

(** [QueryRow(...).Scan(notification.ID, ...)]: without a row the error
    is [pgx.ErrNoRows]; a row cannot be scanned into the values passed,
    and [p.db.Error] hands the error through. *)
Definition Get (db : Postgres) (params : gmap string string)
  : (string + sql.row) * Postgres :=
  if (size params =? 0)%nat
  then (inl "at least one filter parameter is required", db)
  else
    match QueryRow ops db (getBuilder repo params) with
    | (inl e, db) => (inl e, db)
    | (inr _, db) => (inl scanError, db)
    end.

(** [rows.Scan(notification.ID, ...)] fails on the first row of the
    page, before the count statement is built. *)
Definition List (db : Postgres) (limit offset : nat)
    (filter : gmap string string) (search : string)
  : (string + (list sql.row * nat)) * Postgres :=
  let '(baseBuilder, countBuilder) := listBuilders repo limit offset filter search in
  match Query ops db baseBuilder with
  | (inl e, db) => (inl ("query error: " +:+ e), db)
  | (inr (_ :: _), db) => (inl ("scan error: " +:+ scanError), db)
  | (inr [], db) =>
      match QueryRowCount ops db countBuilder with
      | (inl e, db) => (inl ("count query error: " +:+ e), db)
      | (inr totalCount, db) => (inr ([], totalCount), db)
      end
  end.

End Queries.

End notificationRepo.

End service.

(** ** [v1]: the user update handler *)

Module v1.

Import postgres service.

Record Status := mkStatus {
  Code : Z;
  StatusText : string;
  Description : string;
  StatusCustomMessage : option string
}.

Definition OK : Status := mkStatus 200 "OK" "Request successful" None.
Definition BadRequest : Status := mkStatus 400 "Bad Request" "Invalid request data" None.
Definition NotFound : Status := mkStatus 404 "Not Found" "Resource not found" None.
Definition InternalServerError : Status :=
  mkStatus 500 "Internal Server Error" "An unexpected error occurred" None.

(** What [c.JSON(code, Response{...})] writes. *)
Record Response := mkResponse {
  HTTPCode : Z;
  RespStatus : string;
  RespDescription : string;
  Data : option string;
  CustomMessage : option string
}.

Definition handleResponse (status : Status) (customMessage data : option string)
  : Response :=
  if 400 <=? Code status
  then mkResponse (Code status) (StatusText status) (Description status)
         None customMessage
  else mkResponse (Code status) (StatusText status) (Description status)
         data (StatusCustomMessage status).

Record UpdateUserPayload := mkPayload {
  FirstName : option string;
  LastName : option string;
  Role : option string;
  Email : option string;
  Phone : option string;
  PhotoURL : option string;
  Bio : option string;
  Password : option string
}.

(** A handler either writes a response or panics. *)
Inductive outcome :=
| Responded (r : Response) (db : Postgres)
| Panicked (db : Postgres).

Section Handler.

(** [strings.TrimSpace] *)
Variable TrimSpace : string -> string.
(** [entity.GetUserRole], from a role name to a [UserRole] (its source
    is not part of the files at hand). *)
Variable GetUserRole : string -> string.
(** [bcrypt.GenerateFromPassword(password, bcrypt.DefaultCost)]: the
    hash, or an error text. *)
Variable GenerateFromPassword : string -> string + string.

(** The repository request built from the payload, once the role has
    been dereferenced and the password hashed. *)
Definition buildRequest (id : Z) (payload : UpdateUserPayload) (role : string)
    (hashed : option string) : userRepo.UpdateUserRequest :=
  userRepo.mkRequest id (FirstName payload) (LastName payload) (Some role)
    (Email payload) (Phone payload) (PhotoURL payload) (Bio payload) hashed None.

(** [idParam] is [c.Param("id")]; [body] is the result of
    [c.ShouldBindJSON(&payload)]: the bound payload or the error text. *)
Definition updateUser (now : Z) (db : Postgres) (idParam : string)
    (body : UpdateUserPayload + string) : outcome :=
  let idStr := TrimSpace idParam in
  match strconv.ParseInt idStr with
  | None => Responded (handleResponse BadRequest (Some "Invalid user ID format") None) db
  | Some id =>
      if id <=? 0
      then Responded (handleResponse BadRequest (Some "Invalid user ID format") None) db
      else
        match body with
        | inr err =>
            Responded (handleResponse BadRequest (Some "Invalid request body") (Some err)) db
        | inl payload =>
            match Role payload with
            | None => Panicked db
            | Some r =>
                let role := GetUserRole r in
                let hashing :=
                  match Password payload with
                  | Some password =>
                      if negb (String.eqb password "")
                      then match GenerateFromPassword password with
                           | inl h => inl (Some h)
                           | inr e => inr e
                           end
                      else inl None
                  | None => inl None
                  end in
                match hashing with
                | inr e =>
                    Responded (handleResponse InternalServerError
                                 (Some "Could not process password update") (Some e)) db
                | inl hashed =>
                    let updateReq := buildRequest id payload role hashed in
                    match userRepo.Update now db (Some updateReq) with
                    | (Some e, db) =>
                        if Str.Contains e "no user found with ID"
                        then Responded
                               (handleResponse NotFound
                                  (Some ("User with ID " +:+ pretty id +:+ " not found"))
                                  None) db
                        else if Str.Contains e "no fields to update"
                        then Responded
                               (handleResponse BadRequest
                                  (Some "No fields provided to update") (Some e)) db
                        else Responded
                               (handleResponse InternalServerError
                                  (Some "Error while updating user") (Some e)) db
                    | (None, db) =>
                        Responded
                          (handleResponse OK (Some "User updated successfully") None) db
                    end
                end
            end
        end
  end.

End Handler.

End v1.

(** ** [helper]: pagination and passwords *)

Module helper.

(** [c.DefaultQuery(key, defaultValue)] *)
Definition DefaultQuery (c : gin.Context) (key defaultValue : string) : string :=
  default defaultValue (gin.query c !! key).

(** [strconv.Itoa] *)
Definition Itoa (n : Z) : string := pretty n.

(** [GetPaginationParams]: the page and the limit of a request. *)
Definition GetPaginationParams (c : gin.Context) : Z * Z :=
  let defaultLimit := 10 in
  let defaultPage := 1 in
  let limitParam := DefaultQuery c "limit" (Itoa defaultLimit) in
  let limit :=
    match strconv.Atoi limitParam with
    | Some parsedLimit => if 0 <? parsedLimit then parsedLimit else defaultLimit
    | None => defaultLimit
    end in
  let pageParam := DefaultQuery c "page" (Itoa defaultPage) in
  let page :=
    match strconv.Atoi pageParam with
    | Some parsedPage => if 0 <? parsedPage then parsedPage else defaultPage
    | None => defaultPage
    end in
  (page, limit).

(** A Go [int] (64 bits, two's complement) after an arithmetic
    operation. *)
Definition wrap (n : Z) : Z := (n + 2 ^ 63) mod 2 ^ 64 - 2 ^ 63.

(** [offset := (page - 1) * limit; if offset < 0 { offset = 0 }] of the
    list handlers. *)
Definition listOffset (page limit : Z) : Z :=
  let offset := wrap (wrap (page - 1) * limit) in
  if offset <? 0 then 0 else offset.

Section Password.

(** The code points [for _, char := range password] yields (UTF-8
    decoding), and [unicode.IsLower], [unicode.IsUpper]. *)
Variable runes : string -> list Z.
Variables IsLower IsUpper : Z -> bool.

Definition ValidatePassword (password : string) : bool :=
  if (String.length password <? 6)%nat then false
  else
    let flags :=
      foldl (fun (hs : bool * bool) (char : Z) =>
               (if IsLower char then true else hs.1,
                if IsUpper char then true else hs.2))
            (false, false) (runes password) in
    flags.1 && flags.2.

End Password.

End helper.

(** ** The repository contract, entity by entity

    The seven repositories implement one interface each
    ([UserRepoInterface], ...), all of the same shape.  [entity] names
    them, and the definitions below dispatch on it. *)

Module contract.

Import postgres service.

Inductive entity :=
| User | Bonus | Task | Attendance | Salary | File | Notification.

Definition repoOf (e : entity) : Repo :=
  match e with
  | User => userRepo.repo
  | Bonus => bonusesRepo.repo
  | Task => taskRepo.repo
  | Attendance => attendanceRepo.repo
  | Salary => salaryRepo.repo
  | File => fileRepo.repo
  | Notification => notificationRepo.repo
  end.

Definition UpdateRequest (e : entity) : Type :=
  match e with
  | User => userRepo.UpdateUserRequest
  | Bonus => bonusesRepo.UpdateBonusRequest
  | Task => taskRepo.UpdateTaskRequest
  | Attendance => attendanceRepo.UpdateAttendanceRequest
  | Salary => salaryRepo.UpdateSalaryRequest
  | File => fileRepo.UpdateFileRequest
  | Notification => notificationRepo.UpdateNotificationRequest
  end.

Definition Update (e : entity)
  : Z -> Postgres -> option (UpdateRequest e) -> option string * Postgres :=
  match e with
  | User => userRepo.Update
  | Bonus => bonusesRepo.Update
  | Task => taskRepo.Update
  | Attendance => attendanceRepo.Update
  | Salary => salaryRepo.Update
  | File => fileRepo.Update
  | Notification => notificationRepo.Update
  end.

Definition requestID (e : entity) : UpdateRequest e -> Z :=
  match e with
  | User => userRepo.ID
  | Bonus => bonusesRepo.ID
  | Task => taskRepo.ID
  | Attendance => attendanceRepo.ID
  | Salary => salaryRepo.ID
  | File => fileRepo.ID
  | Notification => notificationRepo.ID
  end.

(** The optional fields of an update request, each with the column it
    stands for: [(c, Some v)] when the request supplies [v] for column
    [c], [(c, None)] when the field is null. *)
Definition supplied (e : entity) : UpdateRequest e -> list (string * option sql.value) :=
  match e with
  | User => fun req =>
      [("first_name", sql.Text <$> userRepo.FirstName req);
       ("last_name", sql.Text <$> userRepo.LastName req);
       ("role", sql.Text <$> userRepo.Role req);
       ("email", sql.Text <$> userRepo.Email req);
       ("phone", sql.Text <$> userRepo.Phone req);
       ("photo_url", sql.Text <$> userRepo.PhotoURL req);
       ("bio", sql.Text <$> userRepo.Bio req);
       ("hashed_password", sql.Text <$> userRepo.HashedPassword req);
       ("hashed_refresh_token", sql.Text <$> userRepo.HashedRefreshToken req)]
  | Bonus => fun req =>
      [("superadminid", sql.Int <$> bonusesRepo.SuperAdminID req);
       ("user_id", sql.Int <$> bonusesRepo.UserID req);
       ("amount", sql.Float <$> bonusesRepo.Amount req);
       ("currency", sql.Text <$> bonusesRepo.Currency req);
       ("reason", sql.Text <$> bonusesRepo.Reason req)]
  | Task => fun req =>
      [("assignedto", sql.Int <$> taskRepo.AssignedTo req);
       ("admin_id", sql.Int <$> taskRepo.AdminID req);
       ("title", sql.Text <$> taskRepo.Title req);
       ("description", sql.Text <$> taskRepo.Description req);
       ("status", sql.Text <$> taskRepo.Status req);
       ("priority", sql.Text <$> taskRepo.Priority req);
       ("duedate", sql.Time <$> taskRepo.DueDate req)]
  | Attendance => fun req =>
      [("user_id", sql.Int <$> attendanceRepo.UserID req);
       ("date", sql.Time <$> attendanceRepo.Date req);
       ("intime", sql.Time <$> attendanceRepo.InTime req);
       ("outtime", sql.Time <$> attendanceRepo.OutTime req);
       ("status", sql.Text <$> attendanceRepo.Status req)]
  | Salary => fun req =>
      [("amount", sql.Float <$> salaryRepo.Amount req);
       ("user_id", sql.Int <$> salaryRepo.UserID req);
       ("admin_id", sql.Int <$> salaryRepo.AdminID req);
       ("updateradminid", sql.Int <$> salaryRepo.UpdaterAdminID req);
       ("pay_date", sql.Time <$> salaryRepo.PayDate req);
       ("currency", sql.Text <$> salaryRepo.Currency req);
       ("status", sql.Text <$> salaryRepo.Status req)]
  | File => fun req =>
      [("name", sql.Text <$> fileRepo.Name req);
       ("taskid", sql.Int <$> fileRepo.TaskID req)]
  | Notification => fun req =>
      [("message", sql.Text <$> notificationRepo.Message req);
       ("type", sql.Text <$> notificationRepo.Type_ req);
       ("read", sql.Bool <$> notificationRepo.Read req)]
  end.

(** The columns an update writes besides [updated_at]: the supplied
    ones, and for Attendance also [outtime], which gets [NULL] when the
    request leaves it out. *)
Definition written (e : entity) : UpdateRequest e -> list (string * option sql.value) :=
  match e with
  | Attendance => fun req =>
      [("user_id", sql.Int <$> attendanceRepo.UserID req);
       ("date", sql.Time <$> attendanceRepo.Date req);
       ("intime", sql.Time <$> attendanceRepo.InTime req);
       ("outtime", Some (match attendanceRepo.OutTime req with
                         | Some t => sql.Time t
                         | None => sql.Null
                         end));
       ("status", sql.Text <$> attendanceRepo.Status req)]
  | e => supplied e
  end.

Definition clausesOf (e : entity) : Z -> UpdateRequest e -> gmap string sql.value :=
  match e with
  | User => userRepo.clauses
  | Bonus => bonusesRepo.clauses
  | Task => taskRepo.clauses
  | Attendance => attendanceRepo.clauses
  | Salary => salaryRepo.clauses
  | File => fileRepo.clauses
  | Notification => notificationRepo.clauses
  end.

(** One field of a request, written to a clause map; [fromFields] is
    the clause map that writing [updated_at] and a list of fields
    gives. *)
Definition writeField (m : gmap string sql.value) (f : string * option sql.value)
  : gmap string sql.value :=
  match f.2 with
  | Some v => <[f.1 := v]> m
  | None => m
  end.

Definition fromFields (now : Z) (fields : list (string * option sql.value))
  : gmap string sql.value :=
  foldl writeField {["updated_at" := sql.Time now]} fields.

(** A request the repository does not reject before reaching the store:
    for User, a supplied phone number must pass [ValidatePhoneNumber]. *)
Definition admissible (e : entity) : UpdateRequest e -> Prop :=
  match e with
  | User => fun req =>
      forall phone, userRepo.Phone req = Some phone -> ValidatePhoneNumber phone = true
  | _ => fun _ => True
  end.

(** Row [r'] is row [r] after an update at time [now] that wrote
    [fields]: [updated_at] is [now], a written column has the written
    value, every other column is as before. *)
Definition framed (now : Z) (fields : list (string * option sql.value))
    (r r' : sql.row) : Prop :=
  r' !! "updated_at" = Some (sql.Time now) /\
  (forall c v, (c, Some v) ∈ fields -> r' !! c = Some v) /\
  (forall c, c <> "updated_at" -> (forall v, (c, Some v) ∉ fields) ->
             r' !! c = r !! c).

(** The table after an update of the rows with identifier [id]. *)
Definition updatedTable (now : Z) (fields : list (string * option sql.value))
    (id : Z) (t t' : list sql.row) : Prop :=
  Forall2 (fun r r' => if hasID id r then framed now fields r r' else r' = r) t t'.

(** [a] may stand before [b] in a listing by column [c], descending. *)
Definition notBelow (c : string) (a b : sql.row) : Prop :=
  sql.compare (sql.col a c) (sql.col b c) <> Lt.

Definition above (c : string) (a b : sql.row) : Prop :=
  sql.compare (sql.col a c) (sql.col b c) = Gt.

Definition level (c : string) (a b : sql.row) : Prop :=
  sql.compare (sql.col a c) (sql.col b c) = Datatypes.Eq.

(** The order of a listing, as the repositories ask for it. *)
Definition listedBefore (e : entity) (a b : sql.row) : Prop :=
  match e with
  | Attendance => above "date" a b \/ (level "date" a b /\ notBelow "intime" a b)
  | _ => notBelow "created_at" a b
  end.

(** The predicates of a listing: the filters, then the search. *)
Definition listWhere (R : Repo) (filter : gmap string string) (search : string)
  : list squirrel.Sqlizer :=
  filters filter ++ (if negb (String.eqb search "") then [searchClause R search] else []).

(** A list of rows in which each row may stand before the next one
    under the [ORDER BY] terms [o]. *)
Definition ordered (o : list (string * sql.direction)) : list sql.row -> Prop :=
  Sorted (fun a b => postgres.precedes o a b = true).

Section Pages.

Variable ops : sql.Operators.

(** [List], entity by entity. *)
Definition ListOf (scanError : string) (e : entity) (db : Postgres)
    (limit offset : nat) (filter : gmap string string) (search : string)
  : (string + (list sql.row * nat)) * Postgres :=
  match e with
  | Notification => notificationRepo.List ops scanError db limit offset filter search
  | _ => service.List ops (repoOf e) db limit offset filter search
  end.

(** The call of the list handlers for the [page] and [limit] that
    [GetPaginationParams] gave them:
    [List(c, uint64(limit), uint64(offset), filter, search)]. *)
Definition listPage (scanError : string) (e : entity) (db : Postgres) (limit : Z)
    (filter : gmap string string) (search : string) (page : Z)
  : (string + (list sql.row * nat)) * Postgres :=
  ListOf scanError e db (Z.to_nat limit) (Z.to_nat (helper.listOffset page limit))
    filter search.

(** The page statement that call sends. *)
Definition pageStatement (R : Repo) (limit : Z)
    (filter : gmap string string) (search : string) (page : Z)
  : squirrel.SelectBuilder :=
  fst (listBuilders R (Z.to_nat limit) (Z.to_nat (helper.listOffset page limit))
         filter search).

(** The items of page [page] (from 1) of a listing of a repository that
    scans into pointers, as the list handlers ask for them. *)
Definition pageItems (R : Repo) (db : Postgres) (limit : Z)
    (filter : gmap string string) (search : string) (page : Z)
  : list sql.row :=
  match fst (service.List ops R db (Z.to_nat limit)
               (Z.to_nat (helper.listOffset page limit)) filter search) with
  | inr (items, _) => items
  | inl _ => []
  end.

End Pages.

End contract.

(** ** Sample data *)

Module sample.

Import postgres service.

Definition ops : sql.Operators :=
  sql.mkOperators
    (fun v s => match v with
                | sql.Text t => String.eqb t s
                | _ => false
                end)
    (fun v p => match v with
                | sql.Text t => Str.Contains ("%" +:+ t +:+ "%") p
                | _ => false
                end).

Definition attendance1 : sql.row :=
  {[ "id" := sql.Int 1; "user_id" := sql.Int 7; "date" := sql.Time 20;
     "intime" := sql.Time 21; "outtime" := sql.Time 29;
     "status" := sql.Text "present";
     "created_at" := sql.Time 25; "updated_at" := sql.Time 25 ]}.

Definition attendance2 : sql.row :=
  {[ "id" := sql.Int 2; "user_id" := sql.Int 7; "date" := sql.Time 10;
     "intime" := sql.Time 11; "outtime" := sql.Null;
     "status" := sql.Text "late";
     "created_at" := sql.Time 30; "updated_at" := sql.Time 30 ]}.

Definition user1 : sql.row :=
  {[ "id" := sql.Int 1; "first_name" := sql.Text "A"; "last_name" := sql.Text "B";
     "role" := sql.Text "user"; "email" := sql.Text "a@b.com";
     "phone" := sql.Text "+998901234567"; "photo_url" := sql.Null;
     "bio" := sql.Null; "hashed_password" := sql.Text "hash(Secret1)";
     "hashed_refresh_token" := sql.Null;
     "created_at" := sql.Time 3; "updated_at" := sql.Time 3 ]}.

Definition db : Postgres :=
  mkPostgres
    {[ "attendances" := [attendance1; attendance2]; "users" := [user1] ]} [] [].

(** Two tasks created at the same time. *)
Definition task1 : sql.row :=
  {[ "id" := sql.Int 1; "assignedto" := sql.Null; "admin_id" := sql.Int 7;
     "title" := sql.Text "first"; "description" := sql.Null;
     "status" := sql.Text "open"; "priority" := sql.Text "low";
     "duedate" := sql.Null;
     "created_at" := sql.Time 5; "updated_at" := sql.Time 5 ]}.

Definition task2 : sql.row :=
  {[ "id" := sql.Int 2; "assignedto" := sql.Null; "admin_id" := sql.Int 7;
     "title" := sql.Text "second"; "description" := sql.Null;
     "status" := sql.Text "open"; "priority" := sql.Text "low";
     "duedate" := sql.Null;
     "created_at" := sql.Time 5; "updated_at" := sql.Time 6 ]}.

Definition tied : Postgres :=
  mkPostgres {[ "tasks" := [task1; task2] ]} [] [].

(** [{"status": "late"}] for attendance 1. *)
Definition markLate : attendanceRepo.UpdateAttendanceRequest :=
  attendanceRepo.mkRequest 1 None None None None (Some "late").

(** An attendance update with no field at all. *)
Definition emptyAttendance : attendanceRepo.UpdateAttendanceRequest :=
  attendanceRepo.mkRequest 1 None None None None None.

(** A new password hash for user 1. *)
Definition newHash : userRepo.UpdateUserRequest :=
  userRepo.mkRequest 1 None None None None None None None
    (Some "hash(NewSecret1)") None.

(** [{"password": "NewSecret1"}] *)
Definition passwordOnly : v1.UpdateUserPayload :=
  v1.mkPayload None None None None None None None (Some "NewSecret1").

(** [{"role": "admin"}] *)
Definition roleOnly : v1.UpdateUserPayload :=
  v1.mkPayload None None (Some "admin") None None None None None.

Definition TrimSpace (s : string) : string := s.
Definition GetUserRole (s : string) : string := s.
Definition GenerateFromPassword (s : string) : string + string :=
  inl ("hash(" +:+ s +:+ ")").

End sample.

(** ** [service]: deletion, and the messages of the repositories *)

Module repository.

Import postgres service contract.

(** [fmt.Errorf("no ... found with ID %d", id)], up to the number. *)
Definition notFound (e : entity) : string :=
  match e with
  | User => "no user found with ID "
  | Bonus => "no bonus found with ID "
  | Task => "no task found with ID "
  | Attendance => "no attendance record found with ID "
  | Salary => "no salary found with ID "
  | File => "no file found with ID "
  | Notification => "no notification found with ID "
  end.

Definition idRequiredForDeletion (e : entity) : string :=
  match e with
  | User => "user ID is required for deletion"
  | Bonus => "bonus ID is required for deletion"
  | Task => "task ID is required for deletion"
  | Attendance => "attendance ID is required for deletion"
  | Salary => "salary ID is required for deletion"
  | File => "file ID is required for deletion"
  | Notification => "notification ID is required for deletion"
  end.

Definition idRequiredForUpdate (e : entity) : string :=
  match e with
  | User => "user ID is required for update"
  | Bonus => "bonus ID is required for update"
  | Task => "task ID is required for update"
  | Attendance => "attendance ID is required for update"
  | Salary => "salary ID is required for update"
  | File => "file ID is required for update"
  | Notification => "notification ID is required for update"
  end.

Definition requestNil (e : entity) : string :=
  match e with
  | User => "user update request cannot be nil"
  | Bonus => "bonus update request cannot be nil"
  | Task => "task update request cannot be nil"
  | Attendance => "attendance update request cannot be nil"
  | Salary => "salary update request cannot be nil"
  | File => "file update request cannot be nil"
  | Notification => "notification update request cannot be nil"
  end.

(** The rows a [DELETE ... WHERE id = $n] leaves. *)
Definition remaining (id : Z) (t : list sql.row) : list sql.row :=
  List.filter (fun r => negb (hasID id r)) t.

(** The [Delete] method of a repository: the check of the identifier,
    one [DELETE FROM tableName WHERE id = $1] sent outside any
    transaction, and the check of the affected rows.  (The [executed]
    log keeps [SELECT] and [UPDATE] statements; a [DELETE] shows by the
    round trip it takes and by the rows it removes.) *)
Definition Delete (e : entity) (db : Postgres) (id : Z) : option string * Postgres :=
  if id =? 0 then (Some (idRequiredForDeletion e), db)
  else
    let '(f, db) := roundTrip db in
    match f with
    | Some err => (Some err, db)
    | None =>
        let t := table db (tableName (repoOf e)) in
        if (length (List.filter (hasID id) t) =? 0)%nat
        then (Some (notFound e +:+ pretty id), db)
        else (None, setTable db (tableName (repoOf e)) (remaining id t))
    end.

End repository.

(** ** [token.GenerateToken] *)

Module tokens.

(** [for key, value := range fields { accessClaims[key] = value }] *)
Definition overwrite (accessClaims fields : jwt.MapClaims) : jwt.MapClaims :=
  map_fold (fun key value acc => <[key := value]> acc) accessClaims fields.

(** The claims of the access token: [expiry] and [issued] are the two
    readings of the clock, in Unix seconds. *)
Definition accessClaims (sub token_type : string) (expiry issued : Z)
    (optionalFields : list jwt.MapClaims) : jwt.MapClaims :=
  foldl overwrite
    (<["sub" := jwt.String_ sub]>
       (<["type" := jwt.String_ token_type]>
          (<["exp" := jwt.Number expiry]>
             {["iat" := jwt.Number issued]})))
    optionalFields.

Definition refreshClaims (sub : string) (expiry issued : Z) : jwt.MapClaims :=
  <["iat" := jwt.Number issued]>
    (<["exp" := jwt.Number expiry]> {["sub" := jwt.String_ sub]}).

Section Generate.

(** [GenerateJwtToken(cfg.Token.SigningKey, claims)]: the signed token
    or the error text. *)
Variable GenerateJwtToken : jwt.MapClaims -> string + string.

(** [accessExpiry], [accessIssued], [refreshIssued], [refreshExpiry]:
    the clock readings, in the order the function takes them. *)
Definition GenerateToken (sub token_type : string)
    (accessExpiry accessIssued refreshIssued refreshExpiry : Z)
    (optionalFields : list jwt.MapClaims) : string * string * option string :=
  match GenerateJwtToken
          (accessClaims sub token_type accessExpiry accessIssued optionalFields) with
  | inr err => ("", "", Some err)
  | inl access_token =>
      match GenerateJwtToken (refreshClaims sub refreshExpiry refreshIssued) with
      | inr err => ("", "", Some err)
      | inl refresh_token => (access_token, refresh_token, None)
      end
  end.

End Generate.

End tokens.

(** ** [v1]: the user delete handler *)

Module routes.

Import postgres.

Section Handlers.

Variable TrimSpace : string -> string.

Definition deleteUser (db : Postgres) (idParam : string) : v1.Response * Postgres :=
  let idStr := TrimSpace idParam in
  match strconv.ParseInt idStr with
  | None => (v1.handleResponse v1.BadRequest (Some "Invalid user ID format") None, db)
  | Some id =>
      if id <=? 0
      then (v1.handleResponse v1.BadRequest (Some "Invalid user ID format") None, db)
      else
        match repository.Delete contract.User db id with
        | (Some e, db) =>
            if Str.Contains e "no user found with ID"
            then (v1.handleResponse v1.NotFound
                    (Some ("User with ID " +:+ pretty id +:+ " not found")) None, db)
            else (v1.handleResponse v1.InternalServerError
                    (Some "Error while deleting user") (Some e), db)
        | (None, db) =>
            (v1.handleResponse v1.OK (Some "User deleted successfully") None, db)
        end
  end.

End Handlers.

End routes.

(** ** [v1]: the task update handler *)

Module taskRoutes.

Import postgres service.

(** [req.ID = id]: the identifier of the path replaces the one the body
    may carry. *)
Definition setID (req : taskRepo.UpdateTaskRequest) (id : Z) : taskRepo.UpdateTaskRequest :=
  taskRepo.mkRequest id (taskRepo.AssignedTo req) (taskRepo.AdminID req)
    (taskRepo.Title req) (taskRepo.Description req) (taskRepo.Status req)
    (taskRepo.Priority req) (taskRepo.DueDate req).

Section Handlers.

Variable TrimSpace : string -> string.

(** [body] is the result of [c.ShouldBindJSON(&req)]. *)
Definition updateTask (now : Z) (db : Postgres) (idParam : string)
    (body : taskRepo.UpdateTaskRequest + string) : v1.Response * Postgres :=
  let idStr := TrimSpace idParam in
  match strconv.ParseInt idStr with
  | None => (v1.handleResponse v1.BadRequest (Some "Invalid task ID format") None, db)
  | Some id =>
      if id <=? 0
      then (v1.handleResponse v1.BadRequest (Some "Invalid task ID format") None, db)
      else
        match body with
        | inr err =>
            (v1.handleResponse v1.BadRequest (Some "Invalid request body") (Some err), db)
        | inl req =>
            let req := setID req id in
            match taskRepo.Update now db (Some req) with
            | (Some e, db) =>
                if Str.Contains e "no task found with ID"
                then (v1.handleResponse v1.NotFound
                        (Some ("Task with ID " +:+ pretty id +:+ " not found")) None, db)
                else if Str.Contains e "no fields to update"
                then (v1.handleResponse v1.BadRequest
                        (Some "No fields provided to update") (Some e), db)
                else (v1.handleResponse v1.InternalServerError
                        (Some "Error while updating task") (Some e), db)
            | (None, db) =>
                (v1.handleResponse v1.OK (Some "Task updated successfully") None, db)
            end
        end
  end.

End Handlers.

End taskRoutes.

(** * Theorems *)

(** ** Phone numbers *)

Lemma byte_range (c : ascii) : 0 <= Str.byte c < 256.
Proof.
  unfold Str.byte. pose proof (N_ascii_bounded c). lia.
Qed.

Lemma digit_is_digit (c : ascii) :
  is_Some (strconv.digit c) <-> is_digit c = true.
Proof.
  unfold strconv.digit, is_digit. pose proof (byte_range c) as Hb.
  destruct (Z.ltb_spec 9 ((Str.byte c - 48) mod 256)) as [Hlt | Hge]; split.
  - intros [d Hd]; discriminate.
  - intros Hd. apply andb_true_iff in Hd as [H1 H2].
    apply Z.leb_le in H1, H2.
    rewrite Z.mod_small in Hlt by lia. lia.
  - intros _. apply andb_true_iff.
    destruct (Z.le_gt_cases 48 (Str.byte c)) as [Hle | Hgt].
    + rewrite Z.mod_small in Hge by lia. split; apply Z.leb_le; lia.
    + replace ((Str.byte c - 48) mod 256) with (Str.byte c - 48 + 256) in Hge.
      * lia.
      * symmetry. rewrite <- (Z.mod_add _ 1 256) by lia.
        rewrite Z.mod_small; lia.
  - intros _. eauto.
Qed.

Lemma digits_all_digits (s : string) (n : Z) :
  is_Some (strconv.digits s n) <-> Str.Forallb is_digit s = true.
Proof.
  revert n. induction s as [| c s IH]; intros n; simpl.
  - split; eauto.
  - pose proof (digit_is_digit c) as Hc.
    destruct (strconv.digit c) as [d |] eqn:Hd.
    + rewrite IH. destruct Hc as [Hc _]. rewrite Hc by eauto. reflexivity.
    + split.
      * intros [x Hx]; discriminate.
      * intros H. apply andb_true_iff in H as [H _].
        apply Hc in H. destruct H; discriminate.
Qed.

Lemma sign_not_digit (c : ascii) : strconv.is_sign c = true -> is_digit c = false.
Proof.
  unfold strconv.is_sign. intros H. apply orb_true_iff in H as [H | H];
    apply Ascii.eqb_eq in H; subst c; reflexivity.
Qed.

Lemma is_sign_cases (c : ascii) :
  strconv.is_sign c = true <-> c = "+"%char \/ c = "-"%char.
Proof.
  unfold strconv.is_sign. rewrite orb_true_iff, !Ascii.eqb_eq. tauto.
Qed.

Lemma Atoi_fast_signed_decimal (s : string) :
  is_Some (strconv.Atoi_fast s) <-> signed_decimal s.
Proof.
  unfold strconv.Atoi_fast, signed_decimal. destruct s as [| c0 rest].
  - split.
    + intros [x Hx]; discriminate.
    + intros (body & [-> | [H | H]] & Hne & _); congruence.
  - destruct (strconv.is_sign c0) eqn:Hs.
    + pose proof (sign_not_digit _ Hs) as Hnd.
      apply is_sign_cases in Hs.
      destruct rest as [| c1 rest'].
      * split.
        -- intros [x Hx]; discriminate.
        -- intros (body & [<- | [H | H]] & Hne & Hall).
           ++ simpl in Hall. rewrite Hnd in Hall. discriminate.
           ++ injection H as _ <-. congruence.
           ++ injection H as _ <-. congruence.
      * pose proof (digits_all_digits (String c1 rest') 0) as Hd.
        destruct (strconv.digits (String c1 rest') 0) as [n |] eqn:Hn.
        -- split; [intros _ | eauto].
           exists (String c1 rest').
           split; [destruct Hs as [-> | ->]; auto |].
           split; [discriminate | apply Hd; eauto].
        -- split.
           ++ intros [x Hx]; discriminate.
           ++ intros (body & [<- | [H | H]] & Hne & Hall).
              ** simpl in Hall. rewrite Hnd in Hall. discriminate.
              ** injection H as _ <-. apply Hd in Hall. destruct Hall; discriminate.
              ** injection H as _ <-. apply Hd in Hall. destruct Hall; discriminate.
    + pose proof (digits_all_digits (String c0 rest) 0) as Hd.
      assert (Hns : c0 <> "+"%char /\ c0 <> "-"%char).
      { split; intros ->; discriminate. }
      destruct (strconv.digits (String c0 rest) 0) as [n |] eqn:Hn.
      * split; [intros _ | eauto].
        exists (String c0 rest). split; [auto |].
        split; [discriminate | apply Hd; eauto].
      * split.
        -- intros [x Hx]; discriminate.
        -- intros (body & [<- | [H | H]] & Hne & Hall).
           ++ apply Hd in Hall. destruct Hall; discriminate.
           ++ injection H as -> _. tauto.
           ++ injection H as -> _. tauto.
Qed.

Lemma drop_length (n : nat) (s : string) :
  String.length (Str.drop n s) = (String.length s - n)%nat.
Proof.
  revert s. induction n as [| n IH]; intros [| c s]; simpl; auto.
Qed.

(** C10. [ValidatePhoneNumber] accepts exactly the 13-byte strings that
    start with ["+998"] and whose last nine bytes are an optional sign
    followed by decimal digits; ["+998-12345678"] is accepted although
    its last nine bytes are not all digits. *)
Theorem ValidatePhoneNumber_accepts_exactly :
  (forall phoneNumber : string,
      ValidatePhoneNumber phoneNumber = true <->
      String.length phoneNumber = 13%nat /\
      Str.take 4 phoneNumber = "+998" /\
      signed_decimal (Str.drop 4 phoneNumber)) /\
  ValidatePhoneNumber "+998-12345678" = true /\
  Str.Forallb is_digit (Str.drop 4 "+998-12345678") = false.
Proof.
  split; [| split; reflexivity].
  intros p. unfold ValidatePhoneNumber.
  destruct (Nat.eqb_spec (String.length p) 13) as [Hlen | Hlen]; cbn [negb].
  - destruct (String.eqb_spec (Str.take 4 p) "+998") as [Hpre | Hpre]; cbn [negb].
    + assert (Hfast : strconv.Atoi (Str.drop 4 p) = strconv.Atoi_fast (Str.drop 4 p)).
      { unfold strconv.Atoi. rewrite drop_length, Hlen. reflexivity. }
      rewrite Hfast. pose proof (Atoi_fast_signed_decimal (Str.drop 4 p)) as Hsd.
      destruct (strconv.Atoi_fast (Str.drop 4 p)) as [n |].
      * split; [intros _ | auto].
        repeat split; auto. apply Hsd. eauto.
      * split; [discriminate |].
        intros (_ & _ & H). apply Hsd in H. destruct H; discriminate.
    + split; [discriminate | tauto].
  - split; [discriminate | tauto].
Qed.

(** ** Token parsing *)

Lemma has_flag_lor (e a b : Z) :
  has_flag e (Z.lor a b) = has_flag e a || has_flag e b.
Proof.
  unfold has_flag. rewrite Z.land_lor_distr_r.
  destruct (Z.eqb_spec (Z.land e a) 0) as [Ha | Ha];
    destruct (Z.eqb_spec (Z.land e b) 0) as [Hb | Hb];
    destruct (Z.eqb_spec (Z.lor (Z.land e a) (Z.land e b)) 0) as [Hab | Hab];
    try reflexivity; exfalso.
  - apply Hab. apply Z.lor_eq_0_iff. auto.
  - apply Z.lor_eq_0_iff in Hab. tauto.
  - apply Z.lor_eq_0_iff in Hab. tauto.
  - apply Z.lor_eq_0_iff in Hab. tauto.
Qed.

(** C4 (as the code has it). [ParseJwtToken] signals the malformed-token
    error exactly when the library's validation error carries the
    Malformed flag, the expired-or-inactive error exactly when that flag
    is clear and the Expired or NotValidYet flag is set, and wraps every
    other failure (an invalid signature alone included) in the generic
    error; it returns no error exactly when the library returns claims. *)
Theorem ParseJwtToken_error_classes
    (jwt_Parse : string -> string -> jwt.MapClaims + jwt.error)
    (tokenStr jwtsecret : string) :
  let err := snd (token.ParseJwtToken jwt_Parse tokenStr jwtsecret) in
  (err = Some token.ErrValidationErrorMalformed <->
     exists e, jwt_Parse tokenStr jwtsecret = inr (jwt.ValidationError e) /\
               has_flag e jwt.ValidationErrorMalformed = true) /\
  (err = Some token.ErrTokenExpiredOrNotValidYet <->
     exists e, jwt_Parse tokenStr jwtsecret = inr (jwt.ValidationError e) /\
               has_flag e jwt.ValidationErrorMalformed = false /\
               (has_flag e jwt.ValidationErrorExpired = true \/
                has_flag e jwt.ValidationErrorNotValidYet = true)) /\
  (forall e, jwt_Parse tokenStr jwtsecret = inr (jwt.ValidationError e) ->
             has_flag e jwt.ValidationErrorMalformed = false ->
             has_flag e jwt.ValidationErrorExpired = false ->
             has_flag e jwt.ValidationErrorNotValidYet = false ->
             err = Some (token.ErrCouldntHandle (jwt.ValidationError e))) /\
  (forall msg, jwt_Parse tokenStr jwtsecret = inr (jwt.OtherError msg) ->
               err = Some (token.ErrCouldntHandle (jwt.OtherError msg))) /\
  (err = None <-> exists claims, jwt_Parse tokenStr jwtsecret = inl claims).
Proof.
  unfold token.ParseJwtToken.
  destruct (jwt_Parse tokenStr jwtsecret) as [claims | [e | msg]]; cbn zeta.
  - cbn. repeat split; try discriminate; eauto.
    + intros (e & H & _); discriminate.
    + intros (e & H & _); discriminate.
  - fold (has_flag e jwt.ValidationErrorMalformed).
    fold (has_flag e (Z.lor jwt.ValidationErrorExpired jwt.ValidationErrorNotValidYet)).
    rewrite has_flag_lor.
    destruct (has_flag e jwt.ValidationErrorMalformed) eqn:Hm;
      [| destruct (has_flag e jwt.ValidationErrorExpired) eqn:Hx;
         [| destruct (has_flag e jwt.ValidationErrorNotValidYet) eqn:Hn]];
      cbn; repeat split; try discriminate; eauto.
    all: try (intros (e' & [= <-] & H); revert H; rewrite ?Hm, ?Hx, ?Hn;
              intuition discriminate).
    all: try (intros e' [= <-]; rewrite ?Hm, ?Hx, ?Hn; intros; try discriminate; reflexivity).
    all: try (intros (c & H); discriminate).
  - cbn. repeat split; try discriminate; eauto.
    all: try (intros (e & H & _); discriminate).
    all: try (intros (c & H); discriminate).
    all: try (intros m [= <-]; reflexivity).
Qed.

(** C4, as stated, fails: a validation error whose only flag is
    SignatureInvalid is reported with the generic error, not with the
    malformed-token error. *)
Lemma ParseJwtToken_invalid_signature_is_generic :
  let jwt_Parse := fun _ _ : string =>
    inr (jwt.ValidationError jwt.ValidationErrorSignatureInvalid)
      : jwt.MapClaims + jwt.error in
  has_flag jwt.ValidationErrorSignatureInvalid jwt.ValidationErrorSignatureInvalid = true /\
  snd (token.ParseJwtToken jwt_Parse "a.b.c" "secret")
    = Some (token.ErrCouldntHandle
              (jwt.ValidationError jwt.ValidationErrorSignatureInvalid)) /\
  snd (token.ParseJwtToken jwt_Parse "a.b.c" "secret")
    <> Some token.ErrValidationErrorMalformed.
Proof.
  cbn zeta. split; [reflexivity | split; [reflexivity | discriminate]].
Qed.

(** ** Authentication middleware *)

(** C5. Whatever the request carries, [AuthContext] ends by running the
    rest of the handler chain and never aborts; when no token is found or
    the token does not parse, the chain runs on the unchanged context (no
    claims are attached). *)
Theorem AuthContext_always_proceeds
    (jwt_Parse : string -> string -> jwt.MapClaims + jwt.error)
    (RequestIDHeader : string) (Next : gin.Context -> gin.Context)
    (jwtSecret : string) (c : gin.Context) :
  exists c' : gin.Context,
    middleware.AuthContext jwt_Parse RequestIDHeader Next jwtSecret c = Next c' /\
    gin.aborted c' = gin.aborted c /\
    gin.query c' = gin.query c /\
    gin.header c' = gin.header c /\
    (middleware.extractToken c = "" \/
     snd (token.ParseJwtToken jwt_Parse (middleware.extractToken c) jwtSecret) <> None ->
     c' = c).
Proof.
  unfold middleware.AuthContext.
  destruct (String.eqb_spec (middleware.extractToken c) "") as [He | He].
  - exists c. repeat split; auto.
  - destruct (token.ParseJwtToken jwt_Parse (middleware.extractToken c) jwtSecret)
      as [claims [err |]] eqn:Hp.
    + exists c. repeat split; auto.
    + destruct (negb (size (default ∅ claims) =? 0)%nat).
      * eexists. split; [reflexivity |]. cbn. repeat split; auto.
        intros [H | H]; [contradiction | congruence].
      * exists c. repeat split; auto.
Qed.

(** ** Partial updates *)

Section UpdateFacts.

Import postgres service contract.

Lemma setIf_writeField {A : Type} (c : string) (inj : A -> sql.value)
    (o : option A) (m : gmap string sql.value) :
  setIf c inj o m = writeField m (c, inj <$> o).
Proof. destruct o; reflexivity. Qed.

Lemma clauses_fromFields (e : entity) (now : Z) (req : UpdateRequest e) :
  clausesOf e now req = fromFields now (written e req).
Proof.
  destruct e; simpl in *;
    unfold userRepo.clauses, bonusesRepo.clauses, taskRepo.clauses,
      attendanceRepo.clauses, salaryRepo.clauses, fileRepo.clauses,
      notificationRepo.clauses;
    rewrite ?setIf_writeField; try reflexivity.
  destruct (attendanceRepo.OutTime req); reflexivity.
Qed.

Lemma lookup_foldl_writeField_other (fields : list (string * option sql.value))
    (m : gmap string sql.value) (c : string) :
  (forall v, (c, Some v) ∉ fields) ->
  foldl writeField m fields !! c = m !! c.
Proof.
  revert m. induction fields as [| [c' ov] fields IH]; intros m Hc; simpl.
  - reflexivity.
  - rewrite IH.
    + unfold writeField; simpl. destruct ov as [v |]; [| reflexivity].
      apply lookup_insert_ne. intros ->. apply (Hc v). left.
    + intros v Hv. apply (Hc v). right. exact Hv.
Qed.

Lemma lookup_foldl_writeField_written (fields : list (string * option sql.value))
    (m : gmap string sql.value) (c : string) (v : sql.value) :
  NoDup fields.*1 -> (c, Some v) ∈ fields ->
  foldl writeField m fields !! c = Some v.
Proof.
  revert m. induction fields as [| [c' ov] fields IH]; intros m Hnd Hin; simpl.
  - inversion Hin.
  - apply NoDup_cons in Hnd as [Hfresh Hnd].
    apply elem_of_cons in Hin as [Heq | Hin].
    + injection Heq as <- <-. rewrite lookup_foldl_writeField_other.
      * unfold writeField; simpl. apply lookup_insert_eq.
      * intros v' Hv'. apply Hfresh. simpl.
        apply (list_elem_of_fmap_2 fst) in Hv'. exact Hv'.
    + apply IH; assumption.
Qed.

Lemma fromFields_framed (now : Z) (fields : list (string * option sql.value))
    (r : sql.row) :
  NoDup fields.*1 -> "updated_at" ∉ fields.*1 ->
  framed now fields r (fromFields now fields ∪ r).
Proof.
  intros Hnd Hup. unfold framed, fromFields. repeat split.
  - apply lookup_union_Some_l. rewrite lookup_foldl_writeField_other.
    + apply lookup_singleton_eq.
    + intros v Hv. apply Hup. apply (list_elem_of_fmap_2 fst) in Hv. exact Hv.
  - intros c v Hin. apply lookup_union_Some_l.
    apply lookup_foldl_writeField_written; assumption.
  - intros c Hc Hnot. apply lookup_union_r.
    rewrite lookup_foldl_writeField_other by assumption.
    apply lookup_singleton_ne. congruence.
Qed.

Lemma fromFields_size (now : Z) (fields : list (string * option sql.value))
    (c : string) (v : sql.value) :
  NoDup fields.*1 -> "updated_at" ∉ fields.*1 -> (c, Some v) ∈ fields ->
  (2 <= size (fromFields now fields))%nat.
Proof.
  intros Hnd Hup Hin.
  assert (Hne : c <> "updated_at").
  { intros ->. apply Hup. apply (list_elem_of_fmap_2 fst) in Hin. exact Hin. }
  pose proof (fromFields_framed now fields ∅ Hnd Hup) as (H1 & H2 & _).
  specialize (H2 c v Hin). rewrite (right_id_L ∅ (∪)) in H1, H2.
  assert (Hs : size (<[c := v]> ({["updated_at" := sql.Time now]}
                                   : gmap string sql.value)) = 2%nat).
  { rewrite map_size_insert_None.
    - rewrite map_size_singleton. reflexivity.
    - apply lookup_singleton_ne. congruence. }
  rewrite <- Hs. apply map_subseteq_size. apply map_subseteq_spec. intros k x Hk.
  destruct (decide (k = c)) as [-> | Hkc].
  - rewrite lookup_insert_eq in Hk. congruence.
  - rewrite lookup_insert_ne in Hk by congruence.
    apply lookup_singleton_Some in Hk as [<- <-]. exact H1.
Qed.

End UpdateFacts.

Section UpdateRuns.

Import postgres service contract.

Lemma roundTrip_healthy (db : Postgres) :
  faults db = [] -> roundTrip db = (None, db).
Proof. unfold roundTrip. intros ->. reflexivity. Qed.

Lemma execUpdate_success (db : Postgres) (tbl : string)
    (clauses : gmap string sql.value) (id : Z) (notFound : string) :
  faults db = [] ->
  (exists r, In r (table db tbl) /\ hasID id r = true) ->
  execUpdate db tbl clauses id notFound =
    (None,
     setTable
       (send db (squirrel.StUpdate
                   (squirrel.mkUpdate tbl clauses
                      [squirrel.Eq "id" (squirrel.ArgInt id)])))
       tbl (map (applySet clauses id) (table db tbl))).
Proof.
  intros Hf (r & Hr & Hid). unfold execUpdate.
  rewrite (roundTrip_healthy db Hf).
  rewrite roundTrip_healthy by exact Hf.
  change (table (send db _) tbl) with (table db tbl).
  destruct (Nat.eqb_spec (length (List.filter (hasID id) (table db tbl))) 0)
    as [Hz | Hnz].
  - exfalso. assert (Hin : In r (List.filter (hasID id) (table db tbl))).
    { apply filter_In. split; assumption. }
    destruct (List.filter (hasID id) (table db tbl)); [inversion Hin | discriminate].
  - rewrite roundTrip_healthy by exact Hf. reflexivity.
Qed.

Lemma written_columns (e : entity) (req : UpdateRequest e) :
  NoDup (written e req).*1 /\ "updated_at" ∉ (written e req).*1.
Proof.
  destruct e; simpl; split;
    apply (bool_decide_unpack _); vm_compute; exact I.
Qed.

Lemma supplied_written (e : entity) (req : UpdateRequest e) :
  (exists c v, (c, Some v) ∈ supplied e req) ->
  exists c v, (c, Some v) ∈ written e req.
Proof.
  destruct e; try (intros H; exact H).
  intros _. eexists "outtime", _. simpl. do 3 right. left.
Qed.

Lemma applySet_updatedTable (now : Z) (fields : list (string * option sql.value))
    (id : Z) (t : list sql.row) :
  NoDup fields.*1 -> "updated_at" ∉ fields.*1 ->
  updatedTable now fields id t (map (applySet (fromFields now fields) id) t).
Proof.
  intros Hnd Hup. unfold updatedTable.
  induction t as [| r t IH]; simpl; constructor; [| exact IH].
  unfold applySet. destruct (hasID id r); [| reflexivity].
  apply fromFields_framed; assumption.
Qed.

(** What [Update] comes to once its guards have let the request through. *)
Lemma Update_reaches_store (e : entity) (now : Z) (db : Postgres)
    (req : UpdateRequest e) :
  requestID e req <> 0 ->
  admissible e req ->
  (2 <= size (clausesOf e now req))%nat ->
  exists notFound,
    Update e now db (Some req) =
      execUpdate db (tableName (repoOf e)) (clausesOf e now req)
        (requestID e req) notFound.
Proof.
  intros Hid Hadm Hsize. apply Z.eqb_neq in Hid.
  assert (Hle : (size (clausesOf e now req) <=? 1)%nat = false)
    by (apply Nat.leb_gt; lia).
  assert (Hlt : (size (clausesOf e now req) <? 2)%nat = false)
    by (apply Nat.ltb_ge; lia).
  destruct e; simpl in *; eexists;
    unfold userRepo.Update, bonusesRepo.Update, taskRepo.Update,
      attendanceRepo.Update, salaryRepo.Update, fileRepo.Update,
      notificationRepo.Update;
    rewrite Hid, ?Hle, ?Hlt; try reflexivity.
  destruct (userRepo.Phone req) as [phone |] eqn:Hp; [| reflexivity].
  rewrite (Hadm phone eq_refl). reflexivity.
Qed.

End UpdateRuns.

Section UpdateClaims.

Import postgres service contract.

Lemma table_setTable (db : Postgres) (name : string) (t : list sql.row) :
  table (setTable db name t) name = t.
Proof. unfold table, setTable. simpl. rewrite lookup_insert_eq. reflexivity. Qed.

End UpdateClaims.

(** C1 (as the code has it). An [Update] with a non-zero identifier of
    an existing row, at least one non-null optional field and, for User,
    a valid phone number if one is supplied, on a store that does not
    fail, succeeds; in the rows with that identifier every supplied column
    takes the supplied value, [updated_at] becomes the current time and
    every other column, [created_at] among them, keeps its value, except
    that an Attendance update also sets [outtime] to [NULL] when the
    request leaves it out; the other rows and tables are untouched. *)
Theorem Update_writes_supplied_columns
    (e : contract.entity) (now : Z) (db : postgres.Postgres)
    (req : contract.UpdateRequest e) :
  contract.requestID e req <> 0 ->
  postgres.faults db = [] ->
  contract.admissible e req ->
  (exists c v, (c, Some v) ∈ contract.supplied e req) ->
  (exists r, In r (postgres.table db (service.tableName (contract.repoOf e))) /\
             r !! "id" = Some (sql.Int (contract.requestID e req))) ->
  exists db',
    contract.Update e now db (Some req) = (None, db') /\
    contract.updatedTable now (contract.written e req) (contract.requestID e req)
      (postgres.table db (service.tableName (contract.repoOf e)))
      (postgres.table db' (service.tableName (contract.repoOf e))) /\
    (forall name, name <> service.tableName (contract.repoOf e) ->
                  postgres.tables db' !! name = postgres.tables db !! name).
Proof.
  intros Hid Hf Hadm Hsup (r & Hr & Hrid).
  destruct (written_columns e req) as [Hnd Hup].
  destruct (supplied_written e req Hsup) as (c & v & Hcv).
  pose proof (clauses_fromFields e now req) as Hcl.
  assert (Hsize : (2 <= size (contract.clausesOf e now req))%nat).
  { rewrite Hcl. eapply fromFields_size; eassumption. }
  destruct (Update_reaches_store e now db req Hid Hadm Hsize) as (nf & ->).
  rewrite execUpdate_success.
  - eexists. split; [reflexivity |]. split.
    + rewrite table_setTable, Hcl. apply applySet_updatedTable; assumption.
    + intros name Hname. simpl. apply lookup_insert_ne. congruence.
  - exact Hf.
  - exists r. split; [exact Hr |]. unfold postgres.hasID.
    apply bool_decide_eq_true. exact Hrid.
Qed.

Lemma Update_writes_supplied_columns_witness :
  exists db',
    contract.Update contract.User 9 sample.db (Some sample.newHash) = (None, db') /\
    contract.updatedTable 9 (contract.written contract.User sample.newHash) 1
      (postgres.table sample.db "users") (postgres.table db' "users") /\
    (forall name, name <> "users" ->
                  postgres.tables db' !! name = postgres.tables sample.db !! name).
Proof.
  apply (Update_writes_supplied_columns contract.User 9 sample.db sample.newHash).
  - simpl. lia.
  - reflexivity.
  - intros phone H. simpl in H. discriminate H.
  - exists "hashed_password", (sql.Text "hash(NewSecret1)").
    simpl. do 7 apply list_elem_of_further. apply list_elem_of_here.
  - exists sample.user1. split; [left; reflexivity | vm_compute; reflexivity].
Defined.

(** C1, as stated, fails for Attendance: an update that supplies only
    [status] succeeds and sets [outtime], which the request did not
    supply, from its value to [NULL]. *)
Lemma Update_attendance_clears_outtime :
  (forall v, ("outtime", Some v) ∉ contract.supplied contract.Attendance sample.markLate) /\
  fst (contract.Update contract.Attendance 40 sample.db (Some sample.markLate)) = None /\
  (fun r : sql.row => r !! "outtime") <$> postgres.table sample.db "attendances"
    = [Some (sql.Time 29); Some sql.Null] /\
  (fun r : sql.row => r !! "outtime") <$>
    postgres.table
      (snd (contract.Update contract.Attendance 40 sample.db (Some sample.markLate)))
      "attendances"
    = [Some sql.Null; Some sql.Null] /\
  ~ contract.updatedTable 40 (contract.supplied contract.Attendance sample.markLate) 1
      (postgres.table sample.db "attendances")
      (postgres.table
         (snd (contract.Update contract.Attendance 40 sample.db (Some sample.markLate)))
         "attendances").
Proof.
  assert (Hnot : forall v,
             ("outtime", Some v) ∉ contract.supplied contract.Attendance sample.markLate).
  { intros v H. simpl in H.
    repeat (apply elem_of_cons in H as [H | H]; [discriminate H |]).
    inversion H. }
  split; [exact Hnot |].
  split; [vm_compute; reflexivity |].
  split; [vm_compute; reflexivity |].
  split; [vm_compute; reflexivity |].
  intros H. unfold contract.updatedTable in H.
  apply Forall2_cons_inv_l in H as (r' & t' & Hhd & _ & Heq).
  assert (Hr' : r' !! "outtime" = Some sql.Null).
  { assert (Hh : head ((fun r : sql.row => r !! "outtime") <$> (r' :: t'))
                 = Some (Some sql.Null)).
    { rewrite <- Heq. vm_compute. reflexivity. }
    simpl in Hh. congruence. }
  change (postgres.hasID 1 sample.attendance1) with true in Hhd.
  destruct Hhd as (_ & _ & Hframe).
  specialize (Hframe "outtime" ltac:(discriminate) Hnot).
  rewrite Hr' in Hframe. vm_compute in Hframe. discriminate Hframe.
Qed.

(** Six of the seven repositories reject a request without any non-null
    optional field before they reach the store. *)
Lemma Update_rejects_empty_request
    (e : contract.entity) (now : Z) (db : postgres.Postgres)
    (req : contract.UpdateRequest e) :
  e <> contract.Attendance ->
  contract.requestID e req <> 0 ->
  Forall (fun f => f.2 = None) (contract.supplied e req) ->
  contract.Update e now db (Some req) = (Some "no fields to update", db).
Proof.
  intros He Hid Hnone. apply Z.eqb_neq in Hid.
  destruct e; try congruence; destruct req; simpl in *;
    repeat (apply Forall_cons in Hnone as [? Hnone]); simpl in *;
    repeat match goal with
           | H : _ <$> ?o = None |- _ => apply fmap_None in H; subst o
           end;
    unfold service.userRepo.Update, service.bonusesRepo.Update,
      service.taskRepo.Update, service.salaryRepo.Update,
      service.fileRepo.Update, service.notificationRepo.Update;
    simpl; rewrite Hid; reflexivity.
Qed.

Lemma Update_rejects_empty_request_witness :
  contract.Update contract.File 5 sample.db
    (Some (service.fileRepo.mkRequest 4 None None))
  = (Some "no fields to update", sample.db).
Proof.
  apply (Update_rejects_empty_request contract.File 5 sample.db
           (service.fileRepo.mkRequest 4 None None)).
  - discriminate.
  - simpl. lia.
  - simpl. repeat constructor.
Defined.

(** C2 at Attendance. The guard of [attendanceRepo.Update] never fires:
    the clause map always holds [updated_at] and [outtime].  A request
    with an identifier and no field at all is sent to the store, succeeds,
    and writes [outtime] and [updated_at] of the row. *)
Theorem attendanceRepo_Update_empty_request_is_executed :
  let result :=
    service.attendanceRepo.Update 40 sample.db (Some sample.emptyAttendance) in
  Forall (fun f => f.2 = None)
    (contract.supplied contract.Attendance sample.emptyAttendance) /\
  fst result = None /\
  length (postgres.executed (snd result)) = 1%nat /\
  (fun r : sql.row => (r !! "outtime", r !! "updated_at")) <$>
    postgres.table sample.db "attendances"
    = [(Some (sql.Time 29), Some (sql.Time 25)); (Some sql.Null, Some (sql.Time 30))] /\
  (fun r : sql.row => (r !! "outtime", r !! "updated_at")) <$>
    postgres.table (snd result) "attendances"
    = [(Some sql.Null, Some (sql.Time 40)); (Some sql.Null, Some (sql.Time 30))].
Proof.
  cbn zeta. split; [repeat constructor |].
  repeat split; vm_compute; reflexivity.
Qed.

(** The same for every Attendance request: whatever the request, the
    clause map has two entries or more, so the guard is dead. *)
Lemma attendanceRepo_guard_is_dead (now : Z)
    (req : service.attendanceRepo.UpdateAttendanceRequest) :
  (size (service.attendanceRepo.clauses now req) <? 2)%nat = false.
Proof.
  apply Nat.ltb_ge.
  pose proof (clauses_fromFields contract.Attendance now req) as Hcl.
  simpl in Hcl. rewrite Hcl.
  destruct (written_columns contract.Attendance req) as [Hnd Hup].
  eapply (fromFields_size now _ "outtime"); [exact Hnd | exact Hup |].
  simpl. do 3 right. left.
Qed.

(** ** Queries *)

Section BuilderFacts.

Import postgres service contract.

Lemma foldl_Where (b : squirrel.SelectBuilder) (ps : list squirrel.Sqlizer) :
  foldl squirrel.Where b ps =
    squirrel.mkSelect (squirrel.Columns b) (squirrel.From b)
      (squirrel.WhereParts b ++ ps) (squirrel.OrderBys b)
      (squirrel.Limit b) (squirrel.Offset b).
Proof.
  revert b. induction ps as [| p ps IH]; intros b; simpl.
  - rewrite app_nil_r. destruct b; reflexivity.
  - rewrite IH. simpl. rewrite <- app_assoc. reflexivity.
Qed.

Lemma foldl_Where_both (b c : squirrel.SelectBuilder) (ps : list squirrel.Sqlizer) :
  foldl (fun bc p => (squirrel.Where bc.1 p, squirrel.Where bc.2 p)) (b, c) ps
  = (foldl squirrel.Where b ps, foldl squirrel.Where c ps).
Proof.
  revert b c. induction ps as [| p ps IH]; intros b c; simpl; [reflexivity |].
  apply IH.
Qed.

Lemma listBuilders_eq (R : Repo) (limit offset : nat)
    (filter : gmap string string) (search : string) :
  listBuilders R limit offset filter search =
    (squirrel.mkSelect (listColumns R) (tableName R) (listWhere R filter search)
       (listOrder R) (Some limit) (Some offset),
     squirrel.mkSelect ["COUNT(*)"] (tableName R) (listWhere R filter search)
       [] None None).
Proof.
  unfold listBuilders, listWhere. rewrite foldl_Where_both, !foldl_Where. simpl.
  destruct (negb (String.eqb search "")); simpl; rewrite ?app_nil_r; reflexivity.
Qed.

Lemma getBuilder_eq (R : Repo) (params : gmap string string) :
  getBuilder R params =
    squirrel.mkSelect (getColumns R) (tableName R) (filters params) [] None None.
Proof. unfold getBuilder. rewrite foldl_Where. reflexivity. Qed.

Lemma filters_spec (params : gmap string string) (k v : string) :
  params !! k = Some v <-> In (squirrel.Eq k (squirrel.ArgText v)) (filters params).
Proof.
  unfold filters. rewrite in_map_iff. split.
  - intros H. exists (k, v). split; [reflexivity |].
    apply list_elem_of_In, elem_of_map_to_list. exact H.
  - intros ([k' v'] & Heq & Hin). simpl in Heq. injection Heq as -> ->.
    apply list_elem_of_In, elem_of_map_to_list in Hin. exact Hin.
Qed.

End BuilderFacts.

Section OrderFacts.

Import postgres contract.

Lemma compare_antisym (a b : sql.value) :
  sql.compare b a = CompOpp (sql.compare a b).
Proof.
  destruct a, b; simpl; try reflexivity;
    try apply Z.compare_antisym; try apply String.compare_antisym.
Qed.

Lemma rowCompare_antisym (o : list (string * sql.direction)) (a b : sql.row) :
  rowCompare o b a = CompOpp (rowCompare o a b).
Proof.
  induction o as [| [c d] o IH]; simpl; [reflexivity |].
  rewrite (compare_antisym (sql.col a c) (sql.col b c)).
  destruct (sql.compare (sql.col a c) (sql.col b c)), d; simpl; auto.
Qed.

Lemma precedes_total (o : list (string * sql.direction)) (a b : sql.row) :
  precedes o a b = false -> precedes o b a = true.
Proof.
  unfold precedes. rewrite (rowCompare_antisym o a b).
  destruct (rowCompare o a b); simpl; congruence.
Qed.

Lemma insertRow_HdRel (o : list (string * sql.direction)) (x r : sql.row)
    (l : list sql.row) :
  precedes o x r = true ->
  HdRel (fun a b => precedes o a b = true) x l ->
  HdRel (fun a b => precedes o a b = true) x (insertRow o r l).
Proof.
  intros Hxr Hhd. destruct l as [| y l]; simpl.
  - constructor. exact Hxr.
  - destruct (precedes o r y); constructor; [exact Hxr |].
    inversion Hhd; assumption.
Qed.

Lemma insertRow_ordered (o : list (string * sql.direction)) (r : sql.row)
    (l : list sql.row) :
  ordered o l -> ordered o (insertRow o r l).
Proof.
  unfold ordered. induction l as [| x l IH]; intros Hs; simpl.
  - repeat constructor.
  - destruct (precedes o r x) eqn:Hrx.
    + constructor; [exact Hs | constructor; exact Hrx].
    + apply Sorted_inv in Hs as [Hs Hhd]. constructor.
      * apply IH. exact Hs.
      * apply insertRow_HdRel; [apply precedes_total; exact Hrx | exact Hhd].
Qed.

Lemma orderRows_ordered (o : list (string * sql.direction)) (l : list sql.row) :
  ordered o (orderRows o l).
Proof.
  induction l as [| x l IH]; simpl.
  - constructor.
  - apply insertRow_ordered. exact IH.
Qed.

Lemma insertRow_Permutation (o : list (string * sql.direction)) (r : sql.row)
    (l : list sql.row) :
  Permutation (insertRow o r l) (r :: l).
Proof.
  induction l as [| x l IH]; simpl; [reflexivity |].
  destruct (precedes o r x); [reflexivity |].
  rewrite IH. apply perm_swap.
Qed.

Lemma orderRows_Permutation (o : list (string * sql.direction)) (l : list sql.row) :
  Permutation (orderRows o l) l.
Proof.
  induction l as [| x l IH]; simpl; [reflexivity |].
  rewrite insertRow_Permutation. constructor. exact IH.
Qed.

Lemma Sorted_skipn {A : Type} (P : A -> A -> Prop) (n : nat) (l : list A) :
  Sorted P l -> Sorted P (drop n l).
Proof.
  revert l. induction n as [| n IH]; intros l Hs; [exact Hs |].
  destruct l as [| x l]; [constructor |]. simpl.
  apply IH. apply Sorted_inv in Hs. tauto.
Qed.

Lemma Sorted_firstn {A : Type} (P : A -> A -> Prop) (n : nat) (l : list A) :
  Sorted P l -> Sorted P (take n l).
Proof.
  revert l. induction n as [| n IH]; intros l Hs; [constructor |].
  destruct l as [| x l]; [constructor |]. simpl.
  apply Sorted_inv in Hs as [Hs Hhd]. constructor; [apply IH; exact Hs |].
  destruct n, l; simpl; constructor. inversion Hhd; assumption.
Qed.

Lemma Sorted_map {A B : Type} (P : A -> A -> Prop) (Q : B -> B -> Prop)
    (f : A -> B) (l : list A) :
  (forall a b, P a b -> Q (f a) (f b)) ->
  Sorted P l -> Sorted Q (map f l).
Proof.
  intros Hf. induction 1 as [| x l Hs IH Hhd]; simpl; constructor; [exact IH |].
  destruct Hhd; simpl; constructor. apply Hf. assumption.
Qed.

Lemma project_lookup (columns : list string) (r : sql.row) (c : string) :
  c ∈ columns -> project columns r !! c = r !! c.
Proof.
  intros Hc. unfold project. destruct (r !! c) as [v |] eqn:Hr.
  - apply map_lookup_filter_Some. split; [exact Hr | exact Hc].
  - apply map_lookup_filter_None. left. exact Hr.
Qed.

Lemma project_col (columns : list string) (r : sql.row) (c : string) :
  c ∈ columns -> sql.col (project columns r) c = sql.col r c.
Proof. intros Hc. unfold sql.col. rewrite project_lookup by exact Hc. reflexivity. Qed.

Lemma window_ordered (o : list (string * sql.direction))
    (q : squirrel.SelectBuilder) (l : list sql.row) :
  ordered o l -> ordered o (window q l).
Proof.
  intros Hs. unfold window, ordered.
  destruct (squirrel.Offset q), (squirrel.Limit q);
    repeat first [apply Sorted_firstn | apply Sorted_skipn]; exact Hs.
Qed.

End OrderFacts.

Section ListFacts.

Import postgres service.
Variable ops : sql.Operators.

Lemma List_healthy (R : Repo) (db : Postgres) (limit offset : nat)
    (filter : gmap string string) (search : string) :
  faults db = [] ->
  let bc := listBuilders R limit offset filter search in
  List ops R db limit offset filter search =
    (inr (runSelect ops bc.1 (table db (tableName R)),
          length (matching ops bc.2 (table db (tableName R)))),
     send (send db (squirrel.StSelect bc.1)) (squirrel.StSelect bc.2)).
Proof.
  intros Hf. cbn zeta. unfold List. rewrite listBuilders_eq. cbn [fst snd].
  unfold Query, QueryRowCount.
  rewrite roundTrip_healthy by exact Hf.
  rewrite roundTrip_healthy by exact Hf.
  reflexivity.
Qed.

End ListFacts.

Section GetFacts.

Import postgres service.
Variable ops : sql.Operators.

Lemma runSelect_get_head (R : Repo) (params : gmap string string)
    (t : list sql.row) (r : sql.row) (rest : list sql.row) :
  runSelect ops (getBuilder R params) t = r :: rest ->
  exists r0, In r0 t /\ r = project (getColumns R) r0 /\
             evalWhere ops (filters params) r0 = true.
Proof.
  intros Hrun.
  assert (Hin : In r (runSelect ops (getBuilder R params) t))
    by (rewrite Hrun; left; reflexivity).
  rewrite getBuilder_eq in Hin. unfold runSelect, window, matching in Hin.
  simpl in Hin.
  apply in_map_iff in Hin as (r0 & <- & Hr0).
  apply (Permutation_in _ (orderRows_Permutation _ _)) in Hr0.
  apply filter_In in Hr0 as [Hr0 Hev]. eauto.
Qed.

End GetFacts.

(** C6. [Get] with an empty filter map fails with the error "at least one
    filter parameter is required" and leaves the store untouched (no
    statement is sent); with a non-empty map it sends one [SELECT] on the
    repository's table whose predicates are exactly one equality per key
    of the map, and a row it returns comes from a row of the table that
    satisfies every one of them. *)
Theorem Get_requires_a_filter
    (ops : sql.Operators) (R : service.Repo) (db : postgres.Postgres) :
  service.Get ops R db ∅
    = (inl "at least one filter parameter is required", db) /\
  forall params : gmap string string,
    params <> ∅ ->
    let q := service.getBuilder R params in
    squirrel.From q = service.tableName R /\
    (forall k v, params !! k = Some v <->
                 In (squirrel.Eq k (squirrel.ArgText v)) (squirrel.WhereParts q)) /\
    (forall p, In p (squirrel.WhereParts q) ->
               exists k v, p = squirrel.Eq k (squirrel.ArgText v)) /\
    postgres.executed (snd (service.Get ops R db params))
      = (postgres.executed db ++ [squirrel.StSelect q])%list /\
    postgres.tables (snd (service.Get ops R db params)) = postgres.tables db /\
    forall r, fst (service.Get ops R db params) = inr r ->
      exists r0,
        In r0 (postgres.table db (service.tableName R)) /\
        r = postgres.project (service.getColumns R) r0 /\
        forall k v, params !! k = Some v ->
                    sql.text_eq ops (sql.col r0 k) v = true.
Proof.
  split; [reflexivity |].
  intros params Hne q.
  assert (Hq : q = squirrel.mkSelect (service.getColumns R) (service.tableName R)
                     (service.filters params) [] None None)
    by apply getBuilder_eq.
  assert (Hsize : (size params =? 0)%nat = false).
  { apply Nat.eqb_neq. intros Hz. apply Hne. apply map_size_empty_iff. exact Hz. }
  assert (Hget : service.Get ops R db params = postgres.QueryRow ops db q).
  { unfold service.Get. rewrite Hsize. reflexivity. }
  rewrite Hget.
  split; [rewrite Hq; reflexivity |].
  split; [intros k v; rewrite Hq; apply filters_spec |].
  split.
  { intros p Hp. rewrite Hq in Hp. simpl in Hp. unfold service.filters in Hp.
    apply in_map_iff in Hp as ([k v] & <- & _). eauto. }
  unfold postgres.QueryRow, postgres.roundTrip, postgres.send. simpl.
  replace (squirrel.From q) with (service.tableName R) by (rewrite Hq; reflexivity).
  destruct (postgres.faults db) as [| [e |] fs]; simpl.
  - change (postgres.table (postgres.mkPostgres (postgres.tables db) [] _)
              (service.tableName R))
      with (postgres.table db (service.tableName R)).
    destruct (postgres.runSelect ops q (postgres.table db (service.tableName R)))
      as [| r1 rest] eqn:Hrun; simpl.
    + repeat split; auto. intros r Hr. discriminate Hr.
    + repeat split; auto. intros r [= <-].
      destruct (runSelect_get_head ops R params _ _ _ Hrun) as (r0 & Hin & Hp & Hev).
      exists r0. repeat split; auto.
      intros k v Hkv. unfold postgres.evalWhere in Hev.
      rewrite forallb_forall in Hev.
      apply (Hev (squirrel.Eq k (squirrel.ArgText v))).
      apply filters_spec. exact Hkv.
  - repeat split; auto. intros r Hr. discriminate Hr.
  - change (postgres.table (postgres.mkPostgres (postgres.tables db) fs _)
              (service.tableName R))
      with (postgres.table db (service.tableName R)).
    destruct (postgres.runSelect ops q (postgres.table db (service.tableName R)))
      as [| r1 rest] eqn:Hrun; simpl.
    + repeat split; auto. intros r Hr. discriminate Hr.
    + repeat split; auto. intros r [= <-].
      destruct (runSelect_get_head ops R params _ _ _ Hrun) as (r0 & Hin & Hp & Hev).
      exists r0. repeat split; auto.
      intros k v Hkv. unfold postgres.evalWhere in Hev.
      rewrite forallb_forall in Hev.
      apply (Hev (squirrel.Eq k (squirrel.ArgText v))).
      apply filters_spec. exact Hkv.
Qed.

Lemma Get_requires_a_filter_witness :
  let params : gmap string string := {[ "email" := "a@b.com" ]} in
  let q := service.getBuilder service.userRepo.repo params in
  squirrel.From q = "users" /\
  (forall k v, params !! k = Some v <->
               In (squirrel.Eq k (squirrel.ArgText v)) (squirrel.WhereParts q)) /\
  (forall p, In p (squirrel.WhereParts q) ->
             exists k v, p = squirrel.Eq k (squirrel.ArgText v)) /\
  postgres.executed (snd (service.Get sample.ops service.userRepo.repo sample.db params))
    = (postgres.executed sample.db ++ [squirrel.StSelect q])%list /\
  postgres.tables (snd (service.Get sample.ops service.userRepo.repo sample.db params))
    = postgres.tables sample.db /\
  forall r, fst (service.Get sample.ops service.userRepo.repo sample.db params) = inr r ->
    exists r0,
      In r0 (postgres.table sample.db "users") /\
      r = postgres.project (service.getColumns service.userRepo.repo) r0 /\
      forall k v, params !! k = Some v ->
                  sql.text_eq sample.ops (sql.col r0 k) v = true.
Proof.
  intros params.
  apply (proj2 (Get_requires_a_filter sample.ops service.userRepo.repo sample.db) params).
  apply insert_non_empty.
Defined.

Section ListingOrder.

Import postgres service contract.

Lemma precedes_desc (c : string) (a b : sql.row) :
  precedes [(c, sql.DESC)] a b = true -> notBelow c a b.
Proof.
  unfold precedes, notBelow. simpl.
  destruct (sql.compare (sql.col a c) (sql.col b c)); simpl; congruence.
Qed.

Lemma precedes_desc_desc (c d : string) (a b : sql.row) :
  precedes [(c, sql.DESC); (d, sql.DESC)] a b = true ->
  above c a b \/ (level c a b /\ notBelow d a b).
Proof.
  unfold precedes, above, level, notBelow. simpl.
  destruct (sql.compare (sql.col a c) (sql.col b c)); simpl;
    [| congruence | auto].
  destruct (sql.compare (sql.col a d) (sql.col b d)); simpl;
    intros H; right; split; congruence.
Qed.

Lemma listOrder_listedBefore (e : entity) (a b : sql.row) :
  precedes (listOrder (repoOf e)) a b = true ->
  listedBefore e (project (listColumns (repoOf e)) a)
    (project (listColumns (repoOf e)) b).
Proof.
  assert (Hc : "created_at" ∈ listColumns (repoOf e))
    by (destruct e; apply (bool_decide_unpack _); vm_compute; exact I).
  destruct e; simpl listOrder; intros H;
    try (apply precedes_desc in H; unfold listedBefore, notBelow in *;
         rewrite !project_col by exact Hc; exact H).
  apply precedes_desc_desc in H.
  assert (Hd : "date" ∈ listColumns (repoOf Attendance))
    by (apply (bool_decide_unpack _); vm_compute; exact I).
  assert (Hi : "intime" ∈ listColumns (repoOf Attendance))
    by (apply (bool_decide_unpack _); vm_compute; exact I).
  unfold listedBefore, above, level, notBelow in *.
  rewrite !(project_col _ _ "date") by exact Hd.
  rewrite !(project_col _ _ "intime") by exact Hi.
  exact H.
Qed.

End ListingOrder.

Section ListedPage.

Import postgres service contract.
Variable ops : sql.Operators.

(** The page of a listing that succeeded is the answer of the store
    model to the page statement. *)
Lemma List_returned_page (R : Repo) (db : Postgres) (limit offset : nat)
    (filter : gmap string string) (search : string)
    (items : list sql.row) (total : nat) :
  fst (service.List ops R db limit offset filter search) = inr (items, total) ->
  items = runSelect ops (fst (listBuilders R limit offset filter search))
            (table db (tableName R)).
Proof.
  unfold service.List. rewrite listBuilders_eq. cbn [fst].
  unfold Query, QueryRowCount, roundTrip, send, table. simpl.
  destruct (faults db) as [| [err |] [| [err' |] fs]]; simpl;
    intros H; try discriminate H; injection H as <- _; reflexivity.
Qed.

(** [notificationRepo.List] returns the empty page or an error. *)
Lemma notificationRepo_List_returns_no_item (scanError : string) (db : Postgres)
    (limit offset : nat) (filter : gmap string string) (search : string)
    (items : list sql.row) (total : nat) :
  fst (notificationRepo.List ops scanError db limit offset filter search)
    = inr (items, total) ->
  items = [].
Proof.
  unfold notificationRepo.List.
  destruct (listBuilders notificationRepo.repo limit offset filter search)
    as [baseBuilder countBuilder].
  destruct (Query ops db baseBuilder) as [[err | [| r rows]] db1]; simpl;
    try discriminate.
  destruct (QueryRowCount ops db1 countBuilder) as [[err | n] db2]; simpl;
    try discriminate.
  intros [= <- _]. reflexivity.
Qed.

(** With a row on its page, [notificationRepo.List] fails in [Scan],
    and the count statement is not sent; with none it reports the
    total. *)
Lemma notificationRepo_List_healthy (scanError : string) (db : Postgres)
    (limit offset : nat) (filter : gmap string string) (search : string) :
  faults db = [] ->
  let bc := listBuilders notificationRepo.repo limit offset filter search in
  notificationRepo.List ops scanError db limit offset filter search =
    match runSelect ops bc.1 (table db "notifications") with
    | _ :: _ =>
        (inl ("scan error: " +:+ scanError), send db (squirrel.StSelect bc.1))
    | [] =>
        (inr ([], length (matching ops bc.2 (table db "notifications"))),
         send (send db (squirrel.StSelect bc.1)) (squirrel.StSelect bc.2))
    end.
Proof.
  intros Hf. cbn zeta. unfold notificationRepo.List.
  rewrite listBuilders_eq. cbn [fst snd].
  unfold Query, QueryRowCount.
  rewrite roundTrip_healthy by exact Hf.
  cbn [squirrel.From tableName notificationRepo.repo].
  change (table (send db _) "notifications") with (table db "notifications").
  destruct (runSelect ops _ (table db "notifications")) as [| r rows];
    [| reflexivity].
  rewrite roundTrip_healthy by exact Hf. reflexivity.
Qed.

(** [notificationRepo.Get] never returns a row: it fails in [Scan]
    whenever the store finds one. *)
Lemma notificationRepo_Get_returns_no_row (scanError : string) (db : Postgres)
    (params : gmap string string) (r : sql.row) :
  fst (notificationRepo.Get ops scanError db params) <> inr r.
Proof.
  unfold notificationRepo.Get.
  destruct (size params =? 0)%nat; [discriminate |].
  destruct (QueryRow ops db (getBuilder notificationRepo.repo params))
    as [[err | r0] db1]; discriminate.
Qed.

End ListedPage.

(** C3 (as the code has it). A page that [List] returns is ordered:
    every item is followed by an item whose [created_at] is not larger,
    for every entity but Attendance; the Attendance page is ordered by
    [date] descending, with [intime] descending among rows of one date.
    On a store that does not fail, [List] returns a page for every
    entity but Notification. *)
Theorem List_page_is_ordered
    (ops : sql.Operators) (scanError : string) (e : contract.entity)
    (db : postgres.Postgres) (limit offset : nat)
    (filter : gmap string string) (search : string) :
  (forall items total,
      fst (contract.ListOf ops scanError e db limit offset filter search)
        = inr (items, total) ->
      Sorted (contract.listedBefore e) items) /\
  (e <> contract.Notification ->
   postgres.faults db = [] ->
   exists items total,
     fst (contract.ListOf ops scanError e db limit offset filter search)
       = inr (items, total)).
Proof.
  split.
  - intros items total Hres.
    assert (Hgen : fst (service.List ops (contract.repoOf e) db limit offset filter search)
                     = inr (items, total) ->
                   Sorted (contract.listedBefore e) items).
    { intros H. apply List_returned_page in H. subst items.
      rewrite listBuilders_eq. cbn [fst]. unfold postgres.runSelect.
      cbn [squirrel.Columns squirrel.OrderBys].
      eapply Sorted_map; [apply listOrder_listedBefore |].
      apply window_ordered. apply orderRows_ordered. }
    destruct e; try (apply Hgen; exact Hres).
    apply notificationRepo_List_returns_no_item in Hres. subst items. constructor.
  - intros Hne Hf.
    assert (Hgen : exists items total,
               fst (service.List ops (contract.repoOf e) db limit offset filter search)
                 = inr (items, total)).
    { pose proof (List_healthy ops (contract.repoOf e) db limit offset filter search Hf)
        as Hl.
      cbn zeta in Hl. rewrite Hl. cbn [fst]. eexists _, _. reflexivity. }
    destruct e; try exact Hgen. contradiction Hne. reflexivity.
Qed.

Lemma List_page_is_ordered_witness :
  exists items total,
    fst (contract.ListOf sample.ops "" contract.Attendance sample.db 10 0 ∅ "")
      = inr (items, total) /\
    Sorted (contract.listedBefore contract.Attendance) items.
Proof.
  destruct (List_page_is_ordered sample.ops "" contract.Attendance sample.db
              10 0 ∅ "") as [Hord Hret].
  destruct Hret as (items & total & H); [discriminate | reflexivity |].
  exists items, total. split; [exact H | exact (Hord items total H)].
Defined.

(** C3, as stated, fails for Attendance: the listing is ordered by
    [date], not by [created_at].  Of two attendance rows, the one with
    the later date and the earlier [created_at] comes first. *)
Lemma List_attendance_not_by_created_at :
  let items :=
    contract.pageItems sample.ops service.attendanceRepo.repo sample.db 10 ∅ "" 1 in
  map (fun r : sql.row => (r !! "id", r !! "date", r !! "created_at")) items
    = [(Some (sql.Int 1), Some (sql.Time 20), Some (sql.Time 25));
       (Some (sql.Int 2), Some (sql.Time 10), Some (sql.Time 30))] /\
  ~ Sorted (contract.notBelow "created_at") items.
Proof.
  intros items.
  assert (Hitems : map (fun r : sql.row => (r !! "id", r !! "date", r !! "created_at"))
                     items
                   = [(Some (sql.Int 1), Some (sql.Time 20), Some (sql.Time 25));
                      (Some (sql.Int 2), Some (sql.Time 10), Some (sql.Time 30))])
    by (vm_compute; reflexivity).
  split; [exact Hitems |].
  clearbody items. intros Hsorted.
  destruct items as [| a [| b rest]]; try discriminate Hitems.
  simpl in Hitems. injection Hitems as _ _ Ha _ _ Hb _.
  apply Sorted_inv in Hsorted as [_ Hhd]. apply HdRel_inv in Hhd.
  unfold contract.notBelow, sql.col in Hhd. rewrite Ha, Hb in Hhd.
  apply Hhd. reflexivity.
Qed.

Section CompareFacts.

Import postgres.

Lemma string_compare_lt_trans (s1 s2 s3 : string) :
  String.compare s1 s2 = Lt -> String.compare s2 s3 = Lt ->
  String.compare s1 s3 = Lt.
Proof.
  revert s2 s3. induction s1 as [| a s1 IH]; intros [| b s2] [| c s3]; simpl;
    try discriminate; auto.
  unfold Ascii.compare.
  destruct (N.compare_spec (N_of_ascii a) (N_of_ascii b)) as [Hab | Hab | Hab];
    try discriminate;
    destruct (N.compare_spec (N_of_ascii b) (N_of_ascii c)) as [Hbc | Hbc | Hbc];
    try discriminate; intros H1 H2.
  - rewrite Hab, Hbc, N.compare_refl. eapply IH; eassumption.
  - rewrite Hab. apply N.compare_lt_iff in Hbc. rewrite Hbc. reflexivity.
  - rewrite <- Hbc. apply N.compare_lt_iff in Hab. rewrite Hab. reflexivity.
  - assert (H : (N_of_ascii a < N_of_ascii c)%N) by lia.
    apply N.compare_lt_iff in H. rewrite H. reflexivity.
Qed.

Lemma sql_compare_eq (a b : sql.value) :
  sql.compare a b = Datatypes.Eq -> a = b.
Proof.
  destruct a, b; simpl; try discriminate; try reflexivity; intros H.
  - apply Z.compare_eq in H. congruence.
  - apply Z.compare_eq in H. congruence.
  - apply String.compare_eq_iff in H. congruence.
  - apply Z.compare_eq in H. congruence.
  - destruct b0, b; simpl in H; try discriminate; reflexivity.
Qed.

Lemma sql_compare_refl (a : sql.value) : sql.compare a a = Datatypes.Eq.
Proof.
  destruct a; simpl; try apply Z.compare_refl; try reflexivity.
  pose proof (String.compare_antisym s s) as H.
  destruct (String.compare s s); simpl in H; congruence.
Qed.

Lemma sql_compare_lt_trans (a b c : sql.value) :
  sql.compare a b = Lt -> sql.compare b c = Lt -> sql.compare a c = Lt.
Proof.
  destruct a, b, c; simpl; try discriminate; try reflexivity;
    try (rewrite !Z.compare_lt_iff; lia).
  apply string_compare_lt_trans.
Qed.

Lemma sql_compare_gt_trans (a b c : sql.value) :
  sql.compare a b = Gt -> sql.compare b c = Gt -> sql.compare a c = Gt.
Proof.
  intros Hab Hbc.
  rewrite (compare_antisym c a).
  rewrite (sql_compare_lt_trans c b a); [reflexivity | |].
  - rewrite (compare_antisym b c), Hbc. reflexivity.
  - rewrite (compare_antisym a b), Hab. reflexivity.
Qed.

Lemma rowCompare_refl (o : list (string * sql.direction)) (a : sql.row) :
  rowCompare o a a = Datatypes.Eq.
Proof.
  induction o as [| [c d] o IH]; simpl; [reflexivity |].
  rewrite sql_compare_refl. exact IH.
Qed.

Lemma rowCompare_eq_compat (o : list (string * sql.direction)) (a b c : sql.row) :
  rowCompare o a b = Datatypes.Eq -> rowCompare o a c = rowCompare o b c.
Proof.
  induction o as [| [k d] o IH]; simpl; [reflexivity |].
  destruct (sql.compare (sql.col a k) (sql.col b k)) eqn:Hab.
  - apply sql_compare_eq in Hab. rewrite Hab. intros H.
    rewrite (IH H). reflexivity.
  - destruct d; discriminate.
  - destruct d; discriminate.
Qed.

Lemma rowCompare_lt_trans (o : list (string * sql.direction)) (a b c : sql.row) :
  rowCompare o a b = Lt -> rowCompare o b c = Lt -> rowCompare o a c = Lt.
Proof.
  induction o as [| [k d] o IH]; simpl; [discriminate |].
  destruct (sql.compare (sql.col a k) (sql.col b k)) eqn:Hab.
  - apply sql_compare_eq in Hab. rewrite Hab.
    destruct (sql.compare (sql.col b k) (sql.col c k)); auto.
  - destruct (sql.compare (sql.col b k) (sql.col c k)) eqn:Hbc.
    + apply sql_compare_eq in Hbc. rewrite <- Hbc, Hab. auto.
    + rewrite (sql_compare_lt_trans _ _ _ Hab Hbc). auto.
    + destruct d; simpl; discriminate.
  - destruct (sql.compare (sql.col b k) (sql.col c k)) eqn:Hbc.
    + apply sql_compare_eq in Hbc. rewrite <- Hbc, Hab. auto.
    + destruct d; simpl; discriminate.
    + rewrite (sql_compare_gt_trans _ _ _ Hab Hbc). auto.
Qed.

Lemma precedes_refl (o : list (string * sql.direction)) (a : sql.row) :
  precedes o a a = true.
Proof. unfold precedes. rewrite rowCompare_refl. reflexivity. Qed.

Lemma precedes_trans (o : list (string * sql.direction)) (a b c : sql.row) :
  precedes o a b = true -> precedes o b c = true -> precedes o a c = true.
Proof.
  unfold precedes.
  destruct (rowCompare o a b) eqn:Hab; try discriminate; intros _.
  - rewrite (rowCompare_eq_compat o a b c Hab). auto.
  - destruct (rowCompare o b c) eqn:Hbc; try discriminate; intros _.
    + assert (Hcb : rowCompare o c b = Datatypes.Eq)
        by (rewrite rowCompare_antisym, Hbc; reflexivity).
      rewrite (rowCompare_antisym o c a), (rowCompare_eq_compat o c b a Hcb).
      rewrite (rowCompare_antisym o a b), Hab. reflexivity.
    + rewrite (rowCompare_lt_trans o a b c Hab Hbc). reflexivity.
Qed.

Lemma precedes_both (o : list (string * sql.direction)) (a b : sql.row) :
  precedes o a b = true -> precedes o b a = true ->
  rowCompare o a b = Datatypes.Eq.
Proof.
  unfold precedes. rewrite (rowCompare_antisym o a b).
  destruct (rowCompare o a b); simpl; try discriminate; auto.
Qed.

(** Rows whose order keys are pairwise different can be listed in one
    order only. *)
Lemma ordered_unique (o : list (string * sql.direction)) (l1 l2 : list sql.row) :
  Permutation l1 l2 ->
  contract.ordered o l1 -> contract.ordered o l2 ->
  (forall a b, In a l1 -> In b l1 -> rowCompare o a b = Datatypes.Eq -> a = b) ->
  l1 = l2.
Proof.
  unfold contract.ordered.
  assert (Htrans : Relations_1.Transitive (fun a b : sql.row => precedes o a b = true))
    by (intros a b c; apply precedes_trans).
  revert l2. induction l1 as [| x l1 IH]; intros l2 Hperm Hs1 Hs2 Hkeys.
  - apply Permutation_nil in Hperm. congruence.
  - destruct l2 as [| y l2];
      [apply Permutation_sym, Permutation_nil in Hperm; discriminate |].
    assert (Hxy : x = y).
    { apply Hkeys; [left; reflexivity | |].
      - apply (Permutation_in y (Permutation_sym Hperm)). left. reflexivity.
      - apply precedes_both.
        + assert (Hy : In y (x :: l1))
            by (apply (Permutation_in y (Permutation_sym Hperm)); left; reflexivity).
          destruct Hy as [-> | Hy]; [apply precedes_refl |].
          apply Sorted_StronglySorted in Hs1; [| exact Htrans].
          apply StronglySorted_inv in Hs1 as [_ Hall].
          rewrite Forall_forall in Hall. apply Hall, list_elem_of_In. exact Hy.
        + assert (Hx : In x (y :: l2))
            by (apply (Permutation_in x Hperm); left; reflexivity).
          destruct Hx as [-> | Hx]; [apply precedes_refl |].
          apply Sorted_StronglySorted in Hs2; [| exact Htrans].
          apply StronglySorted_inv in Hs2 as [_ Hall].
          rewrite Forall_forall in Hall. apply Hall, list_elem_of_In. exact Hx. }
    subst y. f_equal. apply IH.
    + apply Permutation_cons_inv in Hperm. exact Hperm.
    + apply Sorted_inv in Hs1. tauto.
    + apply Sorted_inv in Hs2. tauto.
    + intros a b Ha Hb. apply Hkeys; right; assumption.
Qed.

End CompareFacts.

Section Pagination.

Import postgres service contract.
Variable ops : sql.Operators.

(** The model of the store gives one of the answers the store may
    give. *)
Lemma runSelect_answers (q : squirrel.SelectBuilder) (t : list sql.row) :
  answers ops q t (runSelect ops q t).
Proof.
  exists (orderRows (squirrel.OrderBys q) (matching ops q t)).
  split; [apply orderRows_Permutation |].
  split; [apply orderRows_ordered | reflexivity].
Qed.

(** Where the matching rows differ in their order keys, it is the only
    one. *)
Lemma answers_unique (q : squirrel.SelectBuilder) (t rows : list sql.row) :
  (forall a b, In a (matching ops q t) -> In b (matching ops q t) ->
               rowCompare (squirrel.OrderBys q) a b = Datatypes.Eq -> a = b) ->
  answers ops q t rows -> rows = runSelect ops q t.
Proof.
  intros Hkeys (l & Hperm & Hs & ->). unfold runSelect. f_equal. f_equal.
  apply (ordered_unique (squirrel.OrderBys q)).
  - rewrite Hperm. symmetry. apply orderRows_Permutation.
  - exact Hs.
  - apply orderRows_ordered.
  - intros a b Ha Hb. apply Hkeys.
    + apply (Permutation_in a Hperm Ha).
    + apply (Permutation_in b Hperm Hb).
Qed.

(** Every answer to a page statement has as many rows as the window
    leaves. *)
Lemma answers_length (q : squirrel.SelectBuilder) (t rows : list sql.row)
    (limit offset : nat) :
  squirrel.Limit q = Some limit -> squirrel.Offset q = Some offset ->
  answers ops q t rows ->
  length rows = Nat.min limit (length (matching ops q t) - offset).
Proof.
  intros Hl Ho (l & Hperm & _ & ->).
  unfold window. rewrite Hl, Ho, length_map, length_take, length_drop.
  rewrite (Permutation_length Hperm). reflexivity.
Qed.

(** The offset of page [page], when the handlers' product does not
    overflow. *)
Lemma listOffset_fits (page : nat) (limit : Z) :
  (1 <= page)%nat -> 0 < limit < 2 ^ 63 ->
  (Z.of_nat page - 1) * limit < 2 ^ 63 ->
  Z.to_nat (helper.listOffset (Z.of_nat page) limit)
    = ((page - 1) * Z.to_nat limit)%nat.
Proof.
  intros Hp Hl Hfit.
  assert (Hw : helper.wrap (Z.of_nat page - 1) = Z.of_nat page - 1).
  { unfold helper.wrap. rewrite Z.mod_small; nia. }
  assert (Hw2 : helper.wrap ((Z.of_nat page - 1) * limit)
                = (Z.of_nat page - 1) * limit).
  { unfold helper.wrap. rewrite Z.mod_small; nia. }
  unfold helper.listOffset. rewrite Hw, Hw2.
  destruct (Z.ltb_spec ((Z.of_nat page - 1) * limit) 0); nia.
Qed.

Lemma pageStatement_eq (R : Repo) (limit : Z) (filter : gmap string string)
    (search : string) (page : Z) :
  pageStatement R limit filter search page =
    squirrel.mkSelect (listColumns R) (tableName R) (listWhere R filter search)
      (listOrder R) (Some (Z.to_nat limit))
      (Some (Z.to_nat (helper.listOffset page limit))).
Proof. unfold pageStatement. rewrite listBuilders_eq. reflexivity. Qed.

(** On a store that does not fail, the handlers' call for a page
    returns the model's answer to the page statement, and the number of
    matching rows, for every repository that scans into pointers. *)
Lemma listPage_healthy (scanError : string) (e : entity) (db : Postgres) (limit : Z)
    (filter : gmap string string) (search : string) (page : Z) :
  e <> Notification ->
  faults db = [] ->
  fst (listPage ops scanError e db limit filter search page) =
    inr (runSelect ops (pageStatement (repoOf e) limit filter search page)
           (table db (tableName (repoOf e))),
         length (List.filter (evalWhere ops (listWhere (repoOf e) filter search))
                   (table db (tableName (repoOf e))))).
Proof.
  intros Hne Hf. unfold listPage, pageStatement.
  pose proof (List_healthy ops (repoOf e) db (Z.to_nat limit)
                (Z.to_nat (helper.listOffset page limit)) filter search Hf) as Hl.
  cbn zeta in Hl.
  assert (Hgen : contract.ListOf ops scanError e db (Z.to_nat limit)
                   (Z.to_nat (helper.listOffset page limit)) filter search
                 = service.List ops (repoOf e) db (Z.to_nat limit)
                     (Z.to_nat (helper.listOffset page limit)) filter search)
    by (destruct e; try reflexivity; contradiction Hne; reflexivity).
  rewrite Hgen, Hl. cbn [fst]. rewrite listBuilders_eq. reflexivity.
Qed.

(** The length of the pages 1, ..., [n], whatever the store answers. *)
Lemma pages_length (R : Repo) (t : list sql.row) (limit : Z)
    (filter : gmap string string) (search : string)
    (answer : nat -> list sql.row) (n : nat) :
  0 < limit < 2 ^ 63 ->
  (Z.of_nat n - 1) * limit < 2 ^ 63 ->
  (forall p, (1 <= p <= n)%nat ->
     answers ops (pageStatement R limit filter search (Z.of_nat p)) t (answer p)) ->
  length (concat (map answer (seq 1 n)))
    = Nat.min (n * Z.to_nat limit)
        (length (List.filter (evalWhere ops (listWhere R filter search)) t)).
Proof.
  intros Hl. induction n as [| n IH]; intros Hfit Hans; [reflexivity |].
  rewrite seq_S, map_app, concat_app, length_app. simpl.
  rewrite app_nil_r, IH; cycle 1.
  { nia. }
  { intros p Hp. apply Hans. lia. }
  assert (Hlast := Hans (S n) ltac:(lia)).
  rewrite pageStatement_eq in Hlast.
  apply (answers_length _ _ _ (Z.to_nat limit)
           (Z.to_nat (helper.listOffset (Z.of_nat (S n)) limit)))
    in Hlast; [| reflexivity | reflexivity].
  rewrite Hlast. unfold matching. cbn [squirrel.WhereParts].
  rewrite listOffset_fits by (try lia; exact Hfit).
  replace (S n - 1)%nat with n by lia. lia.
Qed.

(** The pages 1, ..., [n] themselves, where the matching rows differ in
    their order keys. *)
Lemma pages_unique (R : Repo) (t : list sql.row) (limit : Z)
    (filter : gmap string string) (search : string)
    (answer : nat -> list sql.row) (n : nat) :
  0 < limit < 2 ^ 63 ->
  (Z.of_nat n - 1) * limit < 2 ^ 63 ->
  (forall a b,
      In a (List.filter (evalWhere ops (listWhere R filter search)) t) ->
      In b (List.filter (evalWhere ops (listWhere R filter search)) t) ->
      rowCompare (listOrder R) a b = Datatypes.Eq -> a = b) ->
  (forall p, (1 <= p <= n)%nat ->
     answers ops (pageStatement R limit filter search (Z.of_nat p)) t (answer p)) ->
  concat (map answer (seq 1 n))
    = map (project (listColumns R))
        (take (n * Z.to_nat limit)
           (orderRows (listOrder R)
              (List.filter (evalWhere ops (listWhere R filter search)) t))).
Proof.
  intros Hl. induction n as [| n IH]; intros Hfit Hkeys Hans; [reflexivity |].
  rewrite seq_S, map_app, concat_app. simpl.
  rewrite app_nil_r, IH; cycle 1.
  { nia. }
  { exact Hkeys. }
  { intros p Hp. apply Hans. lia. }
  assert (Hlast := Hans (S n) ltac:(lia)).
  rewrite pageStatement_eq in Hlast.
  apply answers_unique in Hlast; [| exact Hkeys].
  rewrite Hlast. unfold runSelect, window, matching.
  cbn [squirrel.Columns squirrel.OrderBys squirrel.WhereParts squirrel.Limit
       squirrel.Offset].
  rewrite listOffset_fits by (try lia; exact Hfit).
  replace (S n - 1)%nat with n by lia.
  rewrite <- map_app, take_take_drop. f_equal. f_equal. lia.
Qed.

Lemma NoDup_map_filter {A B : Type} (f : A -> B) (p : A -> bool) (l : list A) :
  NoDup (map f l) -> NoDup (map f (List.filter p l)).
Proof.
  induction l as [| x l IH]; simpl; intros Hnd; [constructor |].
  apply NoDup_cons in Hnd as [Hx Hnd]. destruct (p x); simpl; [| auto].
  apply NoDup_cons. split; [| auto].
  intros Hin. apply Hx. apply list_elem_of_In in Hin. apply list_elem_of_In.
  apply in_map_iff in Hin as (y & Hy & Hin). apply in_map_iff.
  exists y. split; [exact Hy |]. apply filter_In in Hin. tauto.
Qed.

Lemma NoDup_map_take {A B : Type} (f : A -> B) (n : nat) (l : list A) :
  NoDup (map f l) -> NoDup (map f (take n l)).
Proof.
  revert l. induction n as [| n IH]; intros [| x l]; simpl; intros Hnd;
    try constructor.
  - apply NoDup_cons in Hnd as [Hx Hnd]. intros Hin. apply Hx.
    apply list_elem_of_In in Hin. apply list_elem_of_In.
    apply in_map_iff in Hin as (y & Hy & Hin). apply in_map_iff.
    exists y. split; [exact Hy |]. apply list_elem_of_In.
    apply (subseteq_take n l), list_elem_of_In. exact Hin.
  - apply IH. apply NoDup_cons in Hnd. tauto.
Qed.

Lemma listColumns_id (e : entity) : "id" ∈ listColumns (repoOf e).
Proof. destruct e; apply (bool_decide_unpack _); vm_compute; exact I. Qed.

End Pagination.

(** C7 (as the code has it). The count statement of [List] has the
    predicates of the page statement, on the same table, and neither
    order, limit nor offset.  For every repository but Notification, on
    a store that does not fail, each page request of the list handlers
    returns one of the answers the store may give to its page statement,
    and the same total, the number of matching rows.  Take any answers
    of the store to the statements of the pages 1, ..., n, for offsets
    the handlers compute without overflow: once n pages cover the total
    they hold exactly that many items; and if the table holds one row
    per identifier and its matching rows differ in their order keys, no
    identifier comes twice. *)
Theorem List_total_matches_pages
    (ops : sql.Operators) (scanError : string) (e : contract.entity)
    (db : postgres.Postgres) (limit : Z)
    (filter : gmap string string) (search : string) :
  e <> contract.Notification ->
  postgres.faults db = [] ->
  0 < limit < 2 ^ 63 ->
  let R := contract.repoOf e in
  let t := postgres.table db (service.tableName R) in
  let selected := postgres.evalWhere ops (contract.listWhere R filter search) in
  let total := length (List.filter selected t) in
  (forall l o,
      let bc := service.listBuilders R l o filter search in
      squirrel.WhereParts bc.2 = squirrel.WhereParts bc.1 /\
      squirrel.From bc.2 = squirrel.From bc.1 /\
      squirrel.OrderBys bc.2 = [] /\
      squirrel.Limit bc.2 = None /\ squirrel.Offset bc.2 = None /\
      squirrel.Limit bc.1 = Some l /\ squirrel.Offset bc.1 = Some o) /\
  (forall page, exists items,
      fst (contract.listPage ops scanError e db limit filter search page)
        = inr (items, total) /\
      postgres.answers ops (contract.pageStatement R limit filter search page) t items) /\
  forall (n : nat) (answer : nat -> list sql.row),
    (Z.of_nat n - 1) * limit < 2 ^ 63 ->
    (forall p, (1 <= p <= n)%nat ->
       postgres.answers ops
         (contract.pageStatement R limit filter search (Z.of_nat p)) t (answer p)) ->
    ((total <= n * Z.to_nat limit)%nat ->
     length (concat (map answer (seq 1 n))) = total) /\
    (NoDup (map (fun r : sql.row => r !! "id") t) ->
     (forall a b, In a t -> In b t -> selected a = true -> selected b = true ->
                  postgres.rowCompare (service.listOrder R) a b = Datatypes.Eq ->
                  a = b) ->
     NoDup (map (fun r : sql.row => r !! "id") (concat (map answer (seq 1 n))))).
Proof.
  intros Hne Hf Hlimit R t selected total. split; [| split].
  - intros l o. cbn zeta. rewrite listBuilders_eq. cbn.
    repeat split; reflexivity.
  - intros page. eexists. split.
    + apply listPage_healthy; assumption.
    + apply runSelect_answers.
  - intros n answer Hfit Hans. split.
    + intros Hcover.
      rewrite (pages_length ops R t limit filter search answer n Hlimit Hfit Hans).
      fold selected. fold total. lia.
    + intros Hnd Hkeys.
      rewrite (pages_unique ops R t limit filter search answer n Hlimit Hfit);
        [| | exact Hans].
      * fold selected. rewrite map_map.
        rewrite (map_ext _ (fun r : sql.row => r !! "id"))
          by (intros r; apply project_lookup, listColumns_id).
        apply NoDup_map_take, NoDup_ListNoDup.
        apply (Permutation_NoDup
                 (Permutation_map _
                    (Permutation_sym (orderRows_Permutation _ _)))).
        apply NoDup_ListNoDup, NoDup_map_filter. exact Hnd.
      * fold selected. intros a b Ha Hb.
        apply filter_In in Ha as [Ha Hsa]. apply filter_In in Hb as [Hb Hsb].
        apply Hkeys; assumption.
Qed.

Lemma List_total_matches_pages_witness :
  (forall page, exists items,
      fst (contract.listPage sample.ops "" contract.Attendance sample.db 1 ∅ "" page)
        = inr (items, 2%nat)) /\
  let answer (p : nat) :=
    contract.pageItems sample.ops service.attendanceRepo.repo sample.db 1 ∅ ""
      (Z.of_nat p) in
  length (concat (map answer (seq 1 2))) = 2%nat /\
  NoDup (map (fun r : sql.row => r !! "id") (concat (map answer (seq 1 2)))).
Proof.
  pose proof (List_total_matches_pages sample.ops "" contract.Attendance sample.db
                1 ∅ "") as H.
  destruct H as (_ & Hpage & Hpages); [discriminate | reflexivity | lia |].
  split.
  - intros page. destruct (Hpage page) as (items & Hitems & _).
    exists items. exact Hitems.
  - intros answer.
    destruct (Hpages 2%nat answer) as [Hlen Hnd].
    + lia.
    + intros p Hp. unfold answer, contract.pageItems.
      pose proof (List_healthy sample.ops service.attendanceRepo.repo sample.db
                    (Z.to_nat 1) (Z.to_nat (helper.listOffset (Z.of_nat p) 1))
                    ∅ "" eq_refl) as Hl.
      cbn zeta in Hl. rewrite Hl. cbn [fst].
      apply runSelect_answers.
    + split.
      * apply Hlen. vm_compute. lia.
      * apply Hnd.
        -- apply (bool_decide_unpack _). vm_compute. exact I.
        -- change (postgres.table sample.db
                     (service.tableName (contract.repoOf contract.Attendance)))
             with [sample.attendance1; sample.attendance2].
           intros a b [<- | [<- | []]] [<- | [<- | []]] _ _ Hcmp;
             try reflexivity; vm_compute in Hcmp; discriminate Hcmp.
Defined.

(** C7, as stated, fails where rows tie in [created_at]: [List] orders
    by that column alone and the store may list tied rows in one order
    for the first page and in the other for the second.  Of two tasks
    created at the same time, with one task to the page, task 1 may be
    on both pages. *)
Lemma List_pages_repeat_a_tied_row :
  let t := postgres.table sample.tied "tasks" in
  NoDup (map (fun r : sql.row => r !! "id") t) /\
  ~ (forall answer : nat -> list sql.row,
       (forall p, (1 <= p <= 2)%nat ->
          postgres.answers sample.ops
            (contract.pageStatement service.taskRepo.repo 1 ∅ "" (Z.of_nat p)) t
            (answer p)) ->
       NoDup (map (fun r : sql.row => r !! "id") (concat (map answer (seq 1 2))))).
Proof.
  intros t. split.
  - apply (bool_decide_unpack _). vm_compute. exact I.
  - intros Hall.
    set (item := postgres.project (service.listColumns service.taskRepo.repo)
                   sample.task1).
    specialize (Hall (fun _ => [item])).
    assert (Hans : forall p, (1 <= p <= 2)%nat ->
              postgres.answers sample.ops
                (contract.pageStatement service.taskRepo.repo 1 ∅ "" (Z.of_nat p)) t
                [item]).
    { intros p Hp. rewrite pageStatement_eq.
      assert (Hcases : p = 1%nat \/ p = 2%nat) by lia.
      destruct Hcases as [-> | ->].
      - exists [sample.task1; sample.task2]. split; [reflexivity |]. split.
        + repeat constructor.
        + reflexivity.
      - exists [sample.task2; sample.task1]. split; [apply perm_swap |]. split.
        + repeat constructor.
        + reflexivity. }
    specialize (Hall Hans). simpl in Hall.
    apply NoDup_cons in Hall as [Hin _]. apply Hin. constructor.
Qed.

(** Why the offsets must fit: an offset that overflows the handlers'
    [int] wraps to a negative number and is set to 0, so that the page
    4611686018427387905 of a listing by two is its first page again. *)
Lemma pageItems_overflow_repeats :
  let first :=
    contract.pageItems sample.ops service.attendanceRepo.repo sample.db 2 ∅ "" 1 in
  contract.pageItems sample.ops service.attendanceRepo.repo sample.db 2 ∅ ""
    4611686018427387905 = first /\
  length first = 2%nat.
Proof.
  intros first. unfold first, contract.pageItems.
  assert (Hoff : helper.listOffset 4611686018427387905 2 = helper.listOffset 1 2)
    by (vm_compute; reflexivity).
  rewrite Hoff. split; [reflexivity |]. vm_compute. reflexivity.
Qed.


(** ** The user update handler *)

(** C9. Once the identifier has been accepted and the body bound,
    [updateUser] dereferences the role of the payload: a payload without
    a role makes the handler panic, before any access to the store, and
    no response is written; a payload with a role never does, and its
    role is always part of the clauses of the update, which therefore
    never count fewer than two. *)
Theorem updateUser_dereferences_role
    (TrimSpace GetUserRole : string -> string)
    (GenerateFromPassword : string -> string + string)
    (now : Z) (db : postgres.Postgres) (idParam : string) (id : Z)
    (payload : v1.UpdateUserPayload) :
  strconv.ParseInt (TrimSpace idParam) = Some id ->
  0 < id ->
  (v1.Role payload = None ->
   v1.updateUser TrimSpace GetUserRole GenerateFromPassword now db idParam (inl payload)
     = v1.Panicked db) /\
  (forall r, v1.Role payload = Some r ->
     (exists resp db',
        v1.updateUser TrimSpace GetUserRole GenerateFromPassword now db idParam
          (inl payload) = v1.Responded resp db') /\
     forall hashed,
       let req := v1.buildRequest id payload (GetUserRole r) hashed in
       service.userRepo.clauses now req !! "role" = Some (sql.Text (GetUserRole r)) /\
       (2 <= size (service.userRepo.clauses now req))%nat).
Proof.
  intros Hparse Hpos. apply Z.leb_gt in Hpos. split.
  - intros Hrole. unfold v1.updateUser. rewrite Hparse, Hpos, Hrole. reflexivity.
  - intros r Hrole. split.
    + unfold v1.updateUser. rewrite Hparse, Hpos, Hrole.
      destruct (match v1.Password payload with
                | Some password =>
                    if negb (String.eqb password "")
                    then match GenerateFromPassword password with
                         | inl h => inl (Some h)
                         | inr e => inr e
                         end
                    else inl None
                | None => inl None
                end) as [hashed | e]; [| eauto].
      destruct (service.userRepo.Update now db
                  (Some (v1.buildRequest id payload (GetUserRole r) hashed)))
        as [[e |] db'].
      * destruct (Str.Contains e "no user found with ID"); [eauto |].
        destruct (Str.Contains e "no fields to update"); eauto.
      * eauto.
    + intros hashed req.
      pose proof (clauses_fromFields contract.User now req) as Hcl.
      destruct (written_columns contract.User req) as [Hnd Hup].
      assert (Hin : ("role", Some (sql.Text (GetUserRole r)))
                      ∈ contract.written contract.User req).
      { simpl. do 2 right. left. }
      simpl in Hcl. rewrite Hcl. split.
      * apply lookup_foldl_writeField_written; assumption.
      * eapply fromFields_size; eassumption.
Qed.

Lemma updateUser_dereferences_role_witness :
  (v1.Role sample.passwordOnly = None ->
   v1.updateUser sample.TrimSpace sample.GetUserRole sample.GenerateFromPassword
     9 sample.db "1" (inl sample.passwordOnly) = v1.Panicked sample.db) /\
  (forall r, v1.Role sample.passwordOnly = Some r ->
     (exists resp db',
        v1.updateUser sample.TrimSpace sample.GetUserRole sample.GenerateFromPassword
          9 sample.db "1" (inl sample.passwordOnly) = v1.Responded resp db') /\
     forall hashed,
       let req := v1.buildRequest 1 sample.passwordOnly (sample.GetUserRole r) hashed in
       service.userRepo.clauses 9 req !! "role" = Some (sql.Text (sample.GetUserRole r)) /\
       (2 <= size (service.userRepo.clauses 9 req))%nat).
Proof.
  apply (updateUser_dereferences_role sample.TrimSpace sample.GetUserRole
           sample.GenerateFromPassword 9 sample.db "1" 1 sample.passwordOnly).
  - reflexivity.
  - lia.
Defined.

(** C8 at the request of the scenario. [PUT /v1/users/1] with the body
    [{"password": "NewSecret1"}] does not reach the repository: the
    handler panics on the missing role, no response with status 200 is
    written and the stored row keeps its password hash. *)
Theorem updateUser_password_only_panics :
  v1.updateUser sample.TrimSpace sample.GetUserRole sample.GenerateFromPassword
    9 sample.db "1" (inl sample.passwordOnly)
  = v1.Panicked sample.db /\
  (fun r : sql.row => r !! "hashed_password") <$> postgres.table sample.db "users"
  = [Some (sql.Text "hash(Secret1)")].
Proof.
  split; vm_compute; reflexivity.
Qed.

(** The same request with a role in the body is answered with 200; the
    password hash changes, the email does not (and the role is written
    as well). *)
Lemma updateUser_password_and_role_succeeds :
  let payload :=
    v1.mkPayload None None (Some "user") None None None None (Some "NewSecret1") in
  match v1.updateUser sample.TrimSpace sample.GetUserRole sample.GenerateFromPassword
          9 sample.db "1" (inl payload) with
  | v1.Responded resp db' =>
      v1.HTTPCode resp = 200 /\
      (fun r : sql.row => (r !! "hashed_password", r !! "email", r !! "updated_at"))
        <$> postgres.table db' "users"
      = [(Some (sql.Text "hash(NewSecret1)"), Some (sql.Text "a@b.com"),
          Some (sql.Time 9))]
  | v1.Panicked _ => False
  end.
Proof.
  vm_compute. split; reflexivity.
Qed.

(** * Further properties *)

(** ** Updates: failure, invariants, repetition *)

Section UpdateMore.

Import postgres service contract.

Lemma roundTrip_tables (db : Postgres) :
  tables (roundTrip db).2 = tables db.
Proof. unfold roundTrip. destruct (faults db); reflexivity. Qed.

(** Whether [Update] rejects a request or hands it to the store does
    not depend on the store. *)
Lemma Update_cases (e : entity) (now : Z) (req : UpdateRequest e) :
  (exists msg, forall db, Update e now db (Some req) = (Some msg, db)) \/
  (forall db,
      Update e now db (Some req) =
        execUpdate db (tableName (repoOf e)) (clausesOf e now req)
          (requestID e req) (repository.notFound e)).
Proof.
  destruct e; simpl;
    unfold userRepo.Update, bonusesRepo.Update, taskRepo.Update,
      attendanceRepo.Update, salaryRepo.Update, fileRepo.Update,
      notificationRepo.Update;
    repeat match goal with
           | |- context [if ?c then (Some _, _) else _] =>
               destruct c eqn:?; [left; eexists; intros; reflexivity |]
           end;
    right; intros; reflexivity.
Qed.

Lemma execUpdate_shape (db : Postgres) (tbl : string)
    (clauses : gmap string sql.value) (id : Z) (nf : string)
    (res : option string) (db' : Postgres) :
  execUpdate db tbl clauses id nf = (res, db') ->
  (res <> None /\ tables db' = tables db) \/
  (res = None /\
   Exists (fun r => hasID id r = true) (table db tbl) /\
   tables db' = <[tbl := map (applySet clauses id) (table db tbl)]> (tables db) /\
   (faults db = [] -> faults db' = [])).
Proof.
  unfold execUpdate.
  destruct (roundTrip db) as [f1 db1] eqn:H1.
  pose proof (roundTrip_tables db) as T1. rewrite H1 in T1. simpl in T1.
  assert (F1 : faults db = [] -> faults db1 = [])
    by (intros Hf; rewrite (roundTrip_healthy db Hf) in H1; congruence).
  destruct f1 as [e1 |].
  { intros [= <- <-]. left. split; [discriminate | exact T1]. }
  match goal with
  | |- context [roundTrip (send db1 ?st)] =>
      destruct (roundTrip (send db1 st)) as [f2 db2] eqn:H2;
      pose proof (roundTrip_tables (send db1 st)) as T2;
      assert (F2 : faults db1 = [] -> faults db2 = [])
        by (intros Hf; rewrite roundTrip_healthy in H2 by exact Hf;
            injection H2 as _ <-; exact Hf)
  end.
  rewrite H2 in T2. simpl in T2.
  assert (Ht : table db2 tbl = table db tbl)
    by (unfold table; rewrite T2, T1; reflexivity).
  destruct f2 as [e2 |].
  { intros [= <- <-]. left. split; [discriminate | congruence]. }
  rewrite Ht.
  destruct (Nat.eqb_spec (length (List.filter (hasID id) (table db tbl))) 0)
    as [Hz | Hnz].
  { intros [= <- <-]. left. split; [discriminate | congruence]. }
  destruct (roundTrip db2) as [f3 db3] eqn:H3.
  pose proof (roundTrip_tables db2) as T3. rewrite H3 in T3. simpl in T3.
  assert (F3 : faults db2 = [] -> faults db3 = [])
    by (intros Hf; rewrite (roundTrip_healthy db2 Hf) in H3; congruence).
  destruct f3 as [e3 |].
  { intros [= <- <-]. left. split; [discriminate | congruence]. }
  intros [= <- <-]. right. split; [reflexivity |]. split; [| split].
  - apply Exists_exists.
    destruct (List.filter (hasID id) (table db tbl)) as [| r l] eqn:Hfl;
      [contradiction |].
    assert (Hin : In r (List.filter (hasID id) (table db tbl)))
      by (rewrite Hfl; left; reflexivity).
    apply filter_In in Hin as [Hin Hh]. exists r.
    split; [apply list_elem_of_In; exact Hin | exact Hh].
  - simpl. congruence.
  - simpl. auto.
Qed.

Lemma Update_shape (e : entity) (now : Z) (db : Postgres)
    (req : option (UpdateRequest e)) (res : option string) (db' : Postgres) :
  Update e now db req = (res, db') ->
  (res <> None /\ tables db' = tables db) \/
  (res = None /\ exists r0,
     req = Some r0 /\
     Exists (fun r => hasID (requestID e r0) r = true) (table db (tableName (repoOf e))) /\
     tables db' =
       <[tableName (repoOf e) :=
           map (applySet (clausesOf e now r0) (requestID e r0))
             (table db (tableName (repoOf e)))]> (tables db) /\
     (faults db = [] -> faults db' = []) /\
     forall db0,
       Update e now db0 (Some r0) =
         execUpdate db0 (tableName (repoOf e)) (clausesOf e now r0)
           (requestID e r0) (repository.notFound e)).
Proof.
  destruct req as [r0 |].
  - destruct (Update_cases e now r0) as [(msg & Hmsg) | Hexec].
    + rewrite Hmsg. intros [= <- <-]. left. split; [discriminate | reflexivity].
    + rewrite Hexec. intros Hrun.
      destruct (execUpdate_shape _ _ _ _ _ _ _ Hrun) as [Hl | (-> & Hex & Ht & Hf)];
        [left; exact Hl |].
      right. split; [reflexivity |]. exists r0. auto.
  - intros Hrun. left.
    destruct e; simpl in Hrun; injection Hrun as <- <-;
      (split; [discriminate | reflexivity]).
Qed.

Lemma clauses_leave (e : entity) (now : Z) (req : UpdateRequest e) (c : string) :
  c = "id" \/ c = "created_at" -> clausesOf e now req !! c = None.
Proof.
  intros Hc. rewrite clauses_fromFields. unfold fromFields.
  rewrite lookup_foldl_writeField_other.
  - apply lookup_singleton_ne. destruct Hc as [-> | ->]; discriminate.
  - intros v Hv. apply (list_elem_of_fmap_2 fst) in Hv. simpl in Hv.
    revert Hv. apply (bool_decide_unpack _).
    destruct Hc as [-> | ->]; destruct e; vm_compute; exact I.
Qed.

Lemma applySet_keeps (clauses : gmap string sql.value) (id : Z) (r : sql.row)
    (c : string) :
  clauses !! c = None -> applySet clauses id r !! c = r !! c.
Proof.
  intros Hc. unfold applySet. destruct (hasID id r); [| reflexivity].
  apply lookup_union_r. exact Hc.
Qed.

Lemma applySet_hasID (clauses : gmap string sql.value) (id id' : Z) (r : sql.row) :
  clauses !! "id" = None -> hasID id' (applySet clauses id r) = hasID id' r.
Proof.
  intros Hc. unfold hasID. rewrite applySet_keeps by exact Hc. reflexivity.
Qed.

Lemma applySet_twice (clauses : gmap string sql.value) (id : Z) (r : sql.row) :
  clauses !! "id" = None ->
  applySet clauses id (applySet clauses id r) = applySet clauses id r.
Proof.
  intros Hc. unfold applySet at 1. rewrite applySet_hasID by exact Hc.
  unfold applySet. destruct (hasID id r); [| reflexivity].
  rewrite (assoc_L (∪)), (idemp_L (∪)). reflexivity.
Qed.

Lemma Update_reaches_store_named (e : entity) (now : Z) (db : Postgres)
    (req : UpdateRequest e) :
  requestID e req <> 0 ->
  admissible e req ->
  (2 <= size (clausesOf e now req))%nat ->
  Update e now db (Some req) =
    execUpdate db (tableName (repoOf e)) (clausesOf e now req)
      (requestID e req) (repository.notFound e).
Proof.
  intros Hid Hadm Hsize. apply Z.eqb_neq in Hid.
  assert (Hle : (size (clausesOf e now req) <=? 1)%nat = false)
    by (apply Nat.leb_gt; lia).
  assert (Hlt : (size (clausesOf e now req) <? 2)%nat = false)
    by (apply Nat.ltb_ge; lia).
  destruct e; simpl in *;
    unfold userRepo.Update, bonusesRepo.Update, taskRepo.Update,
      attendanceRepo.Update, salaryRepo.Update, fileRepo.Update,
      notificationRepo.Update;
    rewrite Hid, ?Hle, ?Hlt; try reflexivity.
  destruct (userRepo.Phone req) as [phone |] eqn:Hp; [| reflexivity].
  rewrite (Hadm phone eq_refl). reflexivity.
Qed.

Lemma filter_hasID_nil (id : Z) (t : list sql.row) :
  (forall r, In r t -> r !! "id" <> Some (sql.Int id)) ->
  List.filter (hasID id) t = [].
Proof.
  induction t as [| r t IH]; intros Hnone; [reflexivity |].
  simpl. unfold hasID at 1.
  rewrite bool_decide_eq_false_2 by (apply Hnone; left; reflexivity).
  apply IH. intros r' Hr'. apply Hnone. right. exact Hr'.
Qed.

Lemma execUpdate_unknown (db : Postgres) (tbl : string)
    (clauses : gmap string sql.value) (id : Z) (nf : string) :
  faults db = [] ->
  (forall r, In r (table db tbl) -> r !! "id" <> Some (sql.Int id)) ->
  exists db',
    execUpdate db tbl clauses id nf = (Some (nf +:+ pretty id), db') /\
    tables db' = tables db /\ faults db' = [].
Proof.
  intros Hf Hnone. unfold execUpdate.
  rewrite (roundTrip_healthy db Hf). rewrite roundTrip_healthy by exact Hf.
  change (table (send db _) tbl) with (table db tbl).
  rewrite (filter_hasID_nil id _ Hnone). simpl.
  eexists. split; [reflexivity |]. split; [reflexivity | exact Hf].
Qed.

End UpdateMore.

(** X1. An [Update] that returns an error has changed no table: the
    transaction is rolled back on every error path, for each of the
    seven repositories and whatever the store does. *)
Theorem Update_error_changes_nothing
    (e : contract.entity) (now : Z) (db db' : postgres.Postgres)
    (req : option (contract.UpdateRequest e)) (err : string) :
  contract.Update e now db req = (Some err, db') ->
  postgres.tables db' = postgres.tables db.
Proof.
  intros Hrun. destruct (Update_shape e now db req _ _ Hrun) as [[_ Ht] | [Hn _]].
  - exact Ht.
  - discriminate Hn.
Qed.

Lemma Update_error_changes_nothing_witness :
  postgres.tables
    (contract.Update contract.File 5 sample.db
       (Some (service.fileRepo.mkRequest 4 (Some "a.txt") None))).2
  = postgres.tables sample.db.
Proof.
  apply (Update_error_changes_nothing contract.File 5 sample.db _
           (Some (service.fileRepo.mkRequest 4 (Some "a.txt") None))
           "no file found with ID 4").
  vm_compute. reflexivity.
Defined.

(** X2. An [Update] never touches the identifier or [created_at] of any
    row, and never adds or removes a row: after any call, successful or
    not, every table lists the same identifiers and creation times in
    the same order. *)
Theorem Update_keeps_identity
    (e : contract.entity) (now : Z) (db db' : postgres.Postgres)
    (req : option (contract.UpdateRequest e)) (res : option string) (name : string) :
  contract.Update e now db req = (res, db') ->
  map (fun r : sql.row => (r !! "id", r !! "created_at")) (postgres.table db' name)
  = map (fun r : sql.row => (r !! "id", r !! "created_at")) (postgres.table db name).
Proof.
  intros Hrun.
  destruct (Update_shape e now db req _ _ Hrun)
    as [[_ Ht] | (_ & r0 & _ & _ & Ht & _)].
  - unfold postgres.table. rewrite Ht. reflexivity.
  - unfold postgres.table at 1. rewrite Ht.
    destruct (decide (name = service.tableName (contract.repoOf e))) as [-> | Hne].
    + rewrite lookup_insert_eq. simpl. rewrite map_map. apply map_ext.
      intros r. rewrite !applySet_keeps by (apply clauses_leave; auto).
      reflexivity.
    + rewrite lookup_insert_ne by congruence. reflexivity.
Qed.

Lemma Update_keeps_identity_witness :
  map (fun r : sql.row => (r !! "id", r !! "created_at"))
    (postgres.table
       (contract.Update contract.Attendance 40 sample.db (Some sample.markLate)).2
       "attendances")
  = map (fun r : sql.row => (r !! "id", r !! "created_at"))
      (postgres.table sample.db "attendances").
Proof.
  apply (Update_keeps_identity contract.Attendance 40 sample.db _
           (Some sample.markLate)
           (contract.Update contract.Attendance 40 sample.db (Some sample.markLate)).1).
  apply surjective_pairing.
Defined.

(** X3. Repeating a successful [Update] (same request, same time) on a
    store that does not fail succeeds again and leaves every table as
    the first run left it. *)
Theorem Update_twice
    (e : contract.entity) (now : Z) (db db1 : postgres.Postgres)
    (req : contract.UpdateRequest e) :
  postgres.faults db = [] ->
  contract.Update e now db (Some req) = (None, db1) ->
  exists db2,
    contract.Update e now db1 (Some req) = (None, db2) /\
    postgres.tables db2 = postgres.tables db1.
Proof.
  intros Hf Hrun.
  destruct (Update_shape e now db _ _ _ Hrun)
    as [[Hn _] | (_ & r0 & [= <-] & Hex & Ht & Hf1 & Hexec)];
    [congruence |].
  pose proof (clauses_leave e now req "id" (or_introl eq_refl)) as Hid.
  assert (Ht1 : postgres.table db1 (service.tableName (contract.repoOf e))
                = map (postgres.applySet (contract.clausesOf e now req)
                         (contract.requestID e req))
                    (postgres.table db (service.tableName (contract.repoOf e)))).
  { unfold postgres.table at 1. rewrite Ht, lookup_insert_eq. reflexivity. }
  rewrite Hexec, execUpdate_success.
  - eexists. split; [reflexivity |]. simpl. rewrite Ht1, Ht, map_map.
    rewrite insert_insert_eq. f_equal. apply map_ext. intros r.
    apply applySet_twice. exact Hid.
  - apply Hf1. exact Hf.
  - apply Exists_exists in Hex as (r & Hr & Hh). apply list_elem_of_In in Hr.
    exists (postgres.applySet (contract.clausesOf e now req)
              (contract.requestID e req) r).
    split.
    + rewrite Ht1. apply in_map. exact Hr.
    + rewrite applySet_hasID by exact Hid. exact Hh.
Qed.

Lemma Update_twice_witness :
  exists db2,
    contract.Update contract.User 9
      (contract.Update contract.User 9 sample.db (Some sample.newHash)).2
      (Some sample.newHash) = (None, db2) /\
    postgres.tables db2
    = postgres.tables (contract.Update contract.User 9 sample.db (Some sample.newHash)).2.
Proof.
  apply (Update_twice contract.User 9 sample.db).
  - reflexivity.
  - vm_compute. reflexivity.
Defined.

(** X4. On a store that does not fail, an [Update] that passes the
    repository's checks but names an identifier no row has returns the
    entity's "no ... found with ID n" error and changes no table. *)
Theorem Update_unknown_identifier
    (e : contract.entity) (now : Z) (db : postgres.Postgres)
    (req : contract.UpdateRequest e) :
  contract.requestID e req <> 0 ->
  postgres.faults db = [] ->
  contract.admissible e req ->
  (exists c v, (c, Some v) ∈ contract.supplied e req) ->
  (forall r, In r (postgres.table db (service.tableName (contract.repoOf e))) ->
             r !! "id" <> Some (sql.Int (contract.requestID e req))) ->
  exists db',
    contract.Update e now db (Some req)
      = (Some (repository.notFound e +:+ pretty (contract.requestID e req)), db') /\
    postgres.tables db' = postgres.tables db.
Proof.
  intros Hid Hf Hadm Hsup Hnone.
  destruct (written_columns e req) as [Hnd Hup].
  destruct (supplied_written e req Hsup) as (c & v & Hcv).
  assert (Hsize : (2 <= size (contract.clausesOf e now req))%nat).
  { rewrite clauses_fromFields. eapply fromFields_size; eassumption. }
  rewrite (Update_reaches_store_named e now db req Hid Hadm Hsize).
  destruct (execUpdate_unknown db (service.tableName (contract.repoOf e))
              (contract.clausesOf e now req) (contract.requestID e req)
              (repository.notFound e) Hf Hnone) as (db' & Hrun & Ht & _).
  exists db'. split; assumption.
Qed.

Lemma Update_unknown_identifier_witness :
  exists db',
    contract.Update contract.File 5 sample.db
      (Some (service.fileRepo.mkRequest 4 (Some "a.txt") None))
      = (Some ("no file found with ID " +:+ pretty 4), db') /\
    postgres.tables db' = postgres.tables sample.db.
Proof.
  apply (Update_unknown_identifier contract.File 5 sample.db
           (service.fileRepo.mkRequest 4 (Some "a.txt") None)).
  - simpl. lia.
  - reflexivity.
  - exact I.
  - exists "name", (sql.Text "a.txt"). simpl. left.
  - intros r Hr. vm_compute in Hr. contradiction.
Defined.

(** ** Deletion *)

Section DeleteFacts.

Import postgres service contract.

Lemma filter_remaining_hasID (id : Z) (t : list sql.row) :
  List.filter (hasID id) (repository.remaining id t) = [].
Proof.
  unfold repository.remaining. induction t as [| r t IH]; [reflexivity |].
  simpl. destruct (hasID id r) eqn:Hr; simpl; [exact IH |].
  rewrite Hr. exact IH.
Qed.

Lemma Delete_run (e : entity) (db : Postgres) (id : Z) :
  faults db = [] -> id <> 0 ->
  repository.Delete e db id =
    if (length (List.filter (hasID id) (table db (tableName (repoOf e)))) =? 0)%nat
    then (Some (repository.notFound e +:+ pretty id), db)
    else (None, setTable db (tableName (repoOf e))
                  (repository.remaining id (table db (tableName (repoOf e))))).
Proof.
  intros Hf Hid. unfold repository.Delete.
  apply Z.eqb_neq in Hid. rewrite Hid, (roundTrip_healthy db Hf). reflexivity.
Qed.

Lemma filter_hasID_In (id : Z) (t : list sql.row) (r : sql.row) :
  In r t -> r !! "id" = Some (sql.Int id) ->
  (length (List.filter (hasID id) t) =? 0)%nat = false.
Proof.
  intros Hr Hid. apply Nat.eqb_neq.
  assert (Hin : In r (List.filter (hasID id) t)).
  { apply filter_In. split; [exact Hr |]. apply bool_decide_eq_true. exact Hid. }
  destruct (List.filter (hasID id) t); [inversion Hin | discriminate].
Qed.

End DeleteFacts.

(** X5. [Delete] with identifier 0 fails with "... ID is required for
    deletion" before anything is sent; with an identifier no row has, on
    a store that does not fail, it fails with "no ... found with ID n".
    In both cases the store is as before. *)
Theorem Delete_unknown_identifier
    (e : contract.entity) (db : postgres.Postgres) (id : Z) :
  postgres.faults db = [] ->
  (forall r, In r (postgres.table db (service.tableName (contract.repoOf e))) ->
             r !! "id" <> Some (sql.Int id)) ->
  repository.Delete e db 0 = (Some (repository.idRequiredForDeletion e), db) /\
  (id <> 0 ->
   repository.Delete e db id = (Some (repository.notFound e +:+ pretty id), db)).
Proof.
  intros Hf Hnone. split; [reflexivity |].
  intros Hid. rewrite (Delete_run e db id Hf Hid).
  rewrite (filter_hasID_nil id _ Hnone). reflexivity.
Qed.

Lemma Delete_unknown_identifier_witness :
  repository.Delete contract.Task sample.db 0
    = (Some (repository.idRequiredForDeletion contract.Task), sample.db) /\
  (3 <> 0 ->
   repository.Delete contract.Task sample.db 3
     = (Some (repository.notFound contract.Task +:+ pretty 3), sample.db)).
Proof.
  apply (Delete_unknown_identifier contract.Task sample.db 3).
  - reflexivity.
  - intros r Hr. vm_compute in Hr. contradiction.
Defined.

(** X6. On a store that does not fail, [Delete] of the identifier of an
    existing row succeeds and removes exactly the rows with that
    identifier: the table keeps its other rows, in their order, and the
    other tables are untouched. *)
Theorem Delete_removes_the_row
    (e : contract.entity) (db : postgres.Postgres) (id : Z) :
  postgres.faults db = [] ->
  id <> 0 ->
  (exists r, In r (postgres.table db (service.tableName (contract.repoOf e))) /\
             r !! "id" = Some (sql.Int id)) ->
  exists db',
    repository.Delete e db id = (None, db') /\
    (forall r, In r (postgres.table db' (service.tableName (contract.repoOf e))) <->
               In r (postgres.table db (service.tableName (contract.repoOf e))) /\
               r !! "id" <> Some (sql.Int id)) /\
    sublist (postgres.table db' (service.tableName (contract.repoOf e)))
            (postgres.table db (service.tableName (contract.repoOf e))) /\
    (forall name, name <> service.tableName (contract.repoOf e) ->
                  postgres.tables db' !! name = postgres.tables db !! name).
Proof.
  intros Hf Hid (r & Hr & Hrid).
  rewrite (Delete_run e db id Hf Hid), (filter_hasID_In id _ r Hr Hrid).
  eexists. split; [reflexivity |]. rewrite table_setTable.
  unfold repository.remaining. split; [| split].
  - intros r'. rewrite filter_In. unfold postgres.hasID.
    rewrite negb_true_iff, bool_decide_eq_false. reflexivity.
  - clear Hr. induction (postgres.table db (service.tableName (contract.repoOf e)))
      as [| x t IH]; simpl; [constructor |].
    destruct (negb (postgres.hasID id x)); [apply sublist_skip | apply sublist_cons];
      exact IH.
  - intros name Hname. simpl. apply lookup_insert_ne. congruence.
Qed.

Lemma Delete_removes_the_row_witness :
  exists db',
    repository.Delete contract.Attendance sample.db 1 = (None, db') /\
    (forall r, In r (postgres.table db' "attendances") <->
               In r (postgres.table sample.db "attendances") /\
               r !! "id" <> Some (sql.Int 1)) /\
    sublist (postgres.table db' "attendances")
            (postgres.table sample.db "attendances") /\
    (forall name, name <> "attendances" ->
                  postgres.tables db' !! name = postgres.tables sample.db !! name).
Proof.
  apply (Delete_removes_the_row contract.Attendance sample.db 1).
  - reflexivity.
  - lia.
  - exists sample.attendance1. split; [left; reflexivity | vm_compute; reflexivity].
Defined.

(** X7. After a successful [Delete] on a store that does not fail, a
    second [Delete] of the same identifier, and any [Update] of it that
    passes the repository's checks, fail with "no ... found with ID n"
    and change no table. *)
Theorem Delete_then_not_found
    (e : contract.entity) (now : Z) (db db1 : postgres.Postgres) (id : Z)
    (req : contract.UpdateRequest e) :
  postgres.faults db = [] ->
  repository.Delete e db id = (None, db1) ->
  repository.Delete e db1 id = (Some (repository.notFound e +:+ pretty id), db1) /\
  (contract.requestID e req = id ->
   contract.admissible e req ->
   (exists c v, (c, Some v) ∈ contract.supplied e req) ->
   exists db2,
     contract.Update e now db1 (Some req)
       = (Some (repository.notFound e +:+ pretty id), db2) /\
     postgres.tables db2 = postgres.tables db1).
Proof.
  intros Hf Hrun.
  assert (Hid : id <> 0).
  { intros ->. simpl in Hrun. discriminate Hrun. }
  rewrite (Delete_run e db id Hf Hid) in Hrun.
  destruct (length (List.filter (postgres.hasID id)
                      (postgres.table db (service.tableName (contract.repoOf e)))) =? 0)%nat;
    [discriminate Hrun |].
  injection Hrun as <-.
  set (db1 := postgres.setTable db (service.tableName (contract.repoOf e)) _).
  assert (Hf1 : postgres.faults db1 = []) by exact Hf.
  assert (Hnone : forall r,
             In r (postgres.table db1 (service.tableName (contract.repoOf e))) ->
             r !! "id" <> Some (sql.Int id)).
  { intros r Hr. unfold db1 in Hr. rewrite table_setTable in Hr.
    unfold repository.remaining in Hr. apply filter_In in Hr as [_ Hr].
    apply negb_true_iff, bool_decide_eq_false in Hr. exact Hr. }
  split.
  - rewrite (Delete_run e db1 id Hf1 Hid), (filter_hasID_nil id _ Hnone). reflexivity.
  - intros Hreq Hadm Hsup.
    destruct (written_columns e req) as [Hnd Hup].
    destruct (supplied_written e req Hsup) as (c & v & Hcv).
    assert (Hsize : (2 <= size (contract.clausesOf e now req))%nat).
    { rewrite clauses_fromFields. eapply fromFields_size; eassumption. }
    assert (Hid' : contract.requestID e req <> 0) by congruence.
    rewrite (Update_reaches_store_named e now db1 req Hid' Hadm Hsize), Hreq.
    destruct (execUpdate_unknown db1 (service.tableName (contract.repoOf e))
                (contract.clausesOf e now req) id (repository.notFound e) Hf1 Hnone)
      as (db2 & Hrun & Ht & _).
    exists db2. split; assumption.
Qed.

Lemma Delete_then_not_found_witness :
  repository.Delete contract.Attendance
    (repository.Delete contract.Attendance sample.db 1).2 1
  = (Some (repository.notFound contract.Attendance +:+ pretty 1),
     (repository.Delete contract.Attendance sample.db 1).2) /\
  (contract.requestID contract.Attendance sample.markLate = 1 ->
   contract.admissible contract.Attendance sample.markLate ->
   (exists c v, (c, Some v) ∈ contract.supplied contract.Attendance sample.markLate) ->
   exists db2,
     contract.Update contract.Attendance 40
       (repository.Delete contract.Attendance sample.db 1).2 (Some sample.markLate)
       = (Some (repository.notFound contract.Attendance +:+ pretty 1), db2) /\
     postgres.tables db2
     = postgres.tables (repository.Delete contract.Attendance sample.db 1).2).
Proof.
  apply (Delete_then_not_found contract.Attendance 40 sample.db _ 1 sample.markLate).
  - reflexivity.
  - vm_compute. reflexivity.
Defined.

(** ** Listings and lookups *)

Section QueryMore.

Import postgres service contract.
Variable ops : sql.Operators.

Lemma Query_effect (db : Postgres) (q : squirrel.SelectBuilder) :
  tables (Query ops db q).2 = tables db /\
  executed (Query ops db q).2 = (executed db ++ [squirrel.StSelect q])%list /\
  faults (Query ops db q).2 = tail (faults db).
Proof.
  unfold Query, roundTrip, send. simpl.
  destruct (faults db) as [| [e |] fs]; simpl; auto.
Qed.

Lemma QueryRowCount_effect (db : Postgres) (q : squirrel.SelectBuilder) :
  tables (QueryRowCount ops db q).2 = tables db /\
  executed (QueryRowCount ops db q).2 = (executed db ++ [squirrel.StSelect q])%list.
Proof.
  unfold QueryRowCount, roundTrip, send. simpl.
  destruct (faults db) as [| [e |] fs]; simpl; auto.
Qed.

Lemma QueryRow_effect (db : Postgres) (q : squirrel.SelectBuilder) :
  tables (QueryRow ops db q).2 = tables db.
Proof.
  unfold QueryRow, roundTrip, send. simpl.
  destruct (faults db) as [| [e |] fs]; simpl; auto;
    destruct (runSelect ops q _); reflexivity.
Qed.

Lemma orderRows_nil (l : list sql.row) : orderRows [] l = l.
Proof.
  induction l as [| r l IH]; [reflexivity |].
  simpl. rewrite IH. destruct l; reflexivity.
Qed.

Lemma evalWhere_app (ws1 ws2 : list squirrel.Sqlizer) (r : sql.row) :
  evalWhere ops (ws1 ++ ws2) r = evalWhere ops ws1 r && evalWhere ops ws2 r.
Proof. unfold evalWhere. apply forallb_app. Qed.

Lemma evalWhere_filters (params : gmap string string) (r : sql.row) :
  evalWhere ops (filters params) r = true <->
  forall k v, params !! k = Some v -> sql.text_eq ops (sql.col r k) v = true.
Proof.
  unfold evalWhere. rewrite forallb_forall. split.
  - intros H k v Hkv. apply (H (squirrel.Eq k (squirrel.ArgText v))).
    apply filters_spec. exact Hkv.
  - intros H p Hp. unfold filters in Hp.
    apply in_map_iff in Hp as ([k v] & <- & Hin). simpl.
    apply H. apply list_elem_of_In, elem_of_map_to_list in Hin. exact Hin.
Qed.

Lemma evalWhere_listWhere (R : Repo) (filter : gmap string string)
    (search : string) (r : sql.row) :
  evalWhere ops (listWhere R filter search) r = true <->
  (forall k v, filter !! k = Some v -> sql.text_eq ops (sql.col r k) v = true) /\
  (search <> "" ->
   exists c, In c (searchColumns R) /\
             sql.ilike ops (sql.col r c) ("%" +:+ search +:+ "%") = true).
Proof.
  unfold listWhere. rewrite evalWhere_app, andb_true_iff, evalWhere_filters.
  apply and_iff_compat_l.
  destruct (String.eqb_spec search "") as [-> | Hne]; simpl.
  - split; [intros _ H; congruence | reflexivity].
  - rewrite andb_true_r, existsb_exists. split.
    + intros (l & Hl & Hlike) _. apply in_map_iff in Hl as (c & <- & Hc).
      exists c. split; assumption.
    + intros H. destruct (H Hne) as (c & Hc & Hlike).
      exists (squirrel.mkILike c ("%" +:+ search +:+ "%")).
      split; [| exact Hlike].
      apply in_map_iff. exists c. split; [reflexivity | exact Hc].
Qed.

Lemma List_result (R : Repo) (db : Postgres) (limit offset : nat)
    (filter : gmap string string) (search : string)
    (items : list sql.row) (total : nat) :
  (List ops R db limit offset filter search).1 = inr (items, total) ->
  items = map (project (listColumns R))
            (take limit
               (drop offset
                  (orderRows (listOrder R)
                     (List.filter (evalWhere ops (listWhere R filter search))
                        (table db (tableName R)))))) /\
  total = length (List.filter (evalWhere ops (listWhere R filter search))
                    (table db (tableName R))).
Proof.
  unfold List. rewrite listBuilders_eq.
  unfold Query, QueryRowCount, roundTrip, send, runSelect, window, matching, table.
  simpl.
  destruct (faults db) as [| [e |] [| [e' |] fs]]; simpl;
    intros H; try discriminate H; injection H as <- <-; split; reflexivity.
Qed.

End QueryMore.

(** X8. [List] and [Get] only read: whatever the store does and whatever
    they return, every table is as before; [List] sends its page
    statement first and at most one statement more. *)
Theorem List_and_Get_only_read
    (ops : sql.Operators) (R : service.Repo) (db : postgres.Postgres)
    (limit offset : nat) (filter params : gmap string string) (search : string) :
  postgres.tables (service.List ops R db limit offset filter search).2
    = postgres.tables db /\
  postgres.tables (service.Get ops R db params).2 = postgres.tables db /\
  let bc := service.listBuilders R limit offset filter search in
  (postgres.executed (service.List ops R db limit offset filter search).2
     = (postgres.executed db ++ [squirrel.StSelect bc.1])%list \/
   postgres.executed (service.List ops R db limit offset filter search).2
     = (postgres.executed db ++ [squirrel.StSelect bc.1; squirrel.StSelect bc.2])%list).
Proof.
  split; [| split].
  - unfold service.List.
    destruct (service.listBuilders R limit offset filter search) as [b c].
    pose proof (Query_effect ops db b) as (T1 & _).
    destruct (postgres.Query ops db b) as [[e | items] db1]; simpl in *; [exact T1 |].
    pose proof (QueryRowCount_effect ops db1 c) as (T2 & _).
    destruct (postgres.QueryRowCount ops db1 c) as [[e | total] db2]; simpl in *;
      congruence.
  - unfold service.Get. destruct (size params =? 0)%nat; [reflexivity |].
    apply QueryRow_effect.
  - cbn zeta. unfold service.List.
    destruct (service.listBuilders R limit offset filter search) as [b c].
    pose proof (Query_effect ops db b) as (_ & E1 & _).
    destruct (postgres.Query ops db b) as [[e | items] db1]; simpl in *;
      [left; exact E1 |].
    pose proof (QueryRowCount_effect ops db1 c) as (_ & E2).
    destruct (postgres.QueryRowCount ops db1 c) as [[e | total] db2]; simpl in *;
      right; rewrite E2, E1, <- app_assoc; reflexivity.
Qed.

(** X9. When the page statement fails, [List] returns "query error: ..."
    and never sends the count statement; when only the count statement
    fails, it returns "count query error: ..." and no items. *)
Theorem List_error_paths
    (ops : sql.Operators) (R : service.Repo) (db : postgres.Postgres)
    (limit offset : nat) (filter : gmap string string) (search : string)
    (e : string) (rest : list (option string)) :
  (postgres.faults db = Some e :: rest ->
   (service.List ops R db limit offset filter search).1 = inl ("query error: " +:+ e) /\
   length (postgres.executed (service.List ops R db limit offset filter search).2)
     = S (length (postgres.executed db))) /\
  (postgres.faults db = None :: Some e :: rest ->
   (service.List ops R db limit offset filter search).1
     = inl ("count query error: " +:+ e) /\
   length (postgres.executed (service.List ops R db limit offset filter search).2)
     = S (S (length (postgres.executed db)))).
Proof.
  split; intros Hf; unfold service.List;
    destruct (service.listBuilders R limit offset filter search) as [b c];
    unfold postgres.Query, postgres.QueryRowCount, postgres.roundTrip, postgres.send;
    simpl; rewrite Hf; simpl; rewrite ?length_app; simpl; split; auto; lia.
Qed.

Lemma List_error_paths_witness :
  let db := postgres.mkPostgres (postgres.tables sample.db) [None; Some "timeout"] [] in
  (service.List sample.ops service.taskRepo.repo db 10 0 ∅ "").1
    = inl ("count query error: " +:+ "timeout") /\
  length (postgres.executed (service.List sample.ops service.taskRepo.repo db 10 0 ∅ "").2)
    = S (S (length (postgres.executed db))).
Proof.
  intros db.
  apply (proj2 (List_error_paths sample.ops service.taskRepo.repo db 10 0 ∅ ""
                  "timeout" [])).
  reflexivity.
Defined.

(** X10. What a successful [List] returns: the total is the number of
    rows of the table that satisfy every filter and, for a non-empty
    search, match the pattern "%search%" on one of the search columns,
    whatever the limit and the offset; every item is such a row, cut down
    to the listed columns; and the page holds
    [min limit (total - offset)] items. *)
Theorem List_returns_matching_rows
    (ops : sql.Operators) (R : service.Repo) (db : postgres.Postgres)
    (limit offset : nat) (filter : gmap string string) (search : string)
    (items : list sql.row) (total : nat) :
  (service.List ops R db limit offset filter search).1 = inr (items, total) ->
  let selected (r : sql.row) :=
    (forall k v, filter !! k = Some v -> sql.text_eq ops (sql.col r k) v = true) /\
    (search <> "" ->
     exists c, In c (service.searchColumns R) /\
               sql.ilike ops (sql.col r c) ("%" +:+ search +:+ "%") = true) in
  total = length (List.filter (postgres.evalWhere ops (contract.listWhere R filter search))
                    (postgres.table db (service.tableName R))) /\
  (forall r, postgres.evalWhere ops (contract.listWhere R filter search) r = true <->
             selected r) /\
  (forall item, In item items ->
     exists r, In r (postgres.table db (service.tableName R)) /\ selected r /\
               item = postgres.project (service.listColumns R) r) /\
  length items = Nat.min limit (total - offset).
Proof.
  intros Hrun selected.
  destruct (List_result ops R db limit offset filter search items total Hrun)
    as [-> ->].
  split; [reflexivity |]. split; [intros r; apply evalWhere_listWhere |]. split.
  - intros item Hitem. apply in_map_iff in Hitem as (r & <- & Hr).
    apply list_elem_of_In, (subseteq_take limit), (subseteq_drop offset) in Hr.
    apply list_elem_of_In in Hr.
    apply (Permutation_in _ (orderRows_Permutation _ _)) in Hr.
    apply filter_In in Hr as [Hr Hsel].
    exists r. split; [exact Hr |]. split; [| reflexivity].
    apply evalWhere_listWhere. exact Hsel.
  - rewrite length_map, length_take, length_drop.
    rewrite (Permutation_length (orderRows_Permutation _ _)). reflexivity.
Qed.

Lemma List_returns_matching_rows_witness :
  exists items total,
    (service.List sample.ops service.attendanceRepo.repo sample.db 1 1 ∅ "").1
      = inr (items, total) /\
    total = 2%nat /\ length items = Nat.min 1 (total - 1).
Proof.
  eexists _, _. split; [apply surjective_pairing || reflexivity |].
  pose proof (List_returns_matching_rows sample.ops service.attendanceRepo.repo
                sample.db 1 1 ∅ "" _ _ eq_refl) as (Ht & _ & _ & Hl).
  split; [exact Ht | exact Hl].
Defined.

Section ProjectionFacts.

Import postgres service.

Lemma project_hides (columns : list string) (r : sql.row) (c : string) :
  c ∉ columns -> project columns r !! c = None.
Proof.
  intros Hc. unfold project. apply map_lookup_filter_None. right.
  intros v _ Hin. apply Hc. exact Hin.
Qed.

Lemma head_filter_find {A : Type} (p : A -> bool) (l : list A) :
  head (List.filter p l) = List.find p l.
Proof.
  induction l as [| x l IH]; [reflexivity |]. simpl. destruct (p x); auto.
Qed.

End ProjectionFacts.

(** X11. An item of a listing has no column outside the listed ones.
    For users this means that a listing never carries
    [hashed_password] or [hashed_refresh_token], which [Get] does
    return. *)
Theorem List_items_carry_listed_columns
    (ops : sql.Operators) (R : service.Repo) (db : postgres.Postgres)
    (limit offset : nat) (filter : gmap string string) (search : string)
    (items : list sql.row) (total : nat) (item : sql.row) :
  (service.List ops R db limit offset filter search).1 = inr (items, total) ->
  In item items ->
  (forall c, is_Some (item !! c) -> c ∈ service.listColumns R) /\
  (R = service.userRepo.repo ->
   item !! "hashed_password" = None /\ item !! "hashed_refresh_token" = None) /\
  "hashed_password" ∈ service.getColumns service.userRepo.repo /\
  "hashed_refresh_token" ∈ service.getColumns service.userRepo.repo.
Proof.
  intros Hrun Hitem.
  destruct (List_result ops R db limit offset filter search items total Hrun)
    as [-> _].
  apply in_map_iff in Hitem as (r & <- & _).
  split; [| split; [| split]].
  - intros c [v Hv]. destruct (decide (c ∈ service.listColumns R)) as [Hc | Hc];
      [exact Hc |].
    rewrite project_hides in Hv by exact Hc. discriminate Hv.
  - intros ->. split; apply project_hides;
      apply (bool_decide_unpack _); vm_compute; exact I.
  - apply (bool_decide_unpack _). vm_compute. exact I.
  - apply (bool_decide_unpack _). vm_compute. exact I.
Qed.

Lemma List_items_carry_listed_columns_witness :
  exists items total,
    (service.List sample.ops service.userRepo.repo sample.db 10 0 ∅ "").1
      = inr (items, total) /\
    Forall (fun item : sql.row => item !! "hashed_password" = None) items.
Proof.
  eexists _, _. split; [reflexivity |].
  apply Forall_forall. intros item Hitem. apply list_elem_of_In in Hitem.
  refine (proj1 (proj1 (proj2 (List_items_carry_listed_columns sample.ops
                                 service.userRepo.repo sample.db 10 0 ∅ ""
                                 _ _ item _ Hitem)) eq_refl)).
  reflexivity.
Defined.

(** X12. On a store that does not fail, [Get] with a non-empty filter
    map returns the first row of the table, in table order, that
    satisfies every filter, cut down to the selected columns; it fails
    with "no rows in result set" exactly when no row satisfies them. *)
Theorem Get_returns_first_match
    (ops : sql.Operators) (R : service.Repo) (db : postgres.Postgres)
    (params : gmap string string) :
  postgres.faults db = [] ->
  params <> ∅ ->
  let satisfies (r : sql.row) :=
    forall k v, params !! k = Some v -> sql.text_eq ops (sql.col r k) v = true in
  (forall r, postgres.evalWhere ops (service.filters params) r = true <-> satisfies r) /\
  (service.Get ops R db params).1 =
    match List.find (postgres.evalWhere ops (service.filters params))
            (postgres.table db (service.tableName R)) with
    | Some r => inr (postgres.project (service.getColumns R) r)
    | None => inl "no rows in result set"
    end /\
  ((service.Get ops R db params).1 = inl "no rows in result set" <->
   forall r, In r (postgres.table db (service.tableName R)) -> ~ satisfies r).
Proof.
  intros Hf Hne satisfies.
  assert (Hsat : forall r, postgres.evalWhere ops (service.filters params) r = true
                           <-> satisfies r)
    by (intros r; apply evalWhere_filters).
  assert (Hsize : (size params =? 0)%nat = false).
  { apply Nat.eqb_neq. intros Hz. apply Hne. apply map_size_empty_iff. exact Hz. }
  assert (Hget : (service.Get ops R db params).1 =
                 match List.find (postgres.evalWhere ops (service.filters params))
                         (postgres.table db (service.tableName R)) with
                 | Some r => inr (postgres.project (service.getColumns R) r)
                 | None => inl "no rows in result set"
                 end).
  { unfold service.Get. rewrite Hsize, getBuilder_eq.
    unfold postgres.QueryRow. rewrite roundTrip_healthy by exact Hf.
    unfold postgres.runSelect, postgres.window, postgres.matching. simpl.
    rewrite orderRows_nil.
    change (postgres.table (postgres.send db _) ?t) with (postgres.table db t).
    rewrite <- head_filter_find.
    destruct (List.filter (postgres.evalWhere ops (service.filters params))
                (postgres.table db (service.tableName R))); reflexivity. }
  split; [exact Hsat |]. split; [exact Hget |].
  rewrite Hget.
  destruct (List.find (postgres.evalWhere ops (service.filters params))
              (postgres.table db (service.tableName R))) as [r |] eqn:Hfind.
  - split; [discriminate |]. intros Hnone. exfalso.
    apply find_some in Hfind as [Hr Hev]. apply (Hnone r Hr). apply Hsat. exact Hev.
  - split; [| reflexivity]. intros _ r Hr Hs.
    pose proof (find_none _ _ Hfind r Hr) as Hev.
    apply Hsat in Hs. congruence.
Qed.

Lemma Get_returns_first_match_witness :
  let params : gmap string string := {[ "email" := "x@y.z" ]} in
  (service.Get sample.ops service.userRepo.repo sample.db params).1
    = inl "no rows in result set" <->
  forall r, In r (postgres.table sample.db (service.tableName service.userRepo.repo)) ->
    ~ (forall k v, params !! k = Some v ->
                   sql.text_eq sample.ops (sql.col r k) v = true).
Proof.
  intros params.
  assert (Hne : params <> ∅) by apply insert_non_empty.
  exact (proj2 (proj2 (Get_returns_first_match sample.ops service.userRepo.repo
                         sample.db params eq_refl Hne))).
Defined.

(** ** Pagination *)

Section PaginationParams.

Lemma digit_bound (c : ascii) (d : Z) : strconv.digit c = Some d -> 0 <= d <= 9.
Proof.
  unfold strconv.digit. intros H.
  pose proof (Z.mod_pos_bound (Str.byte c - 48) 256 ltac:(lia)) as Hm.
  destruct (Z.ltb_spec 9 ((Str.byte c - 48) mod 256)); [discriminate |].
  injection H as <-. lia.
Qed.

Lemma digits_bound (s : string) (n m : Z) :
  0 <= n -> strconv.digits s n = Some m ->
  n * 10 ^ Z.of_nat (String.length s) <= m
  < (n + 1) * 10 ^ Z.of_nat (String.length s).
Proof.
  revert n. induction s as [| c s IH]; intros n Hn H.
  - simpl in H. injection H as <-. simpl. lia.
  - simpl in H. destruct (strconv.digit c) as [d |] eqn:Hd; [| discriminate].
    apply digit_bound in Hd. apply IH in H; [| lia].
    cbn [String.length]. rewrite Nat2Z.inj_succ, Z.pow_succ_r by lia.
    assert (Hp : 0 < 10 ^ Z.of_nat (String.length s)) by (apply Z.pow_pos_nonneg; lia).
    nia.
Qed.

Lemma Atoi_range (s : string) (n : Z) :
  strconv.Atoi s = Some n -> - 2 ^ 63 <= n < 2 ^ 63.
Proof.
  unfold strconv.Atoi.
  destruct ((0 <? String.length s)%nat && (String.length s <? 19)%nat) eqn:Hlen.
  - apply andb_true_iff in Hlen as [_ Hlen]. apply Nat.ltb_lt in Hlen.
    unfold strconv.Atoi_fast. destruct s as [| c0 rest]; [discriminate |].
    set (body := if strconv.is_sign c0 then rest else String c0 rest).
    assert (Hb : (String.length body <= 18)%nat).
    { unfold body. destruct (strconv.is_sign c0); simpl in *; lia. }
    destruct body as [| b0 body'] eqn:Hbody; [discriminate |].
    destruct (strconv.digits (String b0 body') 0) as [m |] eqn:Hm; [| discriminate].
    apply digits_bound in Hm; [| lia].
    assert (Hpow : 10 ^ Z.of_nat (String.length (String b0 body')) <= 10 ^ 18)
      by (apply Z.pow_le_mono_r; lia).
    intros [= <-]. destruct (Ascii.eqb c0 "-"); lia.
  - unfold strconv.ParseInt. destruct s as [| c0 rest]; [discriminate |].
    destruct (if strconv.is_sign c0 then rest else String c0 rest) as [| b0 body'];
      [discriminate |].
    destruct (strconv.digits (String b0 body') 0) as [m |] eqn:Hm; [| discriminate].
    apply digits_bound in Hm; [| lia].
    assert (Hp : 0 < 10 ^ Z.of_nat (String.length (String b0 body')))
      by (apply Z.pow_pos_nonneg; lia).
    destruct (Ascii.eqb c0 "-").
    + destruct (Z.leb_spec m (2 ^ 63)); [| discriminate]. intros [= <-]. lia.
    + destruct (Z.ltb_spec m (2 ^ 63)); [| discriminate]. intros [= <-]. lia.
Qed.

Lemma positive_or_default (o : option Z) (d : Z) :
  1 <= d < 2 ^ 63 ->
  (forall n, o = Some n -> - 2 ^ 63 <= n < 2 ^ 63) ->
  1 <= match o with
       | Some parsed => if 0 <? parsed then parsed else d
       | None => d
       end < 2 ^ 63.
Proof.
  intros Hd Ho. destruct o as [n |]; [| exact Hd].
  specialize (Ho n eq_refl). destruct (Z.ltb_spec 0 n); lia.
Qed.

End PaginationParams.

(** X13. Whatever the query string holds, [GetPaginationParams] returns
    a page and a limit between 1 and the largest [int]; a missing
    parameter gives page 1 and limit 10.  The offset the list handlers
    compute from them is never negative, and it is
    [(page - 1) * limit] whenever that product fits an [int]. *)
Theorem GetPaginationParams_bounds (c : gin.Context) :
  let page := (helper.GetPaginationParams c).1 in
  let limit := (helper.GetPaginationParams c).2 in
  1 <= page < 2 ^ 63 /\ 1 <= limit < 2 ^ 63 /\
  (gin.query c !! "page" = None -> page = 1) /\
  (gin.query c !! "limit" = None -> limit = 10) /\
  0 <= helper.listOffset page limit < 2 ^ 63 /\
  ((page - 1) * limit < 2 ^ 63 -> helper.listOffset page limit = (page - 1) * limit).
Proof.
  cbn zeta. unfold helper.GetPaginationParams. cbn [fst snd].
  set (page := match strconv.Atoi (helper.DefaultQuery c "page" (helper.Itoa 1)) with
               | Some parsedPage => if 0 <? parsedPage then parsedPage else 1
               | None => 1
               end).
  set (limit := match strconv.Atoi (helper.DefaultQuery c "limit" (helper.Itoa 10)) with
                | Some parsedLimit => if 0 <? parsedLimit then parsedLimit else 10
                | None => 10
                end).
  assert (Hpage : 1 <= page < 2 ^ 63)
    by (apply positive_or_default; [lia | intros n; apply Atoi_range]).
  assert (Hlimit : 1 <= limit < 2 ^ 63)
    by (apply positive_or_default; [lia | intros n; apply Atoi_range]).
  split; [exact Hpage |]. split; [exact Hlimit |].
  split; [| split].
  - intros Hq. unfold page, helper.DefaultQuery. rewrite Hq. reflexivity.
  - intros Hq. unfold limit, helper.DefaultQuery. rewrite Hq. reflexivity.
  - assert (Hw : helper.wrap (page - 1) = page - 1).
    { unfold helper.wrap. rewrite Z.mod_small; lia. }
    unfold helper.listOffset. rewrite Hw.
    pose proof (Z.mod_pos_bound ((page - 1) * limit + 2 ^ 63) (2 ^ 64) ltac:(lia)) as Hm.
    split.
    + destruct (Z.ltb_spec (helper.wrap ((page - 1) * limit)) 0); [lia |].
      unfold helper.wrap in *. lia.
    + intros Hfit.
      assert (Hnn : 0 <= (page - 1) * limit) by nia.
      assert (Hw2 : helper.wrap ((page - 1) * limit) = (page - 1) * limit).
      { unfold helper.wrap. rewrite Z.mod_small; lia. }
      rewrite Hw2. destruct (Z.ltb_spec ((page - 1) * limit) 0); lia.
Qed.

(** ** Token extraction *)

Section TokenFacts.

Lemma Contains_prefix (p s : string) : Str.Contains (p +:+ s) p = true.
Proof.
  assert (Hp : Str.has_prefix p (p +:+ s) = true).
  { induction p as [| a p IH]; simpl; [reflexivity |].
    rewrite Ascii.eqb_refl. exact IH. }
  destruct (p +:+ s); simpl in *; rewrite Hp; reflexivity.
Qed.

End TokenFacts.

(** X14. Where [AuthContext] takes the token from: a non-empty [token]
    query parameter wins; otherwise an [Authorization] header of seven
    bytes or fewer is ignored, a longer header that contains "Bearer "
    anywhere loses its first seven bytes, and any other longer header is
    taken whole.  So "Bearer t" gives [t] for every non-empty [t]. *)
Theorem extractToken_sources (c : gin.Context) :
  (gin.Query c "token" <> "" -> middleware.extractToken c = gin.Query c "token") /\
  (gin.Query c "token" = "" ->
   ((String.length (gin.GetHeader c "Authorization") <= 7)%nat ->
    middleware.extractToken c = "") /\
   ((7 < String.length (gin.GetHeader c "Authorization"))%nat ->
    middleware.extractToken c =
      if Str.Contains (gin.GetHeader c "Authorization") "Bearer "
      then Str.drop 7 (gin.GetHeader c "Authorization")
      else gin.GetHeader c "Authorization") /\
   (forall t, t <> "" -> gin.GetHeader c "Authorization" = "Bearer " +:+ t ->
              middleware.extractToken c = t)).
Proof.
  unfold middleware.extractToken. split.
  - intros Hq. destruct (gin.Query c "token"); [congruence | reflexivity].
  - intros ->. simpl. split; [| split].
    + intros Hlen. apply Nat.ltb_ge in Hlen. rewrite Hlen. reflexivity.
    + intros Hlen. apply Nat.ltb_lt in Hlen. rewrite Hlen. reflexivity.
    + intros t Ht ->. rewrite (Contains_prefix "Bearer " t).
      destruct t; [congruence | reflexivity].
Qed.

Lemma extractToken_sources_witness :
  let c := gin.mkContext ∅ {[ "Authorization" := "Bearer abc.def.ghi" ]} ∅ false in
  middleware.extractToken c = "abc.def.ghi".
Proof.
  intros c.
  apply (proj2 (proj2 (proj2 (extractToken_sources c) eq_refl)) "abc.def.ghi").
  - discriminate.
  - reflexivity.
Defined.

(** X15. When the token parses, [AuthContext] stores under its context
    key exactly the string-valued claims (a claim of any other type,
    such as [exp] or [iat], is dropped) and runs the rest of the chain;
    when the parsed claims are empty it stores nothing. *)
Theorem AuthContext_attaches_string_claims
    (jwt_Parse : string -> string -> jwt.MapClaims + jwt.error)
    (RequestIDHeader : string) (Next : gin.Context -> gin.Context)
    (jwtSecret : string) (c : gin.Context) (claims : jwt.MapClaims) :
  middleware.extractToken c <> "" ->
  jwt_Parse (middleware.extractToken c) jwtSecret = inl claims ->
  (claims = ∅ ->
   middleware.AuthContext jwt_Parse RequestIDHeader Next jwtSecret c = Next c) /\
  (claims <> ∅ ->
   exists authData : gmap string string,
     middleware.AuthContext jwt_Parse RequestIDHeader Next jwtSecret c
       = Next (gin.Set_ c RequestIDHeader authData) /\
     gin.Keys (gin.Set_ c RequestIDHeader authData) !! RequestIDHeader = Some authData /\
     forall k s, authData !! k = Some s <-> claims !! k = Some (jwt.String_ s)).
Proof.
  intros Htok Hparse. unfold middleware.AuthContext, token.ParseJwtToken.
  destruct (String.eqb_spec (middleware.extractToken c) "") as [He | _];
    [contradiction |].
  rewrite Hparse. simpl. split.
  - intros ->. reflexivity.
  - intros Hne.
    assert (Hsize : (size claims =? 0)%nat = false).
    { apply Nat.eqb_neq. intros Hz. apply Hne, map_size_empty_iff. exact Hz. }
    rewrite Hsize. simpl. eexists. split; [reflexivity |].
    split; [apply lookup_insert_eq |].
    intros k s. unfold middleware.stringClaims, jwt.MapClaims in *.
    rewrite lookup_omap.
    destruct (claims !! k) as [[s' | n | b |] |]; simpl; split; intros H;
      inversion H; subst; reflexivity.
Qed.

Lemma AuthContext_attaches_string_claims_witness :
  let c := gin.mkContext {[ "token" := "t" ]} ∅ ∅ false in
  let claims : jwt.MapClaims :=
    {[ "sub" := jwt.String_ "7"; "exp" := jwt.Number 99 ]} in
  exists authData : gmap string string,
    middleware.AuthContext (fun _ _ => inl claims) "auth" (fun c => c) "secret" c
      = gin.Set_ c "auth" authData /\
    gin.Keys (gin.Set_ c "auth" authData) !! "auth" = Some authData /\
    forall k s, authData !! k = Some s <-> claims !! k = Some (jwt.String_ s).
Proof.
  intros c claims.
  apply (proj2 (AuthContext_attaches_string_claims (fun _ _ => inl claims) "auth"
                  (fun c => c) "secret" c claims ltac:(discriminate) eq_refl)).
  apply insert_non_empty.
Defined.

(** ** Passwords *)

Section PasswordFacts.

Variable runes : string -> list Z.
Variables IsLower IsUpper : Z -> bool.

Lemma flags_fold (cs : list Z) (l u : bool) :
  foldl (fun (hs : bool * bool) (char : Z) =>
           (if IsLower char then true else hs.1,
            if IsUpper char then true else hs.2)) (l, u) cs
  = (l || existsb IsLower cs, u || existsb IsUpper cs).
Proof.
  revert l u. induction cs as [| c cs IH]; intros l u; simpl.
  - rewrite !orb_false_r. reflexivity.
  - rewrite IH. destruct (IsLower c), (IsUpper c), l, u; reflexivity.
Qed.

End PasswordFacts.

(** X16. [ValidatePassword] accepts exactly the passwords of six bytes
    or more that hold at least one lower-case and at least one
    upper-case character; it asks for no digit and no symbol, and the
    length is counted in bytes. *)
Theorem ValidatePassword_accepts_exactly
    (runes : string -> list Z) (IsLower IsUpper : Z -> bool) (password : string) :
  helper.ValidatePassword runes IsLower IsUpper password = true <->
  (6 <= String.length password)%nat /\
  (exists c, In c (runes password) /\ IsLower c = true) /\
  (exists c, In c (runes password) /\ IsUpper c = true).
Proof.
  unfold helper.ValidatePassword.
  destruct (Nat.ltb_spec (String.length password) 6) as [Hlt | Hge].
  - split; [discriminate | lia].
  - rewrite flags_fold. simpl. rewrite andb_true_iff, !existsb_exists.
    split; [intros [H1 H2] | intros (_ & H1 & H2)]; auto.
Qed.

(** ** Token generation *)

Section GenerateFacts.

Lemma overwrite_union (acc fields : gmap string jwt.value) :
  tokens.overwrite acc fields = fields ∪ acc.
Proof.
  unfold tokens.overwrite.
  apply (map_fold_weak_ind (fun r m => r = m ∪ acc)).
  - rewrite (left_id_L ∅ (∪)). reflexivity.
  - intros i x m r _ ->. apply insert_union_l.
Qed.

End GenerateFacts.

(** X17. The optional fields of [GenerateToken] overwrite the claims of
    the access token, the standard ones ([sub], [type], [exp], [iat])
    included, and of several maps the last one wins; without optional
    fields the access token carries exactly the four standard claims.
    When signing either token fails, both returned tokens are empty. *)
Theorem GenerateToken_optional_fields
    (GenerateJwtToken : jwt.MapClaims -> string + string)
    (sub token_type : string) (expiry issued refreshIssued refreshExpiry : Z)
    (optionalFields : list jwt.MapClaims) (last : jwt.MapClaims) (k : string) :
  tokens.accessClaims sub token_type expiry issued (optionalFields ++ [last]) !! k
    = match last !! k with
      | Some v => Some v
      | None => tokens.accessClaims sub token_type expiry issued optionalFields !! k
      end /\
  tokens.accessClaims sub token_type expiry issued [] !! k
    = (if decide (k = "sub") then Some (jwt.String_ sub)
       else if decide (k = "type") then Some (jwt.String_ token_type)
       else if decide (k = "exp") then Some (jwt.Number expiry)
       else if decide (k = "iat") then Some (jwt.Number issued)
       else None) /\
  (forall access refresh err,
      tokens.GenerateToken GenerateJwtToken sub token_type expiry issued
        refreshIssued refreshExpiry optionalFields = (access, refresh, Some err) ->
      access = "" /\ refresh = "").
Proof.
  split; [| split].
  - unfold tokens.accessClaims, jwt.MapClaims in *. rewrite foldl_app. simpl.
    rewrite overwrite_union, lookup_union.
    destruct (last !! k); destruct (_ !! k); reflexivity.
  - unfold tokens.accessClaims, jwt.MapClaims in *. simpl.
    repeat case_decide; subst; try reflexivity.
    rewrite !lookup_insert_ne by congruence. apply lookup_singleton_ne. congruence.
  - intros access refresh err. unfold tokens.GenerateToken.
    destruct (GenerateJwtToken _) as [a | e]; [| intros [= <- <- _]; auto].
    destruct (GenerateJwtToken _) as [r | e]; [discriminate |].
    intros [= <- <- _]. auto.
Qed.

Lemma GenerateToken_optional_fields_witness :
  tokens.accessClaims "7" "access" 100 40 ([] ++ [{[ "sub" := jwt.String_ "1" ]}]) !! "sub"
  = Some (jwt.String_ "1").
Proof.
  exact (proj1 (GenerateToken_optional_fields (fun _ => inr "no key")
                  "7" "access" 100 40 41 900 [] {[ "sub" := jwt.String_ "1" ]} "sub")).
Defined.

(** ** The user handlers *)

Section HandlerFacts.

Import postgres service.

Variable TrimSpace : string -> string.
Variable GetUserRole : string -> string.
Variable GenerateFromPassword : string -> string + string.

(** What [updateUser] does once the identifier is accepted, the body
    bound, the role present and the password, if any, hashed: it calls
    the repository and maps its answer. *)
Lemma updateUser_calls_Update (now : Z) (db : Postgres) (idParam : string) (id : Z)
    (payload : v1.UpdateUserPayload) (r : string) :
  strconv.ParseInt (TrimSpace idParam) = Some id ->
  0 < id ->
  v1.Role payload = Some r ->
  (forall p, exists h, GenerateFromPassword p = inl h) ->
  exists hashed,
    (hashed = None <->
     v1.Password payload = None \/ v1.Password payload = Some "") /\
    (forall h, hashed = Some h ->
       exists p, v1.Password payload = Some p /\ GenerateFromPassword p = inl h) /\
    v1.updateUser TrimSpace GetUserRole GenerateFromPassword now db idParam (inl payload)
    = match userRepo.Update now db
              (Some (v1.buildRequest id payload (GetUserRole r) hashed)) with
      | (Some e, db) =>
          if Str.Contains e "no user found with ID"
          then v1.Responded
                 (v1.handleResponse v1.NotFound
                    (Some ("User with ID " +:+ pretty id +:+ " not found")) None) db
          else if Str.Contains e "no fields to update"
          then v1.Responded
                 (v1.handleResponse v1.BadRequest
                    (Some "No fields provided to update") (Some e)) db
          else v1.Responded
                 (v1.handleResponse v1.InternalServerError
                    (Some "Error while updating user") (Some e)) db
      | (None, db) =>
          v1.Responded (v1.handleResponse v1.OK (Some "User updated successfully") None) db
      end.
Proof.
  intros Hparse Hpos Hrole Hgen. apply Z.leb_gt in Hpos.
  unfold v1.updateUser. rewrite Hparse, Hpos, Hrole.
  destruct (v1.Password payload) as [p |] eqn:Hp.
  - destruct (String.eqb_spec p "") as [-> | Hne]; simpl.
    + exists None. split; [tauto |]. split; [discriminate | reflexivity].
    + destruct (Hgen p) as [h Hh]. rewrite Hh. exists (Some h).
      split; [split; [discriminate | intros [H | H]; congruence] |].
      split; [| reflexivity]. intros h' [= <-]. exists p. auto.
  - exists None. split; [tauto |]. split; [discriminate | reflexivity].
Qed.

End HandlerFacts.

(** X18. A request whose identifier parameter is not a positive decimal
    number is answered with 400 "Invalid user ID format" by [updateUser]
    and by [deleteUser] before anything else is looked at: the body may
    be unbound or lack a role (no panic), and the store is not
    touched. *)
Theorem invalid_identifier_is_rejected_first
    (TrimSpace GetUserRole : string -> string)
    (GenerateFromPassword : string -> string + string)
    (now : Z) (db : postgres.Postgres) (idParam : string)
    (body : v1.UpdateUserPayload + string) :
  (forall id, strconv.ParseInt (TrimSpace idParam) = Some id -> id <= 0) ->
  v1.updateUser TrimSpace GetUserRole GenerateFromPassword now db idParam body
    = v1.Responded (v1.mkResponse 400 "Bad Request" "Invalid request data" None
                      (Some "Invalid user ID format")) db /\
  routes.deleteUser TrimSpace db idParam
    = (v1.mkResponse 400 "Bad Request" "Invalid request data" None
         (Some "Invalid user ID format"), db).
Proof.
  intros Hid. unfold v1.updateUser, routes.deleteUser.
  destruct (strconv.ParseInt (TrimSpace idParam)) as [id |]; [| split; reflexivity].
  specialize (Hid id eq_refl). apply Z.leb_le in Hid. rewrite Hid.
  split; reflexivity.
Qed.

Lemma invalid_identifier_is_rejected_first_witness :
  v1.updateUser sample.TrimSpace sample.GetUserRole sample.GenerateFromPassword
    9 sample.db "-1" (inl sample.passwordOnly)
    = v1.Responded (v1.mkResponse 400 "Bad Request" "Invalid request data" None
                      (Some "Invalid user ID format")) sample.db /\
  routes.deleteUser sample.TrimSpace sample.db "-1"
    = (v1.mkResponse 400 "Bad Request" "Invalid request data" None
         (Some "Invalid user ID format"), sample.db).
Proof.
  apply (invalid_identifier_is_rejected_first sample.TrimSpace sample.GetUserRole
           sample.GenerateFromPassword 9 sample.db "-1" (inl sample.passwordOnly)).
  intros id H. vm_compute in H. injection H as <-. lia.
Defined.

(** X19. [updateUser] answers a phone number that fails
    [ValidatePhoneNumber] with 500 "Error while updating user", not with
    400: the repository's "invalid phone number format" is none of the
    errors the handler tells apart.  Nothing is sent to the store. *)
Theorem updateUser_invalid_phone_is_500
    (TrimSpace GetUserRole : string -> string)
    (GenerateFromPassword : string -> string + string)
    (now : Z) (db : postgres.Postgres) (idParam : string) (id : Z)
    (payload : v1.UpdateUserPayload) (r phone : string) :
  strconv.ParseInt (TrimSpace idParam) = Some id ->
  0 < id ->
  v1.Role payload = Some r ->
  (forall p, exists h, GenerateFromPassword p = inl h) ->
  v1.Phone payload = Some phone ->
  ValidatePhoneNumber phone = false ->
  v1.updateUser TrimSpace GetUserRole GenerateFromPassword now db idParam (inl payload)
  = v1.Responded
      (v1.mkResponse 500 "Internal Server Error" "An unexpected error occurred" None
         (Some "Error while updating user")) db.
Proof.
  intros Hparse Hpos Hrole Hgen Hphone Hinvalid.
  destruct (updateUser_calls_Update TrimSpace GetUserRole GenerateFromPassword
              now db idParam id payload r Hparse Hpos Hrole Hgen)
    as (hashed & _ & _ & ->).
  unfold service.userRepo.Update. simpl.
  assert (Hid : (id =? 0) = false) by (apply Z.eqb_neq; lia).
  rewrite Hid, Hphone, Hinvalid. reflexivity.
Qed.

Lemma updateUser_invalid_phone_is_500_witness :
  v1.updateUser sample.TrimSpace sample.GetUserRole sample.GenerateFromPassword
    9 sample.db "1"
    (inl (v1.mkPayload None None (Some "user") None (Some "12345") None None None))
  = v1.Responded
      (v1.mkResponse 500 "Internal Server Error" "An unexpected error occurred" None
         (Some "Error while updating user")) sample.db.
Proof.
  apply (updateUser_invalid_phone_is_500 sample.TrimSpace sample.GetUserRole
           sample.GenerateFromPassword 9 sample.db "1" 1 _ "user" "12345").
  - reflexivity.
  - lia.
  - reflexivity.
  - intros p. eexists. reflexivity.
  - reflexivity.
  - reflexivity.
Defined.

(** X20. On a store that does not fail, [updateUser] with a role in the
    body and no invalid phone number answers 404 "User with ID n not
    found" when no user has the identifier, leaving every table as it
    was, and 200 when one has; the 200 response carries neither data nor
    the message "User updated successfully", and the row then holds the
    role of the body and, if a non-empty password was sent, its hash. *)
Theorem updateUser_answers
    (TrimSpace GetUserRole : string -> string)
    (GenerateFromPassword : string -> string + string)
    (now : Z) (db : postgres.Postgres) (idParam : string) (id : Z)
    (payload : v1.UpdateUserPayload) (r : string) :
  strconv.ParseInt (TrimSpace idParam) = Some id ->
  0 < id ->
  v1.Role payload = Some r ->
  (forall p, exists h, GenerateFromPassword p = inl h) ->
  (forall phone, v1.Phone payload = Some phone -> ValidatePhoneNumber phone = true) ->
  postgres.faults db = [] ->
  ((forall row, In row (postgres.table db "users") -> row !! "id" <> Some (sql.Int id)) ->
   exists db',
     v1.updateUser TrimSpace GetUserRole GenerateFromPassword now db idParam (inl payload)
     = v1.Responded
         (v1.mkResponse 404 "Not Found" "Resource not found" None
            (Some ("User with ID " +:+ pretty id +:+ " not found"))) db' /\
     postgres.tables db' = postgres.tables db) /\
  ((exists row, In row (postgres.table db "users") /\ row !! "id" = Some (sql.Int id)) ->
   exists db',
     v1.updateUser TrimSpace GetUserRole GenerateFromPassword now db idParam (inl payload)
     = v1.Responded (v1.mkResponse 200 "OK" "Request successful" None None) db' /\
     Forall2 (fun row row' =>
                if postgres.hasID id row
                then row' !! "role" = Some (sql.Text (GetUserRole r)) /\
                     row' !! "updated_at" = Some (sql.Time now) /\
                     row' !! "created_at" = row !! "created_at" /\
                     (forall p h, v1.Password payload = Some p -> p <> "" ->
                                  GenerateFromPassword p = inl h ->
                                  row' !! "hashed_password" = Some (sql.Text h)) /\
                     (v1.Email payload = None -> row' !! "email" = row !! "email")
                else row' = row)
       (postgres.table db "users") (postgres.table db' "users")).
Proof.
  intros Hparse Hpos Hrole Hgen Hphone Hf.
  destruct (updateUser_calls_Update TrimSpace GetUserRole GenerateFromPassword
              now db idParam id payload r Hparse Hpos Hrole Hgen)
    as (hashed & Hnone & Hsome & ->).
  set (req := v1.buildRequest id payload (GetUserRole r) hashed).
  assert (Hid : contract.requestID contract.User req <> 0) by (simpl; lia).
  assert (Hadm : contract.admissible contract.User req) by exact Hphone.
  assert (Hsup : exists c v, (c, Some v) ∈ contract.supplied contract.User req).
  { exists "role", (sql.Text (GetUserRole r)). simpl. do 2 right. left. }
  destruct (written_columns contract.User req) as [Hnd Hup].
  assert (Hsize : (2 <= size (contract.clausesOf contract.User now req))%nat).
  { rewrite clauses_fromFields.
    destruct Hsup as (c & v & Hcv). eapply fromFields_size; eassumption. }
  pose proof (Update_reaches_store_named contract.User now db req Hid Hadm Hsize)
    as Hrun.
  change (service.userRepo.Update now db (Some req) =
          service.execUpdate db "users" (service.userRepo.clauses now req) id
            "no user found with ID ") in Hrun.
  rewrite Hrun. split.
  - intros Hnorow.
    destruct (execUpdate_unknown db "users" (service.userRepo.clauses now req) id
                "no user found with ID " Hf Hnorow) as (db' & -> & Ht & _).
    exists db'. split; [reflexivity | exact Ht].
  - intros (row & Hrow & Hrid).
    rewrite execUpdate_success;
      [| exact Hf
       | exists row; split; [exact Hrow | apply bool_decide_eq_true; exact Hrid]].
    eexists. split; [reflexivity |]. rewrite table_setTable.
    pose proof (clauses_fromFields contract.User now req) as Hcl. simpl in Hcl.
    rewrite Hcl.
    pose proof (applySet_updatedTable now (contract.written contract.User req) id
                  (postgres.table db "users") Hnd Hup) as Hupd.
    unfold contract.updatedTable in Hupd.
    eapply Forall2_impl; [exact Hupd |].
    intros row0 row' Hrr. simpl in Hrr.
    destruct (postgres.hasID id row0); [| exact Hrr].
    destruct Hrr as (Hu & Hw & Hk).
    split; [apply Hw; simpl; do 2 right; left |].
    split; [exact Hu |].
    split; [| split].
    + apply Hk; [discriminate |]. intros v Hv. simpl in Hv.
      apply (list_elem_of_fmap_2 fst) in Hv. revert Hv.
      apply (bool_decide_unpack _). vm_compute. exact I.
    + intros p h Hp Hpne Hh. apply Hw. simpl. do 7 right.
      assert (Hhashed : hashed = Some h).
      { destruct hashed as [h' |].
        - destruct (Hsome h' eq_refl) as (p' & Hp' & Hh'). congruence.
        - destruct (proj1 Hnone eq_refl) as [H | H]; congruence. }
      unfold req. rewrite Hhashed. left.
    + intros Hemail. apply Hk; [discriminate |]. intros v Hv. simpl in Hv.
      rewrite Hemail in Hv. simpl in Hv.
      repeat (apply elem_of_cons in Hv as [Hv | Hv]; [discriminate Hv |]).
      inversion Hv.
Qed.

Lemma updateUser_answers_witness :
  exists db',
    v1.updateUser sample.TrimSpace sample.GetUserRole sample.GenerateFromPassword
      9 sample.db "2" (inl sample.roleOnly)
    = v1.Responded
        (v1.mkResponse 404 "Not Found" "Resource not found" None
           (Some ("User with ID " +:+ pretty 2 +:+ " not found"))) db' /\
    postgres.tables db' = postgres.tables sample.db.
Proof.
  apply (proj1 (updateUser_answers sample.TrimSpace sample.GetUserRole
                  sample.GenerateFromPassword 9 sample.db "2" 2 sample.roleOnly "admin"
                  eq_refl ltac:(lia) eq_refl
                  (fun p => ex_intro _ _ eq_refl)
                  (fun phone H => ltac:(discriminate H)) eq_refl)).
  intros row Hrow.
  change (postgres.table sample.db "users") with [sample.user1] in Hrow.
  destruct Hrow as [<- | []]. vm_compute. discriminate.
Defined.

(** X21. On a store that does not fail, [deleteUser] with a positive
    identifier answers 200 and removes the user's row when a user has
    the identifier, and 404 "User with ID n not found", changing
    nothing, when none has. *)
Theorem deleteUser_answers
    (TrimSpace : string -> string) (db : postgres.Postgres) (idParam : string) (id : Z) :
  strconv.ParseInt (TrimSpace idParam) = Some id ->
  0 < id ->
  postgres.faults db = [] ->
  ((forall row, In row (postgres.table db "users") -> row !! "id" <> Some (sql.Int id)) ->
   routes.deleteUser TrimSpace db idParam
   = (v1.mkResponse 404 "Not Found" "Resource not found" None
        (Some ("User with ID " +:+ pretty id +:+ " not found")), db)) /\
  ((exists row, In row (postgres.table db "users") /\ row !! "id" = Some (sql.Int id)) ->
   exists db',
     routes.deleteUser TrimSpace db idParam
     = (v1.mkResponse 200 "OK" "Request successful" None None, db') /\
     (forall row, In row (postgres.table db' "users") <->
                  In row (postgres.table db "users") /\ row !! "id" <> Some (sql.Int id))).
Proof.
  intros Hparse Hpos Hf.
  assert (Hid : id <> 0) by lia. apply Z.leb_gt in Hpos.
  unfold routes.deleteUser. rewrite Hparse, Hpos.
  rewrite (Delete_run contract.User db id Hf Hid). simpl. split.
  - intros Hnorow. rewrite (filter_hasID_nil id _ Hnorow). reflexivity.
  - intros (row & Hrow & Hrid).
    rewrite (filter_hasID_In id _ row Hrow Hrid).
    eexists. split; [reflexivity |]. rewrite table_setTable.
    intros row'. unfold repository.remaining. rewrite filter_In.
    unfold postgres.hasID. rewrite negb_true_iff, bool_decide_eq_false. reflexivity.
Qed.

Lemma deleteUser_answers_witness :
  exists db',
    routes.deleteUser sample.TrimSpace sample.db "1"
    = (v1.mkResponse 200 "OK" "Request successful" None None, db') /\
    (forall row, In row (postgres.table db' "users") <->
                 In row (postgres.table sample.db "users") /\
                 row !! "id" <> Some (sql.Int 1)).
Proof.
  apply (proj2 (deleteUser_answers sample.TrimSpace sample.db "1" 1
                  eq_refl ltac:(lia) eq_refl)).
  exists sample.user1. split; [left; reflexivity | vm_compute; reflexivity].
Defined.

(** ** The task update handler *)

(** X22. [updateTask] takes the identifier from the path: whatever
    identifier the body carries makes no difference.  With a valid
    identifier, a body without any field is answered with 400 "No fields
    provided to update" and the store is not touched. *)
Theorem updateTask_uses_the_path_identifier
    (TrimSpace : string -> string) (now : Z) (db : postgres.Postgres)
    (idParam : string) (req : service.taskRepo.UpdateTaskRequest) (id bodyID : Z) :
  strconv.ParseInt (TrimSpace idParam) = Some id ->
  0 < id ->
  taskRoutes.updateTask TrimSpace now db idParam (inl (taskRoutes.setID req bodyID))
    = taskRoutes.updateTask TrimSpace now db idParam (inl req) /\
  (Forall (fun f => f.2 = None) (contract.supplied contract.Task req) ->
   taskRoutes.updateTask TrimSpace now db idParam (inl req)
   = (v1.mkResponse 400 "Bad Request" "Invalid request data" None
        (Some "No fields provided to update"), db)).
Proof.
  intros Hparse Hpos. split; [reflexivity |].
  intros Hnone. unfold taskRoutes.updateTask.
  apply Z.leb_gt in Hpos. rewrite Hparse, Hpos.
  assert (Hrun : service.taskRepo.Update now db (Some (taskRoutes.setID req id))
                 = (Some "no fields to update", db)).
  { apply (Update_rejects_empty_request contract.Task now db (taskRoutes.setID req id)).
    - discriminate.
    - simpl. apply Z.leb_gt in Hpos. lia.
    - exact Hnone. }
  rewrite Hrun. reflexivity.
Qed.

Lemma updateTask_uses_the_path_identifier_witness :
  let req := service.taskRepo.mkRequest 0 None None None None None None None in
  taskRoutes.updateTask sample.TrimSpace 9 sample.db "3" (inl (taskRoutes.setID req 8))
    = taskRoutes.updateTask sample.TrimSpace 9 sample.db "3" (inl req) /\
  (Forall (fun f => f.2 = None) (contract.supplied contract.Task req) ->
   taskRoutes.updateTask sample.TrimSpace 9 sample.db "3" (inl req)
   = (v1.mkResponse 400 "Bad Request" "Invalid request data" None
        (Some "No fields provided to update"), sample.db)).
Proof.
  intros req.
  apply (updateTask_uses_the_path_identifier sample.TrimSpace 9 sample.db "3" req 3 8).
  - reflexivity.
  - lia.
Defined.

(** ** Requests an update rejects *)

(** X23. What [Update] rejects before it reaches the store, with the
    store left exactly as it was: a nil request ("... update request
    cannot be nil"), an identifier 0 ("... ID is required for update")
    and, for every repository but Attendance, a request without any
    non-null optional field ("no fields to update"). *)
Theorem Update_rejections
    (e : contract.entity) (now : Z) (db : postgres.Postgres) :
  contract.Update e now db None = (Some (repository.requestNil e), db) /\
  (forall req, contract.requestID e req = 0 ->
     contract.Update e now db (Some req) = (Some (repository.idRequiredForUpdate e), db)) /\
  (forall req, e <> contract.Attendance -> contract.requestID e req <> 0 ->
     Forall (fun f => f.2 = None) (contract.supplied e req) ->
     contract.Update e now db (Some req) = (Some "no fields to update", db)).
Proof.
  split; [destruct e; reflexivity |]. split.
  - intros req Hid. apply Z.eqb_eq in Hid.
    destruct e; simpl in *;
      unfold service.userRepo.Update, service.bonusesRepo.Update,
        service.taskRepo.Update, service.attendanceRepo.Update,
        service.salaryRepo.Update, service.fileRepo.Update,
        service.notificationRepo.Update;
      rewrite Hid; reflexivity.
  - intros req He Hid Hnone.
    apply Update_rejects_empty_request; assumption.
Qed.

Lemma Update_rejections_witness :
  contract.Update contract.Salary 5 sample.db
    (Some (service.salaryRepo.mkRequest 3 None None None None None None None))
  = (Some "no fields to update", sample.db).
Proof.
  apply (proj2 (proj2 (Update_rejections contract.Salary 5 sample.db))).
  - discriminate.
  - simpl. lia.
  - simpl. repeat constructor.
Defined.
